(** * KAI front-end: the security and resilience layer, the API service and
    the wallet / contract hooks

    A shallow embedding of the JavaScript of the application module
    (sanitizer, rate limiter, [secureFetch], the [api] object), of the
    contract configuration ([contracts/config.js]) and of the KAI contract
    hooks ([getContract], [useWallet], [useKAIToken]), followed by the
    properties of the specification.

    Conventions of the embedding.
    - A JavaScript string is a [string]: one [ascii] per code unit, so the
      model covers the strings whose code units are below 256.
    - A JavaScript number is a [Z]: the integers that print without an
      exponent.  [NaN] is [None] where a function can produce it.
    - Asynchronous code is run to completion: an [async] function is a
      function from the world before the call to its outcome and the world
      after it.  What the environment decides (the clock, the outcome of a
      network call, the answers of the wallet and of the chain) is a
      variable of the section that models the code reading it.
    - A retry budget is a natural number: a negative budget behaves as the
      budget zero.
    - The tables of the configuration are finite maps, and a lookup in one
      of them is the lookup of an own property.  A name that every object
      inherits from [Object.prototype] ([inherited]) is found by the
      JavaScript lookup [table[name]] in every table: [switchNetwork]
      models that case, and a statement about [getContract] holds for the
      names that are not inherited. *)

From Stdlib Require Import ZArith Lia Ascii String List Bool Sorted.
From stdpp Require Import base option list strings gmap.

Local Open Scope Z_scope.

(** ** Values *)

Inductive jsval : Type :=
  | JUndefined
  | JNull
  | JBool (b : bool)
  | JNum (n : Z)
  | JStr (s : string).

(** An object literal with primitive fields, in the order of its keys. *)
Definition jsobj : Type := list (string * jsval).

(** The property names of [Object.prototype]: an object literal has each
    of them without having it as its own, and what it finds under such a
    name (a function, or the prototype itself for [__proto__]) is truthy
    and has no property of the tables of the application. *)
Definition Object_prototype_names : list string :=
  [ "constructor"; "__defineGetter__"; "__defineSetter__"; "hasOwnProperty";
    "__lookupGetter__"; "__lookupSetter__"; "isPrototypeOf";
    "propertyIsEnumerable"; "toString"; "valueOf"; "__proto__";
    "toLocaleString" ].

Definition inherited (name : string) : bool :=
  existsb (String.eqb name) Object_prototype_names.

(** What an [async] function settles to: [Ok v] for a fulfilled promise,
    [Throw e] for a rejected one. *)
Inductive outcome (E A : Type) : Type :=
  | Ok (v : A)
  | Throw (e : E).
Arguments Ok {E A} v.
Arguments Throw {E A} e.

(** ** Code units and strings *)

Module Str.

Definition code (c : ascii) : Z := Z.of_N (N_of_ascii c).

Definition chars (s : string) : list ascii := list_ascii_of_string s.
Definition of_chars (l : list ascii) : string := string_of_list_ascii l.

(** [\w] without the unicode flag: [A-Za-z0-9_]. *)
Definition is_word (c : ascii) : bool :=
  let n := code c in
  ((65 <=? n) && (n <=? 90)) || ((97 <=? n) && (n <=? 122))
  || ((48 <=? n) && (n <=? 57)) || (n =? 95).

Definition is_digit (c : ascii) : bool :=
  let n := code c in (48 <=? n) && (n <=? 57).

(** The white space and line terminators of [String.prototype.trim] that
    are code units below 256. *)
Definition is_space (c : ascii) : bool :=
  let n := code c in
  (n =? 9) || (n =? 10) || (n =? 11) || (n =? 12) || (n =? 13)
  || (n =? 32) || (n =? 160).

(** Canonicalisation of the [i] flag on the ASCII letters. *)
Definition upper (c : ascii) : ascii :=
  let n := code c in
  if (97 <=? n) && (n <=? 122) then ascii_of_N (Z.to_N (n - 32)) else c.

Definition eq_ci (a b : ascii) : bool := Ascii.eqb (upper a) (upper b).

(** [pat] read case-insensitively at the head of [s]. *)
Fixpoint prefix_ci (pat s : list ascii) : bool :=
  match pat, s with
  | [], _ => true
  | p :: pat', c :: s' => eq_ci p c && prefix_ci pat' s'
  | _ :: _, [] => false
  end.

Fixpoint prefix (pat s : list ascii) : bool :=
  match pat, s with
  | [], _ => true
  | p :: pat', c :: s' => Ascii.eqb p c && prefix pat' s'
  | _ :: _, [] => false
  end.

(** [s.includes(pat)] *)
Fixpoint includes_chars (pat s : list ascii) : bool :=
  prefix pat s ||
  match s with
  | [] => false
  | _ :: s' => includes_chars pat s'
  end.

Definition includes (s pat : string) : bool :=
  includes_chars (chars pat) (chars s).

(** [s.replace(re, '')] for a global regular expression [re]: [m] gives
    the length of the match of [re] at the head of its argument, if there
    is one.  The scan goes left to right, a match is dropped and the scan
    resumes behind it; [skip] counts the code units of the current match
    still to drop. *)
Fixpoint remove_all (m : list ascii -> option nat) (skip : nat)
    (s : list ascii) : list ascii :=
  match s with
  | [] => []
  | c :: s' =>
      match skip with
      | S k => remove_all m k s'
      | O =>
          match m s with
          | Some (S k) => remove_all m k s'
          | _ => c :: remove_all m O s'
          end
      end
  end.

Fixpoint drop_while (p : ascii -> bool) (s : list ascii) : list ascii :=
  match s with
  | [] => []
  | c :: s' => if p c then drop_while p s' else s
  end.

Fixpoint take_while (p : ascii -> bool) (s : list ascii) : list ascii :=
  match s with
  | [] => []
  | c :: s' => if p c then c :: take_while p s' else []
  end.

Definition trim_chars (s : list ascii) : list ascii :=
  rev (drop_while is_space (rev (drop_while is_space s))).

Definition trim (s : string) : string := of_chars (trim_chars (chars s)).

(** [s.slice(0, n)] *)
Definition slice0 (n : nat) (s : string) : string :=
  of_chars (firstn n (chars s)).

End Str.

(** ** Input sanitizer *)

(** [/[<>]/]: one angle bracket. *)
Definition re_angle (s : list ascii) : option nat :=
  match s with
  | c :: _ => if (Str.code c =? 60) || (Str.code c =? 62) then Some 1%nat else None
  | [] => None
  end.

(** [/javascript:/i] *)
Definition re_javascript (s : list ascii) : option nat :=
  let pat := Str.chars "javascript:" in
  if Str.prefix_ci pat s then Some (length pat) else None.

(** [/on\w+=/i]: the greedy [\w+] takes the whole run of word characters,
    and the run cannot be given back to reach [=], which is not a word
    character: the match exists exactly when the run is not empty and [=]
    follows it. *)
Definition re_on_handler (s : list ascii) : option nat :=
  match s with
  | o :: n :: rest =>
      if Str.eq_ci o "o"%char && Str.eq_ci n "n"%char then
        let run := Str.take_while Str.is_word rest in
        match run, skipn (length run) rest with
        | _ :: _, e :: _ =>
            if Ascii.eqb e "="%char then Some (2 + length run + 1)%nat else None
        | _, _ => None
        end
      else None
  | _ => None
  end.

Definition gsub (re : list ascii -> option nat) (s : string) : string :=
  Str.of_chars (Str.remove_all re O (Str.chars s)).

Definition sanitizeInput (input : jsval) : jsval :=
  match input with
  | JStr s =>
      JStr (Str.slice0 1000
             (Str.trim
               (gsub re_on_handler
                 (gsub re_javascript
                   (gsub re_angle s)))))
  | _ => input
  end.

(** ** Numbers and their digits *)

Module Num.

(** The character of a digit below 16: [0-9] then [a-f]. *)
Definition digit_char (k : Z) : ascii :=
  ascii_of_N (Z.to_N (if k <? 10 then 48 + k else 87 + k)).

(** The value of a digit character, as [parseInt] and [BigInt] read it:
    [0-9], then the letters in either case; 36 for any other character,
    which is a digit in no base. *)
Definition digit_val (c : ascii) : Z :=
  let n := Str.code c in
  if (48 <=? n) && (n <=? 57) then n - 48
  else if (97 <=? n) && (n <=? 122) then n - 87
  else if (65 <=? n) && (n <=? 90) then n - 55
  else 36.

Definition is_digit_of (radix : Z) (c : ascii) : bool := digit_val c <? radix.

(** Digits of [n] in base [radix], most significant first.  [fuel] bounds
    the number of digits; [nat_chars] gives enough of it. *)
Fixpoint to_digits (radix : Z) (fuel : nat) (n : Z) : list ascii :=
  match fuel with
  | O => []
  | S f =>
      if n <? radix then [digit_char n]
      else to_digits radix f (n / radix) ++ [digit_char (n mod radix)]
  end.

(** [n.toString(radix)] for an integer [0 <= n]. *)
Definition nat_chars (radix n : Z) : list ascii :=
  to_digits radix (S (Z.to_nat (Z.log2 n))) n.

(** [n.toString(radix)] for an integer. *)
Definition int_chars (radix n : Z) : list ascii :=
  if n <? 0 then "-"%char :: nat_chars radix (- n) else nat_chars radix n.

Definition toString (n : Z) : string := Str.of_chars (int_chars 10 n).
Definition toString16 (n : Z) : string := Str.of_chars (int_chars 16 n).

(** The number a run of digits denotes in base [radix]. *)
Definition radix_val (radix : Z) (ds : list ascii) : Z :=
  fold_left (fun acc c => radix * acc + digit_val c) ds 0.

Definition digits_val (ds : list ascii) : Z := radix_val 10 ds.

End Num.

(** [String(v)], the conversion of template literals and of [parseInt].
    A number is printed with all its digits, as JavaScript prints the
    integers between [-10^21] and [10^21]; beyond them JavaScript prints an
    exponent, and a statement that depends on the digits of a number
    carries that bound. *)
Definition ToString (v : jsval) : string :=
  match v with
  | JUndefined => "undefined"
  | JNull => "null"
  | JBool true => "true"
  | JBool false => "false"
  | JNum n => Num.toString n
  | JStr s => s
  end.

(** Truthiness of a value, as [!v] and [v || w] read it. *)
Definition truthy (v : jsval) : bool :=
  match v with
  | JUndefined | JNull => false
  | JBool b => b
  | JNum n => negb (n =? 0)
  | JStr s => negb (String.eqb s "")
  end.

(** [parseInt(v)] with no radix: white space is skipped, a sign is read, a
    [0x] prefix selects base 16 and the longest run of digits of the base
    is the result; [None] is [NaN]. *)
Definition parseInt (v : jsval) : option Z :=
  let s := Str.drop_while Str.is_space (Str.chars (ToString v)) in
  let '(sign, s) :=
    match s with
    | c :: s' =>
        if Ascii.eqb c "-"%char then (-1, s')
        else if Ascii.eqb c "+"%char then (1, s')
        else (1, s)
    | [] => (1, s)
    end in
  let '(radix, s) :=
    if Str.prefix_ci (Str.chars "0x") s then (16, skipn 2 s) else (10, s) in
  match Str.take_while (Num.is_digit_of radix) s with
  | [] => None
  | ds => Some (sign * Num.radix_val radix ds)
  end.

(** ** Rate limiter *)

Definition MAX_RETRIES : Z := 3.
Definition RETRY_DELAY : Z := 1000.
Definition RATE_LIMIT_WINDOW : Z := 60000.
Definition MAX_REQUESTS_PER_WINDOW : Z := 100.

Definition rate_limit_message : string := "Rate limit exceeded. Please wait.".

(** The timestamps of [requestLog] that the check at time [now] keeps. *)
Definition recentRequests (now : Z) (requestLog : list Z) : list Z :=
  let windowStart := now - RATE_LIMIT_WINDOW in
  List.filter (fun t => t >? windowStart) requestLog.

(** [checkRateLimit], with the clock reading [now] and the module-level
    [requestLog] made explicit: the outcome and the log after the call.  The
    log is emptied and refilled with the recent timestamps before the
    ceiling is tested, so a rejected call leaves the pruned log behind. *)
Definition checkRateLimit (now : Z) (requestLog : list Z)
    : outcome string unit * list Z :=
  let recent := recentRequests now requestLog in
  let requestLog := recent in
  if Z.of_nat (length recent) >=? MAX_REQUESTS_PER_WINDOW
  then (Throw rate_limit_message, requestLog)
  else (Ok tt, requestLog ++ [now]).

Definition is_ok {E A} (r : outcome E A) : bool :=
  match r with Ok _ => true | Throw _ => false end.

(** A run of checks.  The state is the log together with the history of the
    run: the clock reading of every check so far and whether it was
    admitted, oldest first. *)
Definition limiter_state : Type := list Z * list (Z * bool).

Definition check_step (st : limiter_state) (now : Z) : limiter_state :=
  let '(log, history) := st in
  let '(r, log') := checkRateLimit now log in
  (log', history ++ [(now, is_ok r)]).

Definition run_checks (times : list Z) : limiter_state :=
  fold_left check_step times ([], []).

(** The timestamps of the admitted calls of a history. *)
Definition admitted (history : list (Z * bool)) : list Z :=
  map fst (List.filter snd history).

(** The timestamps of [ts] in the trailing window of duration
    [RATE_LIMIT_WINDOW] that ends at [T]: the bounds are those of the check,
    which keeps [t > T - RATE_LIMIT_WINDOW]. *)
Definition in_window (T : Z) (ts : list Z) : list Z :=
  List.filter (fun t => (t >? T - RATE_LIMIT_WINDOW) && (t <=? T)) ts.

(** ** Resilient fetch wrapper and API service *)

Definition API_BASE : string := "http://127.0.0.1:3333/api/v1".

(** The [options] argument of [secureFetch] and the second argument of
    [fetch].  [body] holds the value handed to [JSON.stringify]; a header
    list is an object literal, keys in order. *)
Record RequestInit : Type := {
  method : option string;
  body : option jsobj;
  headers : list (string * string);
}.

Definition no_options : RequestInit :=
  {| method := None; body := None; headers := [] |}.

(** [{...a, ...b}] on objects: the keys of [a] in order, a key that [b]
    also has taking the value of [b], then the keys only [b] has. *)
Fixpoint obj_get {V} (k : string) (o : list (string * V)) : option V :=
  match o with
  | [] => None
  | (k', v) :: o' => if String.eqb k k' then Some v else obj_get k o'
  end.

Definition obj_spread {V} (a b : list (string * V)) : list (string * V) :=
  map (fun '(k, v) => (k, default v (obj_get k b))) a
  ++ List.filter (fun '(k, _) => negb (bool_decide (is_Some (obj_get k a)))) b.

(** How a call of [fetch] settles, as [secureFetch] observes it. *)
Inductive FetchResult : Type :=
  (** [fetch] rejects on its own: a network error, with its message. *)
  | NetworkError (message : string)
  (** Nothing arrives within 15000 ms: the timer aborts the call and
      [fetch] rejects with the abort error of the host, with its message. *)
  | NoAnswer (message : string)
  (** A response arrives: [response.ok], [response.status] and how
      [response.json()] settles (the parsed body, or the message of the
      error it rejects with). *)
  | Response (ok : bool) (status : Z) (json : outcome string jsval).

(** What the wrapper does that the outside can see: a call of [fetch], the
    abort of the pending call by the 15000 ms timer, and the wait on
    [setTimeout(r, ms)] before a retry, with [ms] as it is handed to the
    timer. *)
Inductive Event : Type :=
  | EvFetch (url : string) (init : RequestInit)
  | EvAbort
  | EvDelay (ms : Z).

(** The world of the client: the module-level [requestLog], the number of
    clock readings and of [fetch] calls made so far, and the events so far,
    oldest first. *)
Record World : Type := {
  requestLog : list Z;
  ticks : nat;
  calls : nat;
  trace : list Event;
}.

(** The delays of a trace, in order, and the number of its [fetch] calls. *)
Definition delays (tr : list Event) : list Z :=
  omap (fun ev => match ev with EvDelay ms => Some ms | _ => None end) tr.

Definition fetches (tr : list Event) : nat :=
  length (List.filter (fun ev => match ev with EvFetch _ _ => true | _ => false end) tr).

(** The events of one attempt besides the call itself. *)
Definition attempt_tail (r : FetchResult) : list Event :=
  match r with NoAnswer _ => [EvAbort] | _ => [] end.

(** The delay before the [k]-th retry of a call of [secureFetch] with
    budget [r]: the [k]-th retry is decided with [r - k + 1] retries left. *)
Definition retry_delay (r k : nat) : Z :=
  RETRY_DELAY * (MAX_RETRIES - Z.of_nat r + Z.of_nat k).

(** An event that is no call of [fetch], or the call with this request. *)
Definition same_request (url : string) (init : RequestInit) (ev : Event) : Prop :=
  match ev with
  | EvFetch u i => u = url /\ i = init
  | _ => True
  end.

Definition initial_world : World :=
  {| requestLog := []; ticks := 0; calls := 0; trace := [] |}.

Section Client.

(** [clock k] is the value of the [k]-th reading of [Date.now()];
    [network k url init] is how the [k]-th call of [fetch] settles. *)
Variable clock : nat -> Z.
Variable network : nat -> string -> RequestInit -> FetchResult.

(** [checkRateLimit()] in the world. *)
Definition checkRateLimit_in (w : World) : outcome string unit * World :=
  let '(r, log) := checkRateLimit (clock (ticks w)) (requestLog w) in
  (r, {| requestLog := log; ticks := S (ticks w); calls := calls w;
         trace := trace w |}).

Definition emit (evs : list Event) (w : World) : World :=
  {| requestLog := requestLog w; ticks := ticks w; calls := calls w;
     trace := trace w ++ evs |}.

(** The argument [secureFetch] gives to [fetch]: the caller's options with
    the [Content-Type] header merged in. *)
Definition fetch_init (options : RequestInit) : RequestInit :=
  {| method := method options;
     body := body options;
     headers := obj_spread [("Content-Type", "application/json")]
                           (headers options) |}.

(** The [try] block of [secureFetch]: the call of [fetch] under the
    15000 ms timer, the status test and the parse of the body. *)
Definition attempt (url : string) (options : RequestInit) (w : World)
    : outcome string jsval * World :=
  let init := fetch_init options in
  let w1 := {| requestLog := requestLog w; ticks := ticks w;
               calls := S (calls w);
               trace := trace w ++ [EvFetch url init] |} in
  match network (calls w) url init with
  | NetworkError m => (Throw m, w1)
  | NoAnswer m => (Throw m, emit [EvAbort] w1)
  | Response ok status json =>
      if negb ok then (Throw ("HTTP " +:+ Num.toString status), w1)
      else (json, w1)
  end.

(** [secureFetch(url, options, retries)].  The rate-limit check stands
    before the [try], so its error leaves the function at once; the
    recursive call is the last action of the [catch] block, so whatever it
    settles to is the result.  [retries] is a count: the test
    [retries > 0] is the match on a successor. *)
Fixpoint secureFetch (url : string) (options : RequestInit) (retries : nat)
    (w : World) : outcome string jsval * World :=
  match checkRateLimit_in w with
  | (Throw e, w) => (Throw e, w)
  | (Ok _, w) =>
      match attempt url options w with
      | (Ok v, w) => (Ok v, w)
      | (Throw error, w) =>
          match retries, Str.includes error "Rate limit" with
          | S retries', false =>
              let ms := RETRY_DELAY * (MAX_RETRIES - Z.of_nat retries + 1) in
              secureFetch url options retries' (emit [EvDelay ms] w)
          | _, _ => (Throw error, w)
          end
      end
  end.

(** What the attempt settles to, read off the answer of the network. *)
Definition settle (r : FetchResult) : outcome string jsval :=
  match r with
  | NetworkError m => Throw m
  | NoAnswer m => Throw m
  | Response ok status json =>
      if negb ok then Throw ("HTTP " +:+ Num.toString status) else json
  end.

(** A failure [secureFetch] retries while budget remains: the attempt
    throws, and the message of the error does not contain "Rate limit". *)
Definition retryable (r : FetchResult) : bool :=
  match settle r with
  | Throw e => negb (Str.includes e "Rate limit")
  | Ok _ => false
  end.

(** The log after the limiter admitted [n] checks in a row, the first at
    clock reading number [tick]; [None] when one of them is rejected. *)
Fixpoint limiter_after (n tick : nat) (log : list Z) : option (list Z) :=
  match n with
  | O => Some log
  | S n' =>
      match checkRateLimit (clock tick) log with
      | (Ok _, log') => limiter_after n' (S tick) log'
      | (Throw _, _) => None
      end
  end.

(** A stand-in for [ethers.isAddress] on concrete inputs: it accepts the
    strings made of [0x] and forty digits among [0-9a-f], which
    [ethers.isAddress] accepts without a checksum, and nothing else. *)
Definition is_plain_address (v : jsval) : bool :=
  match v with
  | JStr s =>
      match Str.chars s with
      | z :: x :: ds =>
          Ascii.eqb z "0"%char && Ascii.eqb x "x"%char
          && (length ds =? 40)%nat
          && forallb (fun c => Str.is_digit c
                        || ((97 <=? Str.code c) && (Str.code c <=? 102))) ds
      | _ => false
      end
  | _ => false
  end.

End Client.

(** The budget every operation of the [api] object passes: the default of
    the parameter [retries]. *)
Definition default_retries : nat := Z.to_nat MAX_RETRIES.

(** *** The [api] object *)

Module api.
Section Operations.

(** [clock] and [network] as for [secureFetch]; [isAddress] is
    [ethers.isAddress]. *)
Variable clock : nat -> Z.
Variable network : nat -> string -> RequestInit -> FetchResult.
Variable isAddress : jsval -> bool.

Definition getHealth (w : World) :=
  secureFetch clock network (API_BASE +:+ "/health") no_options default_retries w.

(** The fields of the argument of [createAlert] that it reads; a field
    the caller left out is [JUndefined]. *)
Record AlertData : Type := {
  disasterType : jsval;
  region : jsval;
  riskScore : jsval;
}.

(** [Math.min(100, Math.max(0, parseInt(x) || 0))] *)
Definition clampRisk (x : jsval) : Z :=
  let parsed := match parseInt x with Some n => n | None => 0 end in
  Z.min 100 (Z.max 0 parsed).

(** The object [sanitized] of [createAlert]. *)
Definition sanitizedAlert (data : AlertData) : jsobj :=
  [ ("disasterType", sanitizeInput (disasterType data));
    ("region", sanitizeInput (region data));
    ("riskScore", JNum (clampRisk (riskScore data))) ].

Definition createAlert (data : AlertData) (w : World) :=
  let sanitized := sanitizedAlert data in
  secureFetch clock network (API_BASE +:+ "/disaster/alerts")
    {| method := Some "POST"; body := Some sanitized; headers := [] |}
    default_retries w.

Definition getBalance (address : jsval) (w : World)
    : outcome string jsval * World :=
  if negb (isAddress address) then (Throw "Invalid address", w)
  else secureFetch clock network
         (API_BASE +:+ "/token/balance/" +:+ ToString address)
         no_options default_retries w.

End Operations.
End api.

(** ** Contract configuration ([contracts/config.js]) *)

Module Config.

Record Currency : Type := {
  cur_name : string;
  cur_symbol : string;
  cur_decimals : Z;
}.

Record Network : Type := {
  chainId : Z;
  name : string;
  rpcUrl : string;
  explorer : string;
  currency : Currency;
}.

Definition NETWORKS : gmap string Network :=
  list_to_map [
    ("polygon",
     {| chainId := 137; name := "Polygon Mainnet";
        rpcUrl := "https://polygon-rpc.com";
        explorer := "https://polygonscan.com";
        currency := {| cur_name := "MATIC"; cur_symbol := "MATIC"; cur_decimals := 18 |} |});
    ("amoy",
     {| chainId := 80002; name := "Polygon Amoy Testnet";
        rpcUrl := "https://rpc-amoy.polygon.technology";
        explorer := "https://www.oklink.com/amoy";
        currency := {| cur_name := "MATIC"; cur_symbol := "MATIC"; cur_decimals := 18 |} |});
    ("hardhat",
     {| chainId := 31337; name := "Hardhat Local";
        rpcUrl := "http://127.0.0.1:8545";
        explorer := "";
        currency := {| cur_name := "ETH"; cur_symbol := "ETH"; cur_decimals := 18 |} |})
  ].

Definition DEFAULT_NETWORK : string := "amoy".

Definition contract_names : list string :=
  [ "KAIToken"; "KAIRevenue"; "KAIGovernance"; "ClimateAlertStaking";
    "KAI_Oracle"; "KaiHealth"; "KAI_Agriculture"; "KAI_LawEvidence";
    "KaiDisasterResponse"; "KAIVesting" ].

(** [CONTRACT_ADDRESSES]: every network lists the ten contracts, each
    with the empty address the repository ships ("update after
    deployment"). *)
Definition blank_addresses : gmap string string :=
  list_to_map (map (fun n => (n, "")) contract_names).

Definition CONTRACT_ADDRESSES : gmap string (gmap string string) :=
  list_to_map [ ("hardhat", blank_addresses); ("amoy", blank_addresses);
                ("polygon", blank_addresses) ].

(** [ABIS]: the interface of each contract, one signature per entry. *)
Definition ABIS : gmap string (list string) :=
  list_to_map [
    ("KAIToken",
     [
       "function name() view returns (string)";
       "function symbol() view returns (string)";
       "function decimals() view returns (uint8)";
       "function totalSupply() view returns (uint256)";
       "function balanceOf(address account) view returns (uint256)";
       "function transfer(address to, uint256 amount) returns (bool)";
       "function approve(address spender, uint256 amount) returns (bool)";
       "function allowance(address owner, address spender) view returns (uint256)";
       "function transferFrom(address from, address to, uint256 amount) returns (bool)";
       "function totalBurned() view returns (uint256)";
       "function burnedByAddress(address account) view returns (uint256)";
       "function getPillarBurnRate(uint8 pillarId) view returns (uint256)";
       "function directBurn(uint256 amount, uint8 pillarId, string reason)";
       "event Transfer(address indexed from, address indexed to, uint256 value)";
       "event Approval(address indexed owner, address indexed spender, uint256 value)";
       "event PillarBurn(address indexed burner, uint8 indexed pillarId, uint256 amount, string reason)"
     ]);
    ("KAIRevenue",
     [
       "function kaiToken() view returns (address)";
       "function treasury() view returns (address)";
       "function totalRevenue() view returns (uint256)";
       "function monthlyRevenue() view returns (uint256)";
       "function ALERT_BASIC() view returns (uint256)";
       "function ALERT_URGENT() view returns (uint256)";
       "function SUBSCRIPTION_BASIC() view returns (uint256)";
       "function SUBSCRIPTION_PREMIUM() view returns (uint256)";
       "function buyAlert(uint8 alertType) returns (uint256)";
       "function subscribe(uint8 plan)";
       "function hasActiveSubscription(address user) view returns (bool)";
       "function getUserStats(address user) view returns (uint256 alertCount, uint256 totalSpent, bool isSubscribed)";
       "event RevenueCollected(uint256 amount, uint256 totalRevenue)";
       "event SubscriptionCreated(address indexed user, uint8 plan, uint256 expiresAt)"
     ]);
    ("KAIGovernance",
     [
       "function kaiToken() view returns (address)";
       "function proposalCount() view returns (uint256)";
       "function quorumThreshold() view returns (uint256)";
       "function votingPeriod() view returns (uint256)";
       "function propose(string title, string description, uint8 proposalType) returns (uint256)";
       "function vote(uint256 proposalId, bool support)";
       "function executeProposal(uint256 proposalId)";
       "function getProposal(uint256 proposalId) view returns (tuple)";
       "function hasVoted(uint256 proposalId, address voter) view returns (bool)";
       "event ProposalCreated(uint256 indexed proposalId, address proposer, string title)";
       "event VoteCast(uint256 indexed proposalId, address indexed voter, bool support, uint256 weight)";
       "event ProposalExecuted(uint256 indexed proposalId)"
     ]);
    ("ClimateAlertStaking",
     [
       "function kaiToken() view returns (address)";
       "function minimumStake() view returns (uint256)";
       "function stakingDuration() view returns (uint256)";
       "function totalStaked() view returns (uint256)";
       "function stake(uint256 amount)";
       "function unstake()";
       "function claimRewards()";
       "function getStakeInfo(address staker) view returns (uint256 amount, uint256 timestamp, uint256 rewards)";
       "function calculateRewards(address staker) view returns (uint256)";
       "event Staked(address indexed user, uint256 amount)";
       "event Unstaked(address indexed user, uint256 amount)";
       "event RewardsClaimed(address indexed user, uint256 amount)"
     ]);
    ("KAI_Oracle",
     [
       "function getRiskLevel(string region, uint8 riskType) view returns (uint8)";
       "function getLatestData(string region) view returns (tuple)";
       "function isHighRisk(string region) view returns (bool)";
       "event DataUpdated(string indexed region, uint8 riskType, uint8 level)";
       "event AlertTriggered(string indexed region, uint8 severity)"
     ]);
    ("KaiHealth",
     [
       "function inspectionFee() view returns (uint256)";
       "function getInspection(uint256 inspectionId) view returns (tuple)";
       "function requestInspection(string facilityName, string location) payable returns (uint256)";
       "function certifyFacility(uint256 inspectionId, string certificateHash)";
       "event InspectionRequested(uint256 indexed id, address requester, string facilityName)";
       "event InspectionCompleted(uint256 indexed id, bool passed)";
       "event FacilityCertified(uint256 indexed id, string certificateHash)"
     ]);
    ("KAI_Agriculture",
     [
       "function getPolicyDetails(uint256 policyId) view returns (tuple)";
       "function createPolicy(string cropType, uint256 coverage, string region) payable returns (uint256)";
       "function claimPolicy(uint256 policyId, string evidenceHash)";
       "event PolicyCreated(uint256 indexed policyId, address farmer, string cropType, uint256 coverage)";
       "event ClaimFiled(uint256 indexed policyId, string evidenceHash)";
       "event ClaimPaid(uint256 indexed policyId, uint256 amount)"
     ]);
    ("KAI_LawEvidence",
     [
       "function getEvidence(bytes32 evidenceHash) view returns (tuple)";
       "function submitEvidence(bytes32 evidenceHash, string description) returns (uint256)";
       "function verifyEvidence(bytes32 evidenceHash) view returns (bool exists, uint256 timestamp, address submitter)";
       "event EvidenceSubmitted(bytes32 indexed hash, address indexed submitter, uint256 timestamp)";
       "event EvidenceVerified(bytes32 indexed hash)"
     ]);
    ("KaiDisasterResponse",
     [
       "function emergencyFund() view returns (uint256)";
       "function getIncident(uint256 incidentId) view returns (tuple)";
       "function reportIncident(uint8 disasterType, string location, uint8 severity, string description) returns (uint256)";
       "function requestAid(uint256 incidentId, uint256 amount, string reason)";
       "event IncidentReported(uint256 indexed id, uint8 disasterType, string location, uint8 severity)";
       "event AidRequested(uint256 indexed incidentId, address requester, uint256 amount)";
       "event AidDisbursed(uint256 indexed incidentId, address recipient, uint256 amount)"
     ]);
    ("KAIVesting",
     [
       "function token() view returns (address)";
       "function getVestingSchedule(address beneficiary) view returns (tuple)";
       "function releasable(address beneficiary) view returns (uint256)";
       "function release(address beneficiary)";
       "event VestingScheduleCreated(address indexed beneficiary, uint256 amount, uint256 cliff, uint256 duration)";
       "event TokensReleased(address indexed beneficiary, uint256 amount)"
     ])
  ].

(** What [getContractConfig] returns.  [addresses] is [None] when
    [CONTRACT_ADDRESSES] has no entry for the network ([undefined]). *)
Record ContractConfig : Type := {
  network : option Network;
  addresses : option (gmap string string);
  abis : gmap string (list string);
}.

Definition getContractConfig (networkId : string) : ContractConfig :=
  {| network := NETWORKS !! networkId;
     addresses := CONTRACT_ADDRESSES !! networkId;
     abis := ABIS |}.

End Config.

(** ** Token amounts *)

Module Units.

(** Modelled from the spec: [ethers.parseUnits] and [ethers.formatUnits],
    functions of the ethers library, whose source is not part of the
    repository.  The model is the conversion the specification describes:
    a token amount is a decimal string on the side of the interface and an
    integer scaled by [10 ^ decimals] in a transaction, and the conversion
    is exact, on integers throughout.  The shape of the strings is the one
    of the specification's example, ["123.456"] for
    [123456000000000000000] at 18 decimals: no padding zeros, and, for a
    token with decimals, a decimal point with at least one digit on each
    side of it. *)

(** The [d] low decimal digits of [r], most significant first. *)
Fixpoint fraction_chars (d : nat) (r : Z) : list ascii :=
  match d with
  | O => []
  | S d' => fraction_chars d' (r / 10) ++ [Num.digit_char (r mod 10)]
  end.

Definition is_zero_char (c : ascii) : bool := Ascii.eqb c "0"%char.

(** Zeros at the end of a fraction are dropped, down to one digit. *)
Definition trim_fraction (f : list ascii) : list ascii :=
  match rev (Str.drop_while is_zero_char (rev f)) with
  | [] => ["0"%char]
  | f' => f'
  end.

Definition format_chars (value : Z) (decimals : nat) : list ascii :=
  let sign := if value <? 0 then ["-"%char] else [] in
  let v := Z.abs value in
  let scale := 10 ^ Z.of_nat decimals in
  let whole := Num.nat_chars 10 (v / scale) in
  match decimals with
  | O => sign ++ whole
  | S _ =>
      sign ++ whole ++ "."%char :: trim_fraction (fraction_chars decimals (v mod scale))
  end.

(** [formatUnits(value, decimals)] *)
Definition formatUnits (value : Z) (decimals : nat) : string :=
  Str.of_chars (format_chars value decimals).

(** The parts of a decimal numeral: an optional minus sign, the digits of
    the whole part, an optional point, the digits of the fraction; at least
    one digit in all. *)
Definition split_numeral (s : list ascii)
    : option (bool * list ascii * list ascii) :=
  let '(negative, s) :=
    match s with
    | c :: s' => if Ascii.eqb c "-"%char then (true, s') else (false, s)
    | [] => (false, s)
    end in
  let whole := Str.take_while Str.is_digit s in
  let rest := skipn (length whole) s in
  let fraction :=
    match rest with
    | c :: f => if Ascii.eqb c "."%char then f else rest
    | [] => rest
    end in
  if forallb Str.is_digit fraction
     && negb ((length whole + length fraction =? 0)%nat)
  then Some (negative, whole, fraction)
  else None.

Definition parse_chars (s : list ascii) (decimals : nat) : option Z :=
  match split_numeral s with
  | None => None
  | Some (negative, whole, fraction) =>
      let whole := match whole with [] => ["0"%char] | _ => whole end in
      let padded := fraction ++ repeat "0"%char (decimals - length fraction) in
      (* digits beyond the precision of the token must be zeros *)
      if forallb is_zero_char (skipn decimals padded) then
        let v := Num.digits_val (whole ++ firstn decimals padded) in
        Some (if negative then - v else v)
      else None
  end.

(** [parseUnits(value, decimals)]; [None] when the call throws: the string
    is no decimal numeral, or it has more digits than the token keeps. *)
Definition parseUnits (value : string) (decimals : nat) : option Z :=
  parse_chars (Str.chars value) decimals.

(** The sign and the point of a numeral, as characters. *)
Definition sign_chars (negative : bool) : list ascii :=
  if negative then ["-"%char] else [].

Definition point_chars (has_point : bool) (fraction : list ascii) : list ascii :=
  if has_point then "."%char :: fraction else [].

(** A run of digits with no zero in front of another digit. *)
Definition plain_whole (w : list ascii) : bool :=
  match w with
  | [] => false
  | c :: w' => negb (is_zero_char c) || (length w' =? 0)%nat
  end.

(** A run of digits with no zero behind another digit. *)
Definition plain_fraction (f : list ascii) : bool := plain_whole (rev f).

(** A numeral in the shape [formatUnits] writes: a plain whole part; for a
    token without decimals nothing else, and else a point and a plain
    fraction within the precision; no minus sign on zero. *)
Definition canonical (s : list ascii) (decimals : nat) : bool :=
  match split_numeral s with
  | Some (negative, whole, fraction) =>
      plain_whole whole
      && match decimals with
         | O => (length s =? (if negative then 1 else 0) + length whole)%nat
         | S _ => plain_fraction fraction && (length fraction <=? decimals)%nat
         end
      && negb (negative && forallb is_zero_char (whole ++ fraction))
  | None => false
  end.

End Units.

(** ** Wallet and contract hooks (KAI contract hooks) *)

(** The error a wallet request rejects with: [code] is [None] when the
    error carries none. *)
Record RpcError : Type := {
  code : option Z;
  message : string;
}.

(** The parameter of [wallet_addEthereumChain]. *)
Record AddChainParams : Type := {
  add_chainId : string;
  chainName : string;
  rpcUrls : list string;
  nativeCurrency : Config.Currency;
  blockExplorerUrls : list string;
}.

(** The requests the hooks send to [window.ethereum]. *)
Inductive WalletRequest : Type :=
  | eth_accounts
  | eth_chainId
  | eth_requestAccounts
  | wallet_switchEthereumChain (chainId : string)
  | wallet_addEthereumChain (params : AddChainParams).

Inductive Runner : Type :=
  | RunnerProvider
  | RunnerSigner (signer : option string).

(** An [ethers.Contract]: the arguments of its constructor. *)
Record Contract : Type := {
  target : string;
  interface : list string;
  runner : Runner;
}.

(** What the hooks do that the outside can see, oldest first:
    [EvProvider] is a read of [window.ethereum] by [getProvider],
    [EvSigner] a call of [provider.getSigner()], [EvRequest] a request to
    the wallet, [EvCall] a read of a contract method, [EvSend] a
    transaction. *)
Inductive HookEvent : Type :=
  | EvProvider
  | EvSigner
  | EvRequest (r : WalletRequest)
  | EvCall (c : Contract) (method : string) (args : list jsval)
  | EvSend (c : Contract) (method : string) (args : list jsval).

(** A computation of the hooks: from the events so far to an outcome and
    the events after it. *)
Definition hook (A : Type) : Type :=
  list HookEvent -> outcome string A * list HookEvent.

Definition hret {A} (v : A) : hook A := fun tr => (Ok v, tr).
Definition hthrow {A} (e : string) : hook A := fun tr => (Throw e, tr).
Definition hbind {A B} (m : hook A) (k : A -> hook B) : hook B :=
  fun tr =>
    match m tr with
    | (Ok v, tr') => k v tr'
    | (Throw e, tr') => (Throw e, tr')
    end.
Definition hemit (ev : HookEvent) : hook unit := fun tr => (Ok tt, tr ++ [ev]).

#[global] Instance hook_ret : MRet hook := @hret.
#[global] Instance hook_bind : MBind hook := fun A B k m => hbind m k.

Definition undefined_read_message (prop : string) : string :=
  "Cannot read properties of undefined (reading '" +:+ prop +:+ "')".

(** [amount.toString()]: the read of the property throws on [undefined]
    and on [null]. *)
Definition amount_toString (amount : jsval) : hook string :=
  match amount with
  | JUndefined => hthrow (undefined_read_message "toString")
  | JNull => hthrow "Cannot read properties of null (reading 'toString')"
  | _ => mret (ToString amount)
  end.

Section Hooks.

(** [config] is what [getContractConfig()] returns;
    [ethereum] is [window.ethereum], [None] when the page has no wallet,
    and else how the wallet settles a request;
    [signer] is how [provider.getSigner()] settles;
    [chain c m args] is how the call of method [m] of contract [c]
    settles: the integer the contract returns, or the message of the
    error;
    [submit c m args] is how the transaction [m] of contract [c]
    settles: its hash together with how [tx.wait()] settles, or the
    message of the error. *)
Variable config : Config.ContractConfig.
Variable ethereum : option (WalletRequest -> outcome RpcError unit).
Variable signer : outcome string string.
Variable chain : Contract -> string -> list jsval -> outcome string Z.
Variable submit :
  Contract -> string -> list jsval -> outcome string (string * outcome string unit).

(** [getProvider()]: [None] is [null]. *)
Definition getProvider : hook (option unit) :=
  hemit EvProvider;;
  mret (match ethereum with Some _ => Some tt | None => None end).

(** [getSigner()]: [None] is [null]. *)
Definition getSigner : hook (option string) :=
  provider ← getProvider;
  match provider with
  | None => mret None
  | Some _ =>
      hemit EvSigner;;
      match signer with
      | Ok s => mret (Some s)
      | Throw e => hthrow e
      end
  end.

(** [getContract(contractName, withSigner)].  The two lookups are lookups
    of own properties: for a name that is [inherited] and that a table
    does not have as its own, JavaScript finds the inherited function and
    hands it to the constructor of [ethers.Contract]; the model covers the
    other names. *)
Definition getContract (contractName : string) (withSigner : bool)
    : hook Contract :=
  match Config.addresses config with
  | None => hthrow (undefined_read_message contractName)
  | Some addresses =>
      let address := addresses !! contractName in
      let abi := Config.abis config !! contractName in
      (* [!address]: a missing or empty string; [!abi]: a missing array *)
      let no_address :=
        match address with
        | None => true
        | Some a => negb (truthy (JStr a))
        end in
      let no_abi := match abi with None => true | Some _ => false end in
      if no_address || no_abi then
        hthrow ("Contract " +:+ contractName +:+ " not configured")
      else
        provider ← getProvider;
        match provider with
        | None => hthrow "No wallet provider found"
        | Some _ =>
            let address := default "" address in
            let abi := default [] abi in
            if withSigner then
              s ← getSigner;
              mret {| target := address; interface := abi;
                      runner := RunnerSigner s |}
            else
              mret {| target := address; interface := abi;
                      runner := RunnerProvider |}
        end
  end.

(** A read of a contract method, [contract.balanceOf(address)] or
    [contract.decimals()]. *)
Definition call (c : Contract) (method : string) (args : list jsval)
    : hook Z :=
  hemit (EvCall c method args);;
  match chain c method args with
  | Ok v => mret v
  | Throw e => hthrow e
  end.

(** A transaction followed by [tx.wait()]: the hash of the transaction
    once it is confirmed. *)
Definition send_and_wait (c : Contract) (method : string)
    (args : list jsval) : hook string :=
  hemit (EvSend c method args);;
  match submit c method args with
  | Throw e => hthrow e
  | Ok (hash, Throw e) => hthrow e
  | Ok (hash, Ok _) => mret hash
  end.

End Hooks.

(** *** [useWallet] *)

Module useWallet.

(** The state of the hook. *)
Record State : Type := {
  account : option string;
  chainId : option Z;
  isConnecting : bool;
  error : option string;
}.

Definition setError (e : option string) (st : State) : State :=
  {| account := account st; chainId := chainId st;
     isConnecting := isConnecting st; error := e |}.

Section Operations.

Variable ethereum : option (WalletRequest -> outcome RpcError unit).

(** [window.ethereum.request(r)]; without a wallet the property read
    throws before any request is sent. *)
Definition request (r : WalletRequest) (tr : list HookEvent)
    : outcome RpcError unit * list HookEvent :=
  match ethereum with
  | None => (Throw {| code := None; message := undefined_read_message "request" |}, tr)
  | Some wallet => (wallet r, tr ++ [EvRequest r])
  end.

(** [`0x${network.chainId.toString(16)}`] *)
Definition hex_chain_id (network : Config.Network) : string :=
  "0x" +:+ Num.toString16 (Config.chainId network).

(** The parameter of the add-network request for an entry of [NETWORKS]. *)
Definition add_chain_params (network : Config.Network) : AddChainParams :=
  {| add_chainId := hex_chain_id network;
     chainName := Config.name network;
     rpcUrls := [Config.rpcUrl network];
     nativeCurrency := Config.currency network;
     blockExplorerUrls :=
       if truthy (JStr (Config.explorer network))
       then [Config.explorer network] else [] |}.

(** [switchNetwork(networkId)]: the value returned, the state of the hook
    and the events after the call. *)
Definition switchNetwork (networkId : string) (st : State)
    (tr : list HookEvent) : bool * State * list HookEvent :=
  match Config.NETWORKS !! networkId with
  | None =>
      if inherited networkId then
        (* [NETWORKS[networkId]] is an inherited property: it is truthy and
           has no [chainId], so the [try] block throws on the read of
           [toString], after the read of [window.ethereum.request]; the
           error has no [code] *)
        let message :=
          match ethereum with
          | None => undefined_read_message "request"
          | Some _ => undefined_read_message "toString"
          end in
        (false, setError (Some message) st, tr)
      else (false, setError (Some "Unknown network") st, tr)
  | Some network =>
      match request (wallet_switchEthereumChain (hex_chain_id network)) tr with
      | (Ok _, tr) => (true, st, tr)
      | (Throw switchError, tr) =>
          (* Network not added, try to add it *)
          if bool_decide (code switchError = Some 4902) then
            match request (wallet_addEthereumChain (add_chain_params network)) tr with
            | (Ok _, tr) => (true, st, tr)
            | (Throw addError, tr) =>
                (false, setError (Some (message addError)) st, tr)
            end
          else
            (false, setError (Some (message switchError)) st, tr)
      end
  end.

End Operations.
End useWallet.

(** *** [useKAIToken] *)

Module useKAIToken.

(** The state of the hook. *)
Record State : Type := {
  loading : bool;
  error : option string;
}.

Definition setLoading (b : bool) (st : State) : State :=
  {| loading := b; error := error st |}.

Definition setError (e : option string) (st : State) : State :=
  {| loading := loading st; error := e |}.

Section Operations.

(** The environment of [getContract], [call] and [send_and_wait];
    [parse_error s] is the message of the error [ethers.parseUnits] throws
    on [s]. *)
Variable config : Config.ContractConfig.
Variable ethereum : option (WalletRequest -> outcome RpcError unit).
Variable signer : outcome string string.
Variable chain : Contract -> string -> list jsval -> outcome string Z.
Variable submit :
  Contract -> string -> list jsval -> outcome string (string * outcome string unit).
Variable parse_error : string -> string.

(** The [try] block of [getBalance]. *)
Definition getBalance_try (address : jsval) : hook string :=
  contract ← getContract config ethereum signer "KAIToken" false;
  balance ← call chain contract "balanceOf" [address];
  decimals ← call chain contract "decimals" [];
  mret (Units.formatUnits balance (Z.to_nat decimals)).

(** [getBalance(address)]: the string returned, the state of the hook and
    the events after the call. *)
Definition getBalance (address : jsval) (st : State)
    (tr : list HookEvent) : string * State * list HookEvent :=
  let st := setLoading true st in
  let st := setError None st in
  match getBalance_try address tr with
  | (Ok s, tr) => (s, setLoading false st, tr)
  | (Throw err, tr) =>
      let st := setError (Some err) st in
      ("0", setLoading false st, tr)
  end.

(** The [try] block of [transfer]. *)
Definition transfer_try (to amount : jsval) : hook string :=
  contract ← getContract config ethereum signer "KAIToken" true;
  decimals ← call chain contract "decimals" [];
  text ← amount_toString amount;
  match Units.parseUnits text (Z.to_nat decimals) with
  | None => hthrow (parse_error text)
  | Some amountWei =>
      send_and_wait submit contract "transfer" [to; JNum amountWei]
  end.

(** [transfer(to, amount)]: the hash returned, [None] for [null]. *)
Definition transfer (to amount : jsval) (st : State)
    (tr : list HookEvent) : option string * State * list HookEvent :=
  let st := setLoading true st in
  let st := setError None st in
  match transfer_try to amount tr with
  | (Ok hash, tr) => (Some hash, setLoading false st, tr)
  | (Throw err, tr) =>
      let st := setError (Some err) st in
      (None, setLoading false st, tr)
  end.

End Operations.
End useKAIToken.


(** ** Definitions used by the statements and proofs *)

(** The invariant of a run whose last clock reading is at most [lo]:
  the log is the admitted timestamps of the window that ends at [lo],
  no admitted timestamp is later than [lo], the log is within the
  ceiling, and so is every trailing window. *)
Definition limiter_inv (lo : Z) (st : limiter_state) : Prop :=
  let '(log, history) := st in
  log = List.filter (fun t => t >? lo - RATE_LIMIT_WINDOW) (admitted history)
  /\ Forall (fun t => t <= lo) (admitted history)
  /\ Z.of_nat (length log) <= MAX_REQUESTS_PER_WINDOW
  /\ forall T, Z.of_nat (length (in_window T (admitted history)))
               <= MAX_REQUESTS_PER_WINDOW.

(** A decision procedure for the hypothesis on the clock. *)
Fixpoint non_decreasing (ts : list Z) : bool :=
  match ts with
  | [] => true
  | t :: ts' =>
      match ts' with
      | [] => true
      | u :: _ => (t <=? u) && non_decreasing ts'
      end
  end.

(** A burst of a hundred calls at time 5, a call at 6, and two calls as the
    window slides past the burst. *)
Definition burst_times : list Z := repeat 5 100 ++ [6; 60004; 60005].

(** A run whose clock goes back: a hundred calls at time 0, a call at
    60000, then the clock reads 0 again for ninety-nine calls. *)
Definition backward_times : list Z := repeat 0 100 ++ [60000] ++ repeat 0 99.

(** Environments for the examples: a clock that advances by a second per
    reading, a network that is down, a network that comes up at its
    [f]-th call, and a world whose log holds a hundred fresh timestamps. *)
Definition sample_clock (k : nat) : Z := 1000 * (Z.of_nat k + 1).

Definition network_down (k : nat) (url : string) (init : RequestInit)
    : FetchResult :=
  NetworkError "Failed to fetch".

Definition network_flaky (f k : nat) (url : string) (init : RequestInit)
    : FetchResult :=
  if (k <? f)%nat then NetworkError "Failed to fetch"
  else Response true 200 (Ok JNull).

Definition full_world : World :=
  {| requestLog := repeat 5 100; ticks := 0; calls := 0; trace := [] |}.

(** The data of the alert scenario of the specification, and the body the
    specification expects for it. *)
Definition scenario_alert : api.AlertData :=
  {| api.disasterType := JStr "<script>flood</script>";
     api.region := JStr "  Lagos  ";
     api.riskScore := JNum 150 |}.

Definition expected_alert_body : jsobj :=
  [ ("disasterType", JStr "flood"); ("region", JStr "Lagos");
    ("riskScore", JNum 100) ].

(** A configuration with an address for the token and an interface that is
    present and empty; a wallet that knows no network and refuses to add
    one; a wallet that accepts every request. *)
Definition empty_abi_config : Config.ContractConfig :=
  {| Config.network := Config.NETWORKS !! Config.DEFAULT_NETWORK;
     Config.addresses :=
       Some {[ "KAIToken" := "0x52908400098527886e0f7030069857d2e4169ee7" ]};
     Config.abis := {[ "KAIToken" := [] ]} |}.

Definition deployed_config : Config.ContractConfig :=
  {| Config.network := Config.NETWORKS !! Config.DEFAULT_NETWORK;
     Config.addresses :=
       Some {[ "KAIToken" := "0x52908400098527886e0f7030069857d2e4169ee7" ]};
     Config.abis := Config.ABIS |}.

Definition wallet_refusing (r : WalletRequest) : outcome RpcError unit :=
  match r with
  | wallet_switchEthereumChain _ =>
      Throw {| code := Some 4902; message := "Unrecognized chain ID" |}
  | wallet_addEthereumChain _ =>
      Throw {| code := Some 4001; message := "User rejected the request." |}
  | _ => Ok tt
  end.

Definition wallet_accepting (r : WalletRequest) : outcome RpcError unit := Ok tt.

(** A chain on which every balance is zero and the token has [d] decimals,
    and a chain whose node is unreachable. *)
Definition chain_zero (d : Z) (c : Contract) (method : string)
    (args : list jsval) : outcome string Z :=
  if String.eqb method "decimals" then Ok d else Ok 0.

Definition chain_unreachable (c : Contract) (method : string)
    (args : list jsval) : outcome string Z :=
  Throw "could not detect network".

Definition idle_token : useKAIToken.State :=
  {| useKAIToken.loading := false; useKAIToken.error := None |}.

Definition connected_wallet : useWallet.State :=
  {| useWallet.account := Some "0x52908400098527886e0f7030069857d2e4169ee7";
     useWallet.chainId := Some 137;
     useWallet.isConnecting := false;
     useWallet.error := None |}.

(** ** The rest of the [api] object *)

Module api_rest.
Section Operations.

(** [clock] and [network] as for [secureFetch]; [queryString params] is
    [new URLSearchParams(params).toString()], a function of the browser. *)
Variable clock : nat -> Z.
Variable network : nat -> string -> RequestInit -> FetchResult.
Variable queryString : list (string * jsval) -> string.

Definition getTokenInfo (w : World) :=
  secureFetch clock network (API_BASE +:+ "/token/info") no_options
    default_retries w.

Definition getContracts (w : World) :=
  secureFetch clock network (API_BASE +:+ "/contracts") no_options
    default_retries w.

Definition getStats (w : World) :=
  secureFetch clock network (API_BASE +:+ "/stats") no_options
    default_retries w.

(** [getAlerts(params = {})] *)
Definition getAlerts (params : list (string * jsval)) (w : World) :=
  let query := queryString params in
  secureFetch clock network (API_BASE +:+ "/disaster/alerts?" +:+ query)
    no_options default_retries w.

(** The fields of the argument of [registerUser] that it reads. *)
Record UserData : Type := {
  walletAddress : jsval;
  region : jsval;
  countryCode : jsval;
  userType : jsval;
}.

(** The object [registerUser] hands to [JSON.stringify]. *)
Definition registration (data : UserData) : jsobj :=
  [ ("walletAddress", sanitizeInput (walletAddress data));
    ("region", sanitizeInput (region data));
    ("countryCode", sanitizeInput (countryCode data));
    ("userType", sanitizeInput (userType data)) ].

Definition registerUser (data : UserData) (w : World) :=
  secureFetch clock network (API_BASE +:+ "/users/register")
    {| method := Some "POST"; body := Some (registration data); headers := [] |}
    default_retries w.

End Operations.
End api_rest.

(** ** Explorer links ([contracts/config.js]) *)

Module Explorer.

(** [NETWORKS[networkId]?.explorer]: [None] is [undefined]. *)
Definition explorer_of (networkId : string) : option string :=
  Config.explorer <$> Config.NETWORKS !! networkId.

(** [getExplorerUrl(address, networkId)] *)
Definition getExplorerUrl (address : jsval) (networkId : string) : string :=
  match explorer_of networkId with
  | None => ""
  | Some explorer =>
      if negb (truthy (JStr explorer)) then ""
      else explorer +:+ "/address/" +:+ ToString address
  end.

(** [getTxExplorerUrl(txHash, networkId)] *)
Definition getTxExplorerUrl (txHash : jsval) (networkId : string) : string :=
  match explorer_of networkId with
  | None => ""
  | Some explorer =>
      if negb (truthy (JStr explorer)) then ""
      else explorer +:+ "/tx/" +:+ ToString txHash
  end.

End Explorer.

(** ** [parseInt] with a radix *)

(** [parseInt(v, radix)] for an integer [radix]: zero stands for no radix;
    a radix outside 2..36 gives [NaN]; the prefix [0x] is skipped for the
    radix 16 and for no radix, where it selects base 16.  The result is
    the integer the digits denote, which is what JavaScript returns up to
    [2^53]. *)
Definition parseInt_radix (v : jsval) (radix : Z) : option Z :=
  let s := Str.drop_while Str.is_space (Str.chars (ToString v)) in
  let '(sign, s) :=
    match s with
    | c :: s' =>
        if Ascii.eqb c "-"%char then (-1, s')
        else if Ascii.eqb c "+"%char then (1, s')
        else (1, s)
    | [] => (1, s)
    end in
  let stripPrefix := (radix =? 0) || (radix =? 16) in
  if negb (radix =? 0) && ((radix <? 2) || (36 <? radix)) then None
  else
    let R := if radix =? 0 then 10 else radix in
    let '(R, s) :=
      if stripPrefix && Str.prefix_ci (Str.chars "0x") s then (16, skipn 2 s)
      else (R, s) in
    match Str.take_while (Num.is_digit_of R) s with
    | [] => None
    | ds => Some (sign * Num.radix_val R ds)
    end.

(** [a === b] on the values of the model. *)
Definition strict_eq (a b : jsval) : bool :=
  match a, b with
  | JUndefined, JUndefined => true
  | JNull, JNull => true
  | JBool x, JBool y => Bool.eqb x y
  | JNum x, JNum y => x =? y
  | JStr x, JStr y => String.eqb x y
  | _, _ => false
  end.

(** ** Notifications ([AppProvider]) *)

Module NOTIFICATION_TYPES.
Definition SUCCESS : string := "success".
Definition ERROR : string := "error".
Definition WARNING : string := "warning".
Definition INFO : string := "info".
Definition ALERT : string := "alert".
End NOTIFICATION_TYPES.

Module AppProvider.

(** A notification: [{ message, type }]. *)
Definition Notification : Type := (string * string)%type.

(** [addNotification(message, type)], as the update of the list. *)
Definition addNotification (message type : string)
    (prev : list Notification) : list Notification :=
  prev ++ [(message, type)].

(** [prev.filter((_, i) => i !== index)]: the positions are counted from
    [i]. *)
Fixpoint filter_index (index : jsval) (i : nat) (prev : list Notification)
    : list Notification :=
  match prev with
  | [] => []
  | n :: rest =>
      if negb (strict_eq (JNum (Z.of_nat i)) index)
      then n :: filter_index index (S i) rest
      else filter_index index (S i) rest
  end.

(** [removeNotification(index)], as the update of the list. *)
Definition removeNotification (index : jsval) (prev : list Notification)
    : list Notification :=
  filter_index index 0 prev.

End AppProvider.

(** ** Predicates of the statements *)

(** A string without angle brackets. *)
Definition angle_free (t : string) : Prop :=
  Forall (fun c => c <> "<"%char /\ c <> ">"%char) (Str.chars t).

(** What the sanitizer guarantees of a value: nothing of a value that is
    no string; of a string, at most 1000 code units and no angle bracket. *)
Definition sanitized_value (v : jsval) : Prop :=
  match v with
  | JStr t => (length (Str.chars t) <= 1000)%nat /\ angle_free t
  | _ => True
  end.

(** A string whose first and last code units are no white space. *)
Definition trimmed (s : string) : Prop :=
  (forall c rest, Str.chars s = c :: rest -> Str.is_space c = false)
  /\ (forall c front, Str.chars s = front ++ [c] -> Str.is_space c = false).

(** A string with none of the characters the patterns of the sanitizer
    need: the angle brackets, the colon of [javascript:] and the equals
    sign of an event handler. *)
Definition plain_text (s : string) : Prop :=
  Forall (fun c => c <> "<"%char /\ c <> ">"%char /\ c <> ":"%char
                   /\ c <> "="%char) (Str.chars s).

(** The time a trace spends waiting before retries, in milliseconds. *)
Definition total_delay (tr : list Event) : Z :=
  fold_right Z.add 0 (delays tr).

(** ** The listeners of [useWallet] *)

Module WalletListeners.

(** [handleChainChanged(newChainId)]: the value given to [setChainId],
    [None] for [NaN]. *)
Definition handleChainChanged (newChainId : jsval) : option Z :=
  parseInt_radix newChainId 16.

End WalletListeners.

(** ** The transactions of the hooks *)

(** The transactions of a trace, oldest first. *)
Definition sends (tr : list HookEvent)
    : list (Contract * string * list jsval) :=
  omap (fun ev => match ev with
                  | EvSend c m args => Some (c, m, args)
                  | _ => None
                  end) tr.

(** The frame every operation of the hooks has around its [try] block:
    [setLoading(true)] and [setError(null)] before it, the [catch] that
    stores the message of the error and returns [null], the [finally] that
    clears the loading flag.  The result is the value returned ([None] for
    [null]), the state of the hook and the events after the call. *)
Definition framed {A} (block : hook A) (st : useKAIToken.State)
    (tr : list HookEvent) : option A * useKAIToken.State * list HookEvent :=
  let st := useKAIToken.setLoading true st in
  let st := useKAIToken.setError None st in
  match block tr with
  | (Ok v, tr) => (Some v, useKAIToken.setLoading false st, tr)
  | (Throw err, tr) =>
      let st := useKAIToken.setError (Some err) st in
      (None, useKAIToken.setLoading false st, tr)
  end.

(** *** [useKAIToken]: [approve] and [burn] *)

Module useKAIToken_writes.
Section Operations.

Variable config : Config.ContractConfig.
Variable ethereum : option (WalletRequest -> outcome RpcError unit).
Variable signer : outcome string string.
Variable chain : Contract -> string -> list jsval -> outcome string Z.
Variable submit :
  Contract -> string -> list jsval -> outcome string (string * outcome string unit).
Variable parse_error : string -> string.

(** [ethers.parseUnits(amount.toString(), decimals)] *)
Definition parseAmount (amount : jsval) (decimals : Z) : hook Z :=
  s ← amount_toString amount;
  match Units.parseUnits s (Z.to_nat decimals) with
  | None => hthrow (parse_error s)
  | Some amountWei => mret amountWei
  end.

(** The [try] block of [approve]. *)
Definition approve_try (spender amount : jsval) : hook string :=
  contract ← getContract config ethereum signer "KAIToken" true;
  decimals ← call chain contract "decimals" [];
  amountWei ← parseAmount amount decimals;
  send_and_wait submit contract "approve" [spender; JNum amountWei].

(** [approve(spender, amount)] *)
Definition approve (spender amount : jsval) :=
  framed (approve_try spender amount).

(** The [try] block of [burn]. *)
Definition burn_try (amount pillarId reason : jsval) : hook string :=
  contract ← getContract config ethereum signer "KAIToken" true;
  decimals ← call chain contract "decimals" [];
  amountWei ← parseAmount amount decimals;
  send_and_wait submit contract "directBurn" [JNum amountWei; pillarId; reason].

(** [burn(amount, pillarId, reason)] *)
Definition burn (amount pillarId reason : jsval) :=
  framed (burn_try amount pillarId reason).

End Operations.
End useKAIToken_writes.

(** *** [useStaking]: [stake], [unstake] and [claimRewards] *)

(** The hook has the two slots of [useKAIToken], [loading] and [error]. *)
Module useStaking.
Section Operations.

Variable config : Config.ContractConfig.
Variable ethereum : option (WalletRequest -> outcome RpcError unit).
Variable signer : outcome string string.
Variable chain : Contract -> string -> list jsval -> outcome string Z.
Variable submit :
  Contract -> string -> list jsval -> outcome string (string * outcome string unit).
Variable parse_error : string -> string.

(** The [try] block of [stake]: the staking contract on the signer, the
    decimals read from the token contract on the provider. *)
Definition stake_try (amount : jsval) : hook string :=
  contract ← getContract config ethereum signer "ClimateAlertStaking" true;
  token ← getContract config ethereum signer "KAIToken" false;
  decimals ← call chain token "decimals" [];
  amountWei ← useKAIToken_writes.parseAmount parse_error amount decimals;
  send_and_wait submit contract "stake" [JNum amountWei].

(** [stake(amount)] *)
Definition stake (amount : jsval) := framed (stake_try amount).

(** The [try] block of [unstake]. *)
Definition unstake_try : hook string :=
  contract ← getContract config ethereum signer "ClimateAlertStaking" true;
  send_and_wait submit contract "unstake" [].

(** [unstake()] *)
Definition unstake := framed unstake_try.

(** The [try] block of [claimRewards]. *)
Definition claimRewards_try : hook string :=
  contract ← getContract config ethereum signer "ClimateAlertStaking" true;
  send_and_wait submit contract "claimRewards" [].

(** [claimRewards()] *)
Definition claimRewards := framed claimRewards_try.

End Operations.
End useStaking.

(** A contract built from the tables of the configuration: the address of
    the name, which is not empty, and its interface. *)
Definition configured (config : Config.ContractConfig) (contractName : string)
    (c : Contract) : Prop :=
  exists addresses,
    Config.addresses config = Some addresses
    /\ addresses !! contractName = Some (target c)
    /\ target c <> ""
    /\ Config.abis config !! contractName = Some (interface c).

(** What a call of an operation that submits an amount may have done, seen
    from outside: [result] is what it returned, [new] the events it added.
    Either it sent no transaction and returned [null]; or it sent exactly
    one, the method [method] of a contract [c] of the configuration under
    the name [contractName], connected to the signer of the wallet, with
    the arguments [args n] where [n] is the amount [text] at the decimals
    the contract [token] reports, and it returned the hash exactly when
    the transaction was submitted and confirmed. *)
Definition one_transaction
    (config : Config.ContractConfig) (signer : outcome string string)
    (chain : Contract -> string -> list jsval -> outcome string Z)
    (submit : Contract -> string -> list jsval
              -> outcome string (string * outcome string unit))
    (contractName method : string) (args : Z -> list jsval) (text : string)
    (token : Contract -> Contract -> Prop)
    (result : option string) (new : list HookEvent) : Prop :=
  (sends new = [] /\ result = None)
  \/ (exists c t d n,
        sends new = [(c, method, args n)]
        /\ configured config contractName c
        /\ (exists s, signer = Ok s /\ runner c = RunnerSigner (Some s))
        /\ token c t
        /\ chain t "decimals" [] = Ok d
        /\ Units.parseUnits text (Z.to_nat d) = Some n
        /\ (forall hash,
              result = Some hash
              <-> submit c method (args n) = Ok (hash, Ok tt))).

(** ** [useWallet]: [connect] *)

Module useWallet_connect.

(** The slots of the hook that [connect] writes; [account] holds what
    [setAccount] was given, [null] at the start. *)
Record State : Type := {
  account : jsval;
  isConnecting : bool;
  error : option string;
}.

(** [isConnected: !!account] *)
Definition isConnected (st : State) : bool := truthy (account st).

Section Operations.

(** [ethereum] is [window.ethereum]: how the wallet settles the request
    for the accounts, with the array it resolves to. *)
Variable ethereum : option (WalletRequest -> outcome RpcError (list jsval)).

(** [accounts[0]] *)
Definition first_account (accounts : list jsval) : jsval :=
  match accounts with a :: _ => a | [] => JUndefined end.

(** [connect()]: the value returned, the state of the hook and the events
    after the call. *)
Definition connect (st : State) (tr : list HookEvent)
    : bool * State * list HookEvent :=
  match ethereum with
  | None =>
      (false,
       {| account := account st; isConnecting := isConnecting st;
          error := Some "Please install MetaMask" |},
       tr)
  | Some wallet =>
      let st := {| account := account st; isConnecting := true;
                   error := error st |} in
      let st := {| account := account st; isConnecting := isConnecting st;
                   error := None |} in
      let tr := tr ++ [EvRequest eth_requestAccounts] in
      match wallet eth_requestAccounts with
      | Ok accounts =>
          let st := {| account := first_account accounts;
                       isConnecting := isConnecting st; error := error st |} in
          (true,
           {| account := account st; isConnecting := false; error := error st |},
           tr)
      | Throw err =>
          let st := {| account := account st; isConnecting := isConnecting st;
                       error := Some (message err) |} in
          (false,
           {| account := account st; isConnecting := false; error := error st |},
           tr)
      end
  end.

(** [disconnect()] *)
Definition disconnect (st : State) : State :=
  {| account := JNull; isConnecting := isConnecting st; error := error st |}.

End Operations.
End useWallet_connect.

(** ** The alert form ([Alerts]) *)

Module Alerts.

(** The form: [newAlert].  The risk score is the integer the slider
    gives. *)
Record NewAlert : Type := {
  disasterType : string;
  region : string;
  riskScore : Z;
}.

(** What [handleSubmit] does to the page, oldest first: the call of
    [e.preventDefault()], a notification, the writes of the state slots
    ([ResetNewAlert] is [setNewAlert] with the initial form) and the alert
    sound. *)
Inductive PageEvent : Type :=
  | PreventDefault
  | Notify (message type : string)
  | SetSubmitting (b : bool)
  | SetAlerts (updated : jsval)
  | ResetNewAlert
  | PlayAlertSound.

(** The notifications of a run of events, in order. *)
Definition notifications (evs : list PageEvent) : list AppProvider.Notification :=
  omap (fun ev => match ev with
                  | Notify m t => Some (m, t)
                  | _ => None
                  end) evs.

Section Operations.

Variable clock : nat -> Z.
Variable network : nat -> string -> RequestInit -> FetchResult.
Variable queryString : list (string * jsval) -> string.

(** The argument [handleSubmit] gives to [api.createAlert]. *)
Definition alert_data (newAlert : NewAlert) : api.AlertData :=
  {| api.disasterType := JStr (disasterType newAlert);
     api.region := JStr (region newAlert);
     api.riskScore := JNum (riskScore newAlert) |}.

(** [handleSubmit(e)]: the events on the page and the world of the client
    after the call. *)
Definition handleSubmit (newAlert : NewAlert) (w : World)
    : list PageEvent * World :=
  if negb (truthy (JStr (Str.trim (region newAlert)))) then
    ([PreventDefault;
      Notify "Region is required" NOTIFICATION_TYPES.WARNING], w)
  else
    let failed :=
      [Notify "Failed to create alert" NOTIFICATION_TYPES.ERROR;
       SetSubmitting false] in
    match api.createAlert clock network (alert_data newAlert) w with
    | (Throw err, w) => ([PreventDefault; SetSubmitting true] ++ failed, w)
    | (Ok _, w) =>
        let created :=
          [PreventDefault; SetSubmitting true;
           Notify "Alert created successfully!" NOTIFICATION_TYPES.SUCCESS]
          (* Play alert sound for high risk *)
          ++ (if riskScore newAlert >=? 70 then [PlayAlertSound] else []) in
        match api_rest.getAlerts clock network queryString [] w with
        | (Throw err, w) => (created ++ failed, w)
        | (Ok updated, w) =>
            (created ++ [SetAlerts updated; ResetNewAlert; SetSubmitting false], w)
        end
    end.

End Operations.
End Alerts.

(** ** The wallet page ([Wallet]) *)

Module Wallet.

(** What the handlers of the page do, oldest first: a notification, the
    writes of the state slots, and the request to the wallet. *)
Inductive PageEvent : Type :=
  | Notify (message type : string)
  | SetLoading (b : bool)
  | SetAddress (v : jsval)
  | SetConnected (b : bool)
  | SetBalance (bal : jsval)
  | Request (r : WalletRequest).

Section Operations.

Variable clock : nat -> Z.
Variable network : nat -> string -> RequestInit -> FetchResult.
Variable isAddress : jsval -> bool.
Variable ethereum : option (WalletRequest -> outcome RpcError (list jsval)).

(** [connectWallet()] *)
Definition connectWallet (w : World) : list PageEvent * World :=
  match ethereum with
  | None =>
      ([Notify "Please install MetaMask" NOTIFICATION_TYPES.WARNING], w)
  | Some wallet =>
      let failed :=
        [Notify "Failed to connect wallet" NOTIFICATION_TYPES.ERROR;
         SetLoading false] in
      match wallet eth_requestAccounts with
      | Throw err => ([SetLoading true; Request eth_requestAccounts] ++ failed, w)
      | Ok accounts =>
          let first := useWallet_connect.first_account accounts in
          let granted :=
            [SetLoading true; Request eth_requestAccounts;
             SetAddress first; SetConnected true] in
          match api.getBalance clock network isAddress first w with
          | (Throw err, w) => (granted ++ failed, w)
          | (Ok bal, w) =>
              (granted
               ++ [SetBalance bal;
                   Notify "Wallet connected!" NOTIFICATION_TYPES.SUCCESS;
                   SetLoading false], w)
          end
      end
  end.

(** [checkBalance()], with the [address] slot of the page. *)
Definition checkBalance (address : jsval) (w : World)
    : list PageEvent * World :=
  if negb (truthy address) then
    ([Notify "Enter an address" NOTIFICATION_TYPES.WARNING], w)
  else
    match api.getBalance clock network isAddress address w with
    | (Ok bal, w) => ([SetLoading true; SetBalance bal; SetLoading false], w)
    | (Throw err, w) =>
        ([SetLoading true;
          Notify "Invalid address or balance check failed"
            NOTIFICATION_TYPES.ERROR;
          SetLoading false], w)
    end.

End Operations.
End Wallet.

(** A string made of white space and angle brackets, with at least one
    angle bracket. *)
Definition only_brackets (s : string) : Prop :=
  Forall (fun c => Str.is_space c = true \/ c = "<"%char \/ c = ">"%char)
    (Str.chars s)
  /\ Exists (fun c => c = "<"%char \/ c = ">"%char) (Str.chars s).

(** What an operation of the [api] object may add to the trace: [new] is
    what it added between the worlds [w] and [w'].  It calls [fetch] at
    most four times, each time on a URL under [API_BASE] with the JSON
    content type; a read sends neither method nor body, a write is a
    [POST] with a body. *)
Definition api_requests (read : bool) (w w' : World) : Prop :=
  exists new,
    trace w' = trace w ++ new
    /\ (fetches new <= 4)%nat
    /\ forall url init, In (EvFetch url init) new ->
         Str.prefix (Str.chars API_BASE) (Str.chars url) = true
         /\ headers init = [("Content-Type", "application/json")]
         /\ (if read then method init = None /\ body init = None
             else method init = Some "POST" /\ is_Some (body init)).

(** A wallet whose user rejects every request. *)
Definition wallet_rejecting (r : WalletRequest) : outcome RpcError unit :=
  Throw {| code := Some 4001; message := "User rejected the request." |}.

(** What a call of an operation that submits a transaction without
    arguments may have done: it read no contract; either it sent no
    transaction and returned [null], or it sent exactly one, the method
    [method] of a contract of the configuration under the name
    [contractName], connected to the signer of the wallet, and it returned
    the hash exactly when the transaction was submitted and confirmed. *)
Definition plain_transaction
    (config : Config.ContractConfig) (signer : outcome string string)
    (submit : Contract -> string -> list jsval
              -> outcome string (string * outcome string unit))
    (contractName method : string)
    (result : option string) (new : list HookEvent) : Prop :=
  (forall c m args, ~ In (EvCall c m args) new)
  /\ ((sends new = [] /\ result = None)
      \/ (exists c,
            sends new = [(c, method, [])]
            /\ configured config contractName c
            /\ (exists s, signer = Ok s /\ runner c = RunnerSigner (Some s))
            /\ (forall hash,
                  result = Some hash
                  <-> submit c method [] = Ok (hash, Ok tt)))).

(** A value that a template literal prints as [ToString] does: any value
    but a number that JavaScript prints with an exponent. *)
Definition prints_plainly (v : jsval) : Prop :=
  match v with
  | JNum n => - 10 ^ 21 < n < 10 ^ 21
  | _ => True
  end.

(** * Properties *)

(** ** Examples: the definitions on concrete inputs *)

Example sanitize_script : sanitizeInput (JStr "<script>flood</script>") = JStr "scriptflood/script".
Proof. vm_compute. reflexivity. Qed.
Example sanitize_region : sanitizeInput (JStr "  Lagos  ") = JStr "Lagos".
Proof. vm_compute. reflexivity. Qed.
Example sanitize_handler :
  sanitizeInput (JStr "<img ONerror=alert(1) src=JavaScript:x> ") = JStr "img alert(1) src=x".
Proof. vm_compute. reflexivity. Qed.
Example toString_150 : Num.toString 150 = "150".
Proof. reflexivity. Qed.
Example toString_neg : Num.toString (-7) = "-7".
Proof. reflexivity. Qed.
Example toString16_amoy : Num.toString16 80002 = "13882".
Proof. reflexivity. Qed.
Example toString16_hardhat : Num.toString16 31337 = "7a69".
Proof. reflexivity. Qed.
Example parseInt_150 : parseInt (JNum 150) = Some 150.
Proof. reflexivity. Qed.
Example parseInt_str : parseInt (JStr "  42px") = Some 42.
Proof. reflexivity. Qed.
Example parseInt_nan : parseInt (JStr "high") = None.
Proof. reflexivity. Qed.
Example parseInt_hex : parseInt (JStr "0x1F") = Some 31.
Proof. reflexivity. Qed.
Example parseInt_undefined : parseInt JUndefined = None.
Proof. reflexivity. Qed.
Example run_three :
  run_checks [0; 10; 70000] = ([70000], [(0, true); (10, true); (70000, true)]).
Proof. reflexivity. Qed.
Example run_full_window :
  let st := run_checks (repeat 5 100 ++ [6; 60004; 60005]) in
  map snd (skipn 99 (snd st)) = [true; false; false; true]
  /\ length (fst st) = 1%nat.
Proof. vm_compute. split; reflexivity. Qed.
Example parse_123_456 : Units.parseUnits "123.456" 18 = Some 123456000000000000000.
Proof. vm_compute. reflexivity. Qed.
Example format_123_456 : Units.formatUnits 123456000000000000000 18 = "123.456".
Proof. vm_compute. reflexivity. Qed.
Example format_zero : Units.formatUnits 0 18 = "0.0".
Proof. vm_compute. reflexivity. Qed.
Example format_zero0 : Units.formatUnits 0 0 = "0".
Proof. vm_compute. reflexivity. Qed.
Example format_neg : Units.formatUnits (-1500) 3 = "-1.5".
Proof. vm_compute. reflexivity. Qed.
Example parse_neg : Units.parseUnits "-1.5" 3 = Some (-1500).
Proof. vm_compute. reflexivity. Qed.
Example parse_too_fine : Units.parseUnits "1.2345" 3 = None.
Proof. vm_compute. reflexivity. Qed.
Example parse_dot : Units.parseUnits "." 3 = None.
Proof. vm_compute. reflexivity. Qed.
Example parse_junk : Units.parseUnits "1e-7" 18 = None.
Proof. vm_compute. reflexivity. Qed.
Example canonical_ex : Units.canonical (Str.chars "123.456") 18 = true
  /\ Units.canonical (Str.chars "123.4560") 18 = false
  /\ Units.canonical (Str.chars "0.0") 18 = true
  /\ Units.canonical (Str.chars "-0.0") 18 = false
  /\ Units.canonical (Str.chars "12") 0 = true
  /\ Units.canonical (Str.chars "12.") 0 = false
  /\ Units.canonical (Str.chars "012.5") 2 = false.
Proof. vm_compute. repeat split; reflexivity. Qed.
Example secureFetch_down :
  fst (secureFetch sample_clock network_down "/health" no_options 3 initial_world)
  = Throw "Failed to fetch"
  /\ trace (snd (secureFetch sample_clock network_down "/health" no_options 3
                   initial_world))
     = let call := EvFetch "/health"
                     {| method := None; body := None;
                        headers := [("Content-Type", "application/json")] |} in
       [call; EvDelay 1000; call; EvDelay 2000; call; EvDelay 3000; call].
Proof. vm_compute. split; reflexivity. Qed.
Example secureFetch_http_error :
  fst (secureFetch sample_clock (fun _ _ _ => Response false 503 (Ok JNull))
         "/health" no_options 0 initial_world)
  = Throw "HTTP 503".
Proof. vm_compute. reflexivity. Qed.
Example secureFetch_timeout :
  trace (snd (secureFetch sample_clock
                (fun _ _ _ => NoAnswer "The operation was aborted.")
                "/health" no_options 0 initial_world))
  = [ EvFetch "/health"
        {| method := None; body := None;
           headers := [("Content-Type", "application/json")] |};
      EvAbort ].
Proof. vm_compute. reflexivity. Qed.
Example secureFetch_message_with_rate_limit :
  delays (trace (snd (secureFetch sample_clock
                        (fun _ _ _ => NetworkError "Rate limit of the proxy reached")
                        "/health" no_options 3 initial_world))) = [].
Proof. vm_compute. reflexivity. Qed.
Example clampRisk_ex :
  api.clampRisk (JNum 150) = 100 /\ api.clampRisk (JNum (-5)) = 0
  /\ api.clampRisk (JStr "42") = 42 /\ api.clampRisk JUndefined = 0.
Proof. vm_compute. repeat split; reflexivity. Qed.
Example headers_merged :
  headers (fetch_init {| method := None; body := None;
                         headers := [("Accept", "text/plain");
                                     ("Content-Type", "text/plain")] |})
  = [("Content-Type", "text/plain"); ("Accept", "text/plain")].
Proof. vm_compute. reflexivity. Qed.
Example switchNetwork_unknown :
  useWallet.switchNetwork (Some wallet_accepting) "mainnet" connected_wallet []
  = (false, useWallet.setError (Some "Unknown network") connected_wallet, []).
Proof. vm_compute. reflexivity. Qed.
Example switchNetwork_inherited :
  useWallet.switchNetwork (Some wallet_accepting) "toString" connected_wallet []
  = (false,
     useWallet.setError
       (Some "Cannot read properties of undefined (reading 'toString')")
       connected_wallet,
     []).
Proof. vm_compute. reflexivity. Qed.
Example switchNetwork_hardhat_params :
  useWallet.add_chain_params
    {| Config.chainId := 31337; Config.name := "Hardhat Local";
       Config.rpcUrl := "http://127.0.0.1:8545"; Config.explorer := "";
       Config.currency := {| Config.cur_name := "ETH"; Config.cur_symbol := "ETH";
                             Config.cur_decimals := 18 |} |}
  = {| add_chainId := "0x7a69"; chainName := "Hardhat Local";
       rpcUrls := ["http://127.0.0.1:8545"];
       nativeCurrency := {| Config.cur_name := "ETH"; Config.cur_symbol := "ETH";
                            Config.cur_decimals := 18 |};
       blockExplorerUrls := [] |}.
Proof. vm_compute. reflexivity. Qed.

(** ** Rate limiter *)

Section LimiterFacts.

Implicit Types (now lo T : Z) (log ts : list Z) (history : list (Z * bool)).

Lemma recentRequests_length now log :
  (length (recentRequests now log) <= length log)%nat.
Proof. unfold recentRequests. apply List.filter_length_le. Qed.

Lemma recentRequests_In now log t :
  In t (recentRequests now log) <-> In t log /\ now - RATE_LIMIT_WINDOW < t.
Proof.
  unfold recentRequests. rewrite List.filter_In.
  rewrite Z.gtb_ltb, Z.ltb_lt. reflexivity.
Qed.

(** The two branches of the check. *)
Lemma checkRateLimit_rejects now log :
  MAX_REQUESTS_PER_WINDOW <= Z.of_nat (length (recentRequests now log)) ->
  checkRateLimit now log = (Throw rate_limit_message, recentRequests now log).
Proof.
  intros H. unfold checkRateLimit.
  destruct (Z.geb_spec (Z.of_nat (length (recentRequests now log)))
              MAX_REQUESTS_PER_WINDOW); [reflexivity | lia].
Qed.

Lemma checkRateLimit_admits now log :
  Z.of_nat (length (recentRequests now log)) < MAX_REQUESTS_PER_WINDOW ->
  checkRateLimit now log = (Ok tt, recentRequests now log ++ [now]).
Proof.
  intros H. unfold checkRateLimit.
  destruct (Z.geb_spec (Z.of_nat (length (recentRequests now log)))
              MAX_REQUESTS_PER_WINDOW); [lia | reflexivity].
Qed.

Lemma admitted_snoc history now b :
  admitted (history ++ [(now, b)]) =
  admitted history ++ (if b then [now] else []).
Proof.
  unfold admitted. rewrite List.filter_app, map_app. simpl.
  destruct b; reflexivity.
Qed.

(** Pruning twice with a clock that did not go back is pruning once. *)
Lemma recent_of_filtered lo now ts :
  lo <= now ->
  recentRequests now (List.filter (fun t => t >? lo - RATE_LIMIT_WINDOW) ts)
  = recentRequests now ts.
Proof.
  intros Hle. unfold recentRequests.
  induction ts as [|t ts IH]; simpl; [reflexivity|].
  destruct (Z.gtb_spec t (lo - RATE_LIMIT_WINDOW)) as [H1|H1]; simpl;
    destruct (Z.gtb_spec t (now - RATE_LIMIT_WINDOW)) as [H2|H2];
    rewrite IH; try reflexivity; lia.
Qed.

Lemma filter_length_mono {A} (p q : A -> bool) (l : list A) :
  (forall x, In x l -> p x = true -> q x = true) ->
  (length (List.filter p l) <= length (List.filter q l))%nat.
Proof.
  induction l as [|x l IH]; simpl; intros H; [lia|].
  assert (IH' := IH (fun y Hy => H y (or_intror Hy))).
  destruct (p x) eqn:Hp.
  - rewrite (H x (or_introl eq_refl) Hp). simpl. lia.
  - destruct (q x); simpl; lia.
Qed.


Lemma limiter_inv_init lo : limiter_inv lo ([], []).
Proof.
  unfold limiter_inv, MAX_REQUESTS_PER_WINDOW. simpl.
  repeat split; try constructor; intros; lia.
Qed.

Lemma limiter_inv_step lo now st :
  lo <= now -> limiter_inv lo st -> limiter_inv now (check_step st now).
Proof.
  intros Hle. destruct st as [log history]. simpl.
  intros (Hlog & Hmax & Hlen & Hwin).
  assert (Hrecent : recentRequests now log = recentRequests now (admitted history))
    by (rewrite Hlog; apply recent_of_filtered; exact Hle).
  assert (Hmax' : Forall (fun t => t <= now) (admitted history)).
  { eapply Forall_impl; [exact Hmax|]. simpl. intros; lia. }
  destruct (Z_lt_le_dec (Z.of_nat (length (recentRequests now log)))
              MAX_REQUESTS_PER_WINDOW) as [Hroom|Hfull].
  - (* admitted *)
    rewrite (checkRateLimit_admits _ _ Hroom). simpl.
    rewrite admitted_snoc.
    assert (Hnew : List.filter (fun t => t >? now - RATE_LIMIT_WINDOW)
                     (admitted history ++ [now])
                   = recentRequests now log ++ [now]).
    { rewrite List.filter_app, Hrecent. simpl.
      destruct (Z.gtb_spec now (now - RATE_LIMIT_WINDOW)) as [_|H];
        [reflexivity | unfold RATE_LIMIT_WINDOW in H; lia]. }
    split; [symmetry; exact Hnew|].
    split; [apply Forall_app; split; [exact Hmax' | repeat constructor; lia]|].
    split; [rewrite length_app; simpl; lia|].
    intros T. destruct (Z_lt_le_dec T now) as [Hbefore|Hafter].
    + (* the window closed before the new call *)
      unfold in_window. rewrite List.filter_app. simpl.
      destruct (Z.leb_spec now T) as [H|_]; [lia|].
      rewrite andb_false_r, app_nil_r. apply Hwin.
    + (* the window holds the new call: it lies inside the one ending at [now] *)
      apply Z.le_trans with
        (Z.of_nat (length (List.filter (fun t => t >? now - RATE_LIMIT_WINDOW)
                             (admitted history ++ [now])))).
      * apply inj_le. unfold in_window. apply filter_length_mono.
        intros t _ Ht. apply andb_prop in Ht as [Ht _].
        apply Z.gtb_lt in Ht. apply Z.gtb_lt. lia.
      * rewrite Hnew, length_app. simpl. lia.
  - (* rejected *)
    rewrite (checkRateLimit_rejects _ _ Hfull). simpl.
    rewrite admitted_snoc. simpl. rewrite app_nil_r.
    split; [exact Hrecent|].
    split; [exact Hmax'|].
    split; [|exact Hwin].
    pose proof (recentRequests_length now log). lia.
Qed.

Lemma last_cons_default {A} (l : list A) : forall a d,
  List.last (a :: l) d = List.last l a.
Proof.
  induction l as [|b l IH]; intros a d; [reflexivity|].
  change (List.last (a :: b :: l) d) with (List.last (b :: l) d).
  rewrite (IH b d), (IH b a). reflexivity.
Qed.

Lemma limiter_inv_run times : forall lo st,
  limiter_inv lo st -> Sorted Z.le (lo :: times) ->
  limiter_inv (List.last times lo) (fold_left check_step times st).
Proof.
  induction times as [|now times IH]; intros lo st Hinv Hsorted.
  - exact Hinv.
  - apply Sorted_inv in Hsorted as [Hsorted Hhd].
    apply HdRel_inv in Hhd.
    change (fold_left check_step (now :: times) st)
      with (fold_left check_step times (check_step st now)).
    rewrite last_cons_default.
    apply IH; [apply (limiter_inv_step lo); assumption | exact Hsorted].
Qed.

End LimiterFacts.

Lemma limiter_inv_run_checks times :
  Sorted Z.le times -> limiter_inv (List.last times 0) (run_checks times).
Proof.
  intros Hsorted. unfold run_checks. destruct times as [|t0 times].
  - apply limiter_inv_init.
  - rewrite last_cons_default.
    rewrite <- (last_cons_default times t0 t0).
    apply (limiter_inv_run (t0 :: times) t0); [apply limiter_inv_init|].
    constructor; [exact Hsorted | constructor; lia].
Qed.

Lemma last_Some_default {A} (l : list A) (a d : A) :
  last l = Some a -> List.last l d = a.
Proof.
  revert d. induction l as [|b l IH]; intros d; [discriminate|].
  rewrite last_cons_default. destruct l as [|c l].
  - simpl. congruence.
  - intros H. apply IH. exact H.
Qed.

(** C2, with the condition on the clock that it needs: in a run of checks
    whose clock readings do not decrease, every
    trailing window of 60000 ms holds at most 100 admitted calls; and a
    check whose pruned log has 100 timestamps or more fails with the
    rate-limit error and leaves the pruned log, without the new timestamp,
    while any other check appends the current timestamp to the pruned log
    and lets the call through. *)
Theorem rate_limiter_window (times : list Z) :
  Sorted Z.le times ->
  (forall T : Z,
     let calls := admitted (snd (run_checks times)) in
     let window := List.filter (fun t => (t >? T - 60000) && (t <=? T)) calls in
     (length window <= 100)%nat)
  /\ (forall now log,
        let recent := List.filter (fun t => t >? now - 60000) log in
        ((100 <= length recent)%nat ->
           checkRateLimit now log
           = (Throw "Rate limit exceeded. Please wait.", recent))
        /\ ((length recent < 100)%nat ->
              checkRateLimit now log = (Ok tt, recent ++ [now]))).
Proof.
  intros Hsorted. split.
  - intros T calls window. subst calls window.
    pose proof (limiter_inv_run_checks times Hsorted) as Hinv.
    unfold limiter_inv in Hinv. destruct (run_checks times) as [log history].
    destruct Hinv as (_ & _ & _ & Hwin). specialize (Hwin T).
    unfold MAX_REQUESTS_PER_WINDOW in Hwin. apply Nat2Z.inj_le. exact Hwin.
  - intros now log recent. split; intros H.
    + apply checkRateLimit_rejects.
      change (recentRequests now log) with recent.
      unfold MAX_REQUESTS_PER_WINDOW. lia.
    + apply checkRateLimit_admits.
      change (recentRequests now log) with recent.
      unfold MAX_REQUESTS_PER_WINDOW. lia.
Qed.

(** C9: starting from the empty log, after a run of checks whose clock
    readings do not decrease the log holds at most 100 timestamps, and each
    of them lies in the window of the last check: later than its start, and
    no later than the check. *)
Theorem request_log_bounded (times : list Z) :
  Sorted Z.le times ->
  let log := fst (run_checks times) in
  (length log <= 100)%nat
  /\ forall now t, last times = Some now -> In t log ->
       now - 60000 < t <= now.
Proof.
  intros Hsorted log.
  pose proof (limiter_inv_run_checks times Hsorted) as Hinv.
  unfold limiter_inv in Hinv. subst log.
  destruct (run_checks times) as [log history]. simpl.
  destruct Hinv as (Hlog & Hmax & Hlen & _). split.
  - unfold MAX_REQUESTS_PER_WINDOW in Hlen. lia.
  - intros now t Hlast Hin.
    rewrite (last_Some_default _ _ 0 Hlast) in Hlog, Hmax.
    rewrite Hlog in Hin. apply List.filter_In in Hin as [Hin Hgt].
    apply Z.gtb_lt in Hgt. unfold RATE_LIMIT_WINDOW in Hgt.
    rewrite List.Forall_forall in Hmax. specialize (Hmax t Hin). simpl in Hmax.
    lia.
Qed.


Lemma non_decreasing_Sorted ts : non_decreasing ts = true -> Sorted Z.le ts.
Proof.
  induction ts as [|t ts IH]; [constructor|].
  destruct ts as [|u ts]; [repeat constructor|].
  intros H. change ((t <=? u) && non_decreasing (u :: ts) = true) in H.
  apply andb_prop in H as [Htu Hrest].
  constructor; [apply IH; exact Hrest | constructor; apply Z.leb_le; exact Htu].
Qed.


(** The burst: the call at time 6 is rejected, and the window that ends at
    60005 holds at most a hundred admitted calls. *)
Lemma rate_limiter_window_witness :
  Sorted Z.le burst_times
  /\ (length (List.filter (fun t => ((t >? 60005 - 60000) && (t <=? 60005))%Z)
                (admitted (snd (run_checks burst_times)))) <= 100)%nat
  /\ checkRateLimit 6 (repeat 5 100)
     = (Throw "Rate limit exceeded. Please wait.", repeat 5 100).
Proof.
  assert (Hs : Sorted Z.le burst_times)
    by (apply non_decreasing_Sorted; vm_compute; reflexivity).
  split; [exact Hs|]. split.
  - exact (proj1 (rate_limiter_window burst_times Hs) 60005).
  - apply (proj1 (proj2 (rate_limiter_window burst_times Hs) 6 (repeat 5 100))).
    vm_compute. lia.
Defined.

(** Against C2 as stated, for every sequence of checks: when the clock
    goes back the bound fails.  A hundred calls at time 0 are admitted; the
    check at 60000 prunes them all from the log; the clock then reads 0
    again and ninety-nine more calls are admitted, so the window that ends
    at 0 holds 199 admitted calls. *)
Lemma rate_limiter_window_clock_counterexample :
  ~ Sorted Z.le backward_times
  /\ length (in_window 0 (admitted (snd (run_checks backward_times))))
     = 199%nat
  /\ ~ (forall T : Z,
          (length (in_window T (admitted (snd (run_checks backward_times))))
           <= 100)%nat).
Proof.
  assert (Hwindow :
            length (in_window 0 (admitted (snd (run_checks backward_times))))
            = 199%nat)
    by (vm_compute; reflexivity).
  split; [|split; [exact Hwindow|]].
  - intros Hsorted. apply (Sorted_StronglySorted Z.le_trans) in Hsorted.
    unfold backward_times in Hsorted.
    change (repeat 0 100 ++ [60000] ++ repeat 0 99)
      with (repeat 0 100 ++ 60000 :: 0 :: repeat 0 98) in Hsorted.
    generalize dependent (repeat 0 98). intros rest.
    induction (repeat 0 100) as [|t l IH]; simpl; intros Hsorted.
    + apply StronglySorted_inv in Hsorted as [_ Hall].
      apply Forall_inv in Hall. lia.
    + apply StronglySorted_inv in Hsorted as [Hsorted _]. exact (IH Hsorted).
  - intros Hbound. specialize (Hbound 0). rewrite Hwindow in Hbound. lia.
Qed.

(** The burst: the log after the last check. *)
Lemma request_log_bounded_witness :
  Sorted Z.le burst_times
  /\ (length (fst (run_checks burst_times)) <= 100)%nat
  /\ (60005 - 60000 < 60005 <= 60005).
Proof.
  assert (Hs : Sorted Z.le burst_times)
    by (apply non_decreasing_Sorted; vm_compute; reflexivity).
  split; [exact Hs|]. split.
  - exact (proj1 (request_log_bounded burst_times Hs)).
  - apply (proj2 (request_log_bounded burst_times Hs) 60005 60005).
    + vm_compute. reflexivity.
    + vm_compute. left. reflexivity.
Defined.

(** ** Resilient fetch wrapper *)

Section ClientFacts.

Context (clock : nat -> Z)
        (network : nat -> string -> RequestInit -> FetchResult)
        (isAddress : jsval -> bool).

Implicit Types (url : string) (options : RequestInit) (w : World)
  (tr new : list Event).

Lemma delays_app tr1 tr2 : delays (tr1 ++ tr2) = delays tr1 ++ delays tr2.
Proof. apply omap_app. Qed.

Lemma fetches_app tr1 tr2 : fetches (tr1 ++ tr2) = (fetches tr1 + fetches tr2)%nat.
Proof. unfold fetches. rewrite List.filter_app. apply length_app. Qed.

Lemma attempt_tail_quiet r : delays (attempt_tail r) = [] /\ fetches (attempt_tail r) = 0%nat.
Proof. destruct r; split; reflexivity. Qed.

Lemma attempt_eq url options w :
  let r := network (calls w) url (fetch_init options) in
  attempt network url options w
  = (settle r,
     {| requestLog := requestLog w; ticks := ticks w; calls := S (calls w);
        trace := trace w ++ EvFetch url (fetch_init options) :: attempt_tail r |}).
Proof.
  intros r. unfold attempt. fold r. destruct r as [m|m|ok status json]; simpl.
  - reflexivity.
  - unfold emit. simpl. rewrite <- app_assoc. reflexivity.
  - destruct ok; reflexivity.
Qed.

(** [secureFetch] unfolded once. *)
Lemma secureFetch_eq url options retries w :
  secureFetch clock network url options retries w =
  match checkRateLimit_in clock w with
  | (Throw e, w) => (Throw e, w)
  | (Ok _, w) =>
      match attempt network url options w with
      | (Ok v, w) => (Ok v, w)
      | (Throw error, w) =>
          match retries, Str.includes error "Rate limit" with
          | S retries', false =>
              secureFetch clock network url options retries'
                (emit [EvDelay (RETRY_DELAY * (MAX_RETRIES - Z.of_nat retries + 1))] w)
          | _, _ => (Throw error, w)
          end
      end
  end.
Proof. destruct retries; reflexivity. Qed.

Lemma checkRateLimit_in_admitted w log' :
  checkRateLimit (clock (ticks w)) (requestLog w) = (Ok tt, log') ->
  checkRateLimit_in clock w
  = (Ok tt, {| requestLog := log'; ticks := S (ticks w); calls := calls w;
               trace := trace w |}).
Proof. intros H. unfold checkRateLimit_in. rewrite H. reflexivity. Qed.

Lemma limiter_after_S n tick log log_n :
  limiter_after clock (S n) tick log = Some log_n ->
  exists log1, checkRateLimit (clock tick) log = (Ok tt, log1)
               /\ limiter_after clock n (S tick) log1 = Some log_n.
Proof.
  simpl. destruct (checkRateLimit (clock tick) log) as [[[]|e] log1]; [|discriminate].
  intros H. exists log1. split; [reflexivity | exact H].
Qed.

(** Admitting [n + 1] checks is admitting [n] and then one more. *)
Lemma limiter_after_last n : forall tick log log',
  limiter_after clock (S n) tick log = Some log' ->
  exists log_n, limiter_after clock n tick log = Some log_n
                /\ checkRateLimit (clock (tick + n)) log_n = (Ok tt, log').
Proof.
  induction n as [|n IH]; intros tick log log' H.
  - apply limiter_after_S in H as (log1 & Hcheck & Hrest).
    simpl in Hrest. injection Hrest as <-.
    exists log. rewrite Nat.add_0_r. split; [reflexivity | exact Hcheck].
  - apply limiter_after_S in H as (log1 & Hcheck & Hrest).
    apply IH in Hrest as (log_n & Hn & Hlast).
    exists log_n. split.
    + simpl. rewrite Hcheck. exact Hn.
    + replace (tick + S n)%nat with (S tick + n)%nat by lia. exact Hlast.
Qed.

(** As long as the limiter admits the attempts and the network fails them
    with retryable failures, every attempt is followed by a delay and a
    call with one unit of budget less. *)
Lemma secureFetch_failures url options : forall (f r : nat) w log_f,
  limiter_after clock f (ticks w) (requestLog w) = Some log_f ->
  (forall k, (k < f)%nat ->
     retryable (network (calls w + k) url (fetch_init options)) = true) ->
  exists new,
    secureFetch clock network url options (f + r) w
    = secureFetch clock network url options r
        {| requestLog := log_f; ticks := ticks w + f; calls := calls w + f;
           trace := trace w ++ new |}
    /\ delays new = map (retry_delay (f + r)) (seq 1 f)
    /\ fetches new = f.
Proof.
  induction f as [|f IH]; intros r w log_f Hlim Hfail.
  - exists []. simpl in Hlim. injection Hlim as <-.
    rewrite !Nat.add_0_r, app_nil_r. destruct w; simpl. repeat split.
  - apply limiter_after_S in Hlim as (log1 & Hcheck & Hrest).
    pose proof (Hfail 0%nat ltac:(lia)) as H0. rewrite Nat.add_0_r in H0.
    unfold retryable in H0.
    destruct (settle (network (calls w) url (fetch_init options))) as [v|e] eqn:Hsettle;
      [discriminate|].
    apply negb_true_iff in H0.
    set (w2 := {| requestLog := log1; ticks := S (ticks w); calls := S (calls w);
                  trace := trace w ++ EvFetch url (fetch_init options)
                             :: attempt_tail (network (calls w) url (fetch_init options)) |}).
    set (ms := RETRY_DELAY * (MAX_RETRIES - Z.of_nat (S f + r) + 1)).
    destruct (IH r (emit [EvDelay ms] w2) log_f) as (new & Heq & Hdelays & Hfetches).
    { exact Hrest. }
    { intros k Hk. simpl. replace (S (calls w + k)) with (calls w + S k)%nat by lia.
      apply Hfail. lia. }
    exists (EvFetch url (fetch_init options)
              :: attempt_tail (network (calls w) url (fetch_init options))
              ++ [EvDelay ms] ++ new).
    split; [|split].
    + rewrite secureFetch_eq, (checkRateLimit_in_admitted _ _ Hcheck).
      rewrite attempt_eq. simpl calls. rewrite Hsettle.
      change (S f + r)%nat with (S (f + r)). cbv iota. rewrite H0.
      transitivity (secureFetch clock network url options (f + r)
                      (emit [EvDelay ms] w2)); [reflexivity|].
      rewrite Heq. f_equal. unfold emit, w2. simpl. f_equal; [lia | lia |].
      rewrite <- !app_assoc. reflexivity.
    + change (EvFetch url (fetch_init options)
                :: attempt_tail (network (calls w) url (fetch_init options))
                ++ [EvDelay ms] ++ new)
        with ([EvFetch url (fetch_init options)]
                ++ attempt_tail (network (calls w) url (fetch_init options))
                ++ [EvDelay ms] ++ new).
      rewrite !delays_app, (proj1 (attempt_tail_quiet _)), Hdelays.
      assert (Hhead : ms = retry_delay (S f + r) 1)
        by (unfold ms, retry_delay, RETRY_DELAY, MAX_RETRIES; lia).
      assert (Htail : map (retry_delay (f + r)) (seq 1 f)
                      = map (retry_delay (S f + r)) (seq 2 f)).
      { rewrite <- (List.seq_shift f 1), List.map_map. apply List.map_ext. intros k.
        unfold retry_delay, RETRY_DELAY, MAX_RETRIES. lia. }
      rewrite Hhead, Htail. reflexivity.
    + change (EvFetch url (fetch_init options)
                :: attempt_tail (network (calls w) url (fetch_init options))
                ++ [EvDelay ms] ++ new)
        with ([EvFetch url (fetch_init options)]
                ++ attempt_tail (network (calls w) url (fetch_init options))
                ++ [EvDelay ms] ++ new).
      rewrite !fetches_app, (proj2 (attempt_tail_quiet _)), Hfetches. reflexivity.
Qed.

(** The last attempt of a call: the limiter admits it, and it succeeds, or
    fails with a failure that is not retried, or no budget is left. *)
Lemma secureFetch_last url options (r : nat) w log' :
  checkRateLimit (clock (ticks w)) (requestLog w) = (Ok tt, log') ->
  retryable (network (calls w) url (fetch_init options)) = false \/ r = 0%nat ->
  secureFetch clock network url options r w
  = (settle (network (calls w) url (fetch_init options)),
     {| requestLog := log'; ticks := S (ticks w); calls := S (calls w);
        trace := trace w ++ EvFetch url (fetch_init options)
                   :: attempt_tail (network (calls w) url (fetch_init options)) |}).
Proof.
  intros Hcheck Hstop.
  rewrite secureFetch_eq, (checkRateLimit_in_admitted _ _ Hcheck), attempt_eq.
  simpl calls. unfold retryable in Hstop.
  destruct (settle (network (calls w) url (fetch_init options))) as [v|e];
    [reflexivity|].
  destruct Hstop as [Hstop| ->]; [|reflexivity].
  apply negb_false_iff in Hstop. cbv iota. rewrite Hstop.
  destruct r; reflexivity.
Qed.

(** A call the limiter rejects ends at once. *)
Lemma secureFetch_rejected url options (r : nat) w :
  (100 <= length (recentRequests (clock (ticks w)) (requestLog w)))%nat ->
  secureFetch clock network url options r w
  = (Throw rate_limit_message,
     {| requestLog := recentRequests (clock (ticks w)) (requestLog w);
        ticks := S (ticks w); calls := calls w; trace := trace w |}).
Proof.
  intros Hfull. rewrite secureFetch_eq. unfold checkRateLimit_in.
  rewrite checkRateLimit_rejects; [reflexivity|].
  unfold MAX_REQUESTS_PER_WINDOW. lia.
Qed.



(** What a call adds to the trace: calls of [fetch] with the one request,
    aborts and delays; the first event is the call of [fetch] when the
    limiter admits the call. *)
Lemma secureFetch_trace url options : forall (r : nat) w,
  exists new,
    trace (snd (secureFetch clock network url options r w)) = trace w ++ new
    /\ Forall (same_request url (fetch_init options)) new
    /\ (is_ok (fst (checkRateLimit (clock (ticks w)) (requestLog w))) = true ->
        exists rest, new = EvFetch url (fetch_init options) :: rest).
Proof.
  induction r as [|r IH]; intros w;
    rewrite secureFetch_eq; unfold checkRateLimit_in;
    destruct (checkRateLimit (clock (ticks w)) (requestLog w)) as [[[]|e] log'];
    try (exists []; simpl; rewrite app_nil_r;
         repeat split; [constructor | discriminate]);
    rewrite attempt_eq; simpl calls; simpl trace;
    set (res := network (calls w) url (fetch_init options));
    assert (Hone : Forall (same_request url (fetch_init options))
                     (EvFetch url (fetch_init options) :: attempt_tail res))
      by (constructor; [split; reflexivity | destruct res; repeat constructor]).
  - exists (EvFetch url (fetch_init options) :: attempt_tail res).
    destruct (settle res) as [v|e]; simpl;
      (split; [reflexivity | split; [exact Hone | eauto]]).
  - destruct (settle res) as [v|e]; simpl.
    { exists (EvFetch url (fetch_init options) :: attempt_tail res).
      split; [reflexivity | split; [exact Hone | eauto]]. }
    destruct (Str.includes e "Rate limit").
    { exists (EvFetch url (fetch_init options) :: attempt_tail res).
      split; [reflexivity | split; [exact Hone | eauto]]. }
    match goal with
    | |- context [secureFetch clock network url options r ?w2] =>
        destruct (IH w2) as (new & Htrace & Hsame & _)
    end.
    exists (EvFetch url (fetch_init options)
              :: attempt_tail res
              ++ [EvDelay (RETRY_DELAY * (MAX_RETRIES - Z.of_nat (S r) + 1))] ++ new).
    split; [|split].
    + rewrite Htrace. unfold emit. simpl. rewrite <- !app_assoc. reflexivity.
    + apply Forall_cons in Hone as [Hhead Htail].
      constructor; [exact Hhead|]. rewrite !Forall_app.
      split; [exact Htail | split; [repeat constructor | exact Hsame]].
    + eauto.
Qed.


(** C5: when the limiter rejects a call of [secureFetch], the call throws
    the rate-limit error at once, whatever its budget: no call of [fetch],
    no delay, no retry.  The call a retry makes is such a call: when the
    rejection comes after [f] retried failures, the whole call ends with
    the rate-limit error after exactly those [f] retries, the budget that
    remains unused. *)
Theorem secureFetch_rate_limited url options (retries : nat) w :
  ((100 <= length (recentRequests (clock (ticks w)) (requestLog w)))%nat ->
   secureFetch clock network url options retries w
   = (Throw "Rate limit exceeded. Please wait.",
      {| requestLog := recentRequests (clock (ticks w)) (requestLog w);
         ticks := S (ticks w); calls := calls w; trace := trace w |}))
  /\ forall (f : nat) log_f,
       limiter_after clock f (ticks w) (requestLog w) = Some log_f ->
       (forall k, (k < f)%nat ->
          retryable (network (calls w + k) url (fetch_init options)) = true) ->
       (100 <= length (recentRequests (clock (ticks w + f)) log_f))%nat ->
       exists w' new,
         secureFetch clock network url options (f + retries) w
         = (Throw "Rate limit exceeded. Please wait.", w')
         /\ trace w' = trace w ++ new
         /\ fetches new = f /\ length (delays new) = f.
Proof.
  split; [apply secureFetch_rejected|].
  intros f log_f Hlim Hfail Hfull.
  destruct (secureFetch_failures url options f retries w log_f Hlim Hfail)
    as (new & Heq & Hdelays & Hfetches).
  rewrite (secureFetch_rejected url options retries
             {| requestLog := log_f; ticks := ticks w + f; calls := calls w + f;
                trace := trace w ++ new |} Hfull) in Heq.
  eexists. exists new. split; [exact Heq|]. simpl.
  split; [reflexivity|]. split; [exact Hfetches|].
  rewrite Hdelays, length_map, length_seq. reflexivity.
Qed.

(** C1, as the code has it: for the data
    [{disasterType: "<script>flood</script>", region: "  Lagos  ",
    riskScore: 150}] and a world whose limiter admits the call,
    [api.createAlert] submits a [POST] to [/disaster/alerts] whose body is
    [{disasterType: "scriptflood/script", region: "Lagos", riskScore: 100}]:
    the sanitizer removes the angle brackets and leaves the text between
    them; every later call of [fetch] of the operation repeats the same
    request. *)
Theorem createAlert_submits w :
  (length (requestLog w) < 100)%nat ->
  let data := {| api.disasterType := JStr "<script>flood</script>";
                 api.region := JStr "  Lagos  ";
                 api.riskScore := JNum 150 |} in
  let request :=
    EvFetch "http://127.0.0.1:3333/api/v1/disaster/alerts"
      {| method := Some "POST";
         body := Some [ ("disasterType", JStr "scriptflood/script");
                        ("region", JStr "Lagos");
                        ("riskScore", JNum 100) ];
         headers := [("Content-Type", "application/json")] |} in
  exists rest,
    trace (snd (api.createAlert clock network data w)) = trace w ++ request :: rest
    /\ Forall (fun ev => match ev with EvFetch _ _ => ev = request | _ => True end)
         rest.
Proof.
  intros Hroom data request. unfold api.createAlert.
  match goal with
  | |- context [secureFetch clock network ?url ?options ?r w] =>
      destruct (secureFetch_trace url options r w) as (new & Htrace & Hsame & Hfirst)
  end.
  destruct Hfirst as (rest & ->).
  { rewrite checkRateLimit_admits; [reflexivity|].
    pose proof (recentRequests_length (clock (ticks w)) (requestLog w)).
    unfold MAX_REQUESTS_PER_WINDOW. lia. }
  exists rest. split; [exact Htrace|].
  apply Forall_cons in Hsame as [_ Hsame].
  eapply Forall_impl; [exact Hsame|].
  intros [u i| |ms]; simpl; [|trivial|trivial].
  intros [-> ->]. reflexivity.
Qed.

(** C7: [api.getBalance] on a value [ethers.isAddress] rejects throws the
    invalid-address error and leaves the world as it was: no clock reading,
    no change of the request log, no call of [fetch]; on a value
    [ethers.isAddress] accepts it is the call of [secureFetch] on the
    balance path of that address with the default budget. *)
Theorem getBalance_validates (address : jsval) w :
  (isAddress address = false ->
     api.getBalance clock network isAddress address w = (Throw "Invalid address", w))
  /\ (isAddress address = true ->
        api.getBalance clock network isAddress address w
        = secureFetch clock network
            ("http://127.0.0.1:3333/api/v1/token/balance/" +:+ ToString address)
            no_options 3 w).
Proof.
  unfold api.getBalance. split; intros ->; reflexivity.
Qed.

End ClientFacts.

(** *** The theorems on concrete runs *)



(** A call made while the log holds a hundred fresh timestamps. *)
Lemma secureFetch_rate_limited_witness :
  (100 <= length (recentRequests (sample_clock 0) (requestLog full_world)))%nat
  /\ secureFetch sample_clock (network_flaky 0) "/health" no_options 3 full_world
     = (Throw "Rate limit exceeded. Please wait.",
        {| requestLog := repeat 5 100; ticks := 1; calls := 0; trace := [] |}).
Proof.
  assert (Hfull : (100 <= length (recentRequests (sample_clock 0)
                                    (requestLog full_world)))%nat)
    by (vm_compute; lia).
  split; [exact Hfull|].
  exact (proj1 (secureFetch_rate_limited sample_clock (network_flaky 0)
                  "/health" no_options 3 full_world) Hfull).
Defined.

(** The alert scenario in the initial world. *)
Lemma createAlert_submits_witness :
  (length (requestLog initial_world) < 100)%nat
  /\ exists rest,
       trace (snd (api.createAlert sample_clock (network_flaky 0) scenario_alert
                     initial_world))
       = EvFetch "http://127.0.0.1:3333/api/v1/disaster/alerts"
           {| method := Some "POST";
              body := Some [ ("disasterType", JStr "scriptflood/script");
                             ("region", JStr "Lagos");
                             ("riskScore", JNum 100) ];
              headers := [("Content-Type", "application/json")] |} :: rest.
Proof.
  assert (Hroom : (length (requestLog initial_world) < 100)%nat)
    by (simpl; lia).
  split; [exact Hroom|].
  destruct (createAlert_submits sample_clock (network_flaky 0) initial_world Hroom)
    as (rest & Htrace & _).
  exists rest. exact Htrace.
Defined.

(** Against C1 as stated: the one request of the scenario carries the
    disaster type ["scriptflood/script"], so its body is not the body the
    specification expects. *)
Lemma createAlert_body_counterexample :
  trace (snd (api.createAlert sample_clock (network_flaky 0) scenario_alert
                initial_world))
  = [ EvFetch "http://127.0.0.1:3333/api/v1/disaster/alerts"
        {| method := Some "POST";
           body := Some (api.sanitizedAlert scenario_alert);
           headers := [("Content-Type", "application/json")] |} ]
  /\ api.sanitizedAlert scenario_alert
     = [ ("disasterType", JStr "scriptflood/script"); ("region", JStr "Lagos");
         ("riskScore", JNum 100) ]
  /\ api.sanitizedAlert scenario_alert <> expected_alert_body.
Proof.
  split; [vm_compute; reflexivity|].
  split; [vm_compute; reflexivity | vm_compute; discriminate].
Qed.

(** The balance lookup on ["not-an-address"] and on an address. *)
Lemma getBalance_validates_witness :
  is_plain_address (JStr "not-an-address") = false
  /\ api.getBalance sample_clock network_down is_plain_address
       (JStr "not-an-address") initial_world
     = (Throw "Invalid address", initial_world)
  /\ is_plain_address (JStr "0x52908400098527886e0f7030069857d2e4169ee7") = true
  /\ fetches (trace (snd (api.getBalance sample_clock (network_flaky 0) is_plain_address
                (JStr "0x52908400098527886e0f7030069857d2e4169ee7") initial_world)))
     = 1%nat.
Proof.
  assert (Hbad : is_plain_address (JStr "not-an-address") = false)
    by (vm_compute; reflexivity).
  assert (Hgood : is_plain_address
                    (JStr "0x52908400098527886e0f7030069857d2e4169ee7") = true)
    by (vm_compute; reflexivity).
  split; [exact Hbad|]. split.
  - exact (proj1 (getBalance_validates sample_clock network_down is_plain_address
                    (JStr "not-an-address") initial_world) Hbad).
  - split; [exact Hgood|].
    rewrite (proj2 (getBalance_validates sample_clock (network_flaky 0)
                      is_plain_address _ initial_world) Hgood).
    vm_compute. reflexivity.
Defined.

(** ** Wallet and contract hooks *)

Section HookFacts.

Context (config : Config.ContractConfig)
        (ethereum : option (WalletRequest -> outcome RpcError unit))
        (signer : outcome string string)
        (chain : Contract -> string -> list jsval -> outcome string Z).

Implicit Types (tr : list HookEvent) (contractName : string).

Lemma hbind_ok {A B} (m : hook A) (k : A -> hook B) tr v tr' :
  m tr = (Ok v, tr') -> (m ≫= k) tr = k v tr'.
Proof. intros H. unfold mbind, hook_bind, hbind. rewrite H. reflexivity. Qed.

Lemma hbind_throw {A B} (m : hook A) (k : A -> hook B) tr e tr' :
  m tr = (Throw e, tr') -> (m ≫= k) tr = (Throw e, tr').
Proof. intros H. unfold mbind, hook_bind, hbind. rewrite H. reflexivity. Qed.

Lemma getProvider_eq tr :
  getProvider ethereum tr
  = (Ok (match ethereum with Some _ => Some tt | None => None end),
     tr ++ [EvProvider]).
Proof. reflexivity. Qed.

Lemma call_eq (c : Contract) (method : string) (args : list jsval) tr :
  call chain c method args tr = (chain c method args, tr ++ [EvCall c method args]).
Proof.
  unfold call, mbind, hook_bind, hbind, hemit. simpl.
  destruct (chain c method args); reflexivity.
Qed.

(** The configuration test of [getContract]: it throws, and nothing has
    happened yet. *)
Lemma getContract_not_configured contractName withSigner tr addresses :
  Config.addresses config = Some addresses ->
  addresses !! contractName = None \/ addresses !! contractName = Some ""
  \/ Config.abis config !! contractName = None ->
  getContract config ethereum signer contractName withSigner tr
  = (Throw ("Contract " +:+ contractName +:+ " not configured"), tr).
Proof.
  intros Haddr H. unfold getContract. rewrite Haddr.
  destruct H as [-> | [-> | ->]]; try reflexivity.
  destruct (addresses !! contractName) as [a|]; [|reflexivity].
  rewrite orb_true_r. reflexivity.
Qed.

Lemma truthy_nonempty (a : string) : a <> "" -> truthy (JStr a) = true.
Proof.
  intros Hne. simpl. destruct (String.eqb_spec a ""); [contradiction|reflexivity].
Qed.

(** Past the configuration test. *)
Lemma getContract_configured contractName withSigner tr addresses a abi :
  Config.addresses config = Some addresses ->
  addresses !! contractName = Some a -> a <> "" ->
  Config.abis config !! contractName = Some abi ->
  getContract config ethereum signer contractName withSigner tr
  = (provider ← getProvider ethereum;
     match provider with
     | None => hthrow "No wallet provider found"
     | Some _ =>
         if withSigner then
           s ← getSigner ethereum signer;
           mret {| target := a; interface := abi; runner := RunnerSigner s |}
         else
           mret {| target := a; interface := abi; runner := RunnerProvider |}
     end) tr.
Proof.
  intros Haddr Ha Hne Habi. unfold getContract.
  rewrite Haddr, Ha, Habi, (truthy_nonempty a Hne). reflexivity.
Qed.

(** C6, as the code has it: for every contract name that objects do not
    inherit from [Object.prototype], [getContract] throws
    the not-configured error when the address of the name is missing or the
    empty string, or when its interface is missing, and it does so before
    any provider lookup: no event has happened.  An interface that is
    present passes the test even when it is the empty list.  Past the test,
    without a wallet the call throws the no-provider error; with a wallet
    the contract on the provider is built, and the contract on the signer
    is built exactly when [getSigner] resolves. *)
Theorem getContract_checks_configuration contractName tr addresses :
  inherited contractName = false ->
  Config.addresses config = Some addresses ->
  ((addresses !! contractName = None \/ addresses !! contractName = Some ""
    \/ Config.abis config !! contractName = None) ->
   forall withSigner,
     getContract config ethereum signer contractName withSigner tr
     = (Throw ("Contract " +:+ contractName +:+ " not configured"), tr))
  /\ (forall a abi,
        addresses !! contractName = Some a -> a <> "" ->
        Config.abis config !! contractName = Some abi ->
        (ethereum = None ->
         forall withSigner,
           getContract config ethereum signer contractName withSigner tr
           = (Throw "No wallet provider found", tr ++ [EvProvider]))
        /\ (is_Some ethereum ->
            getContract config ethereum signer contractName false tr
            = (Ok {| target := a; interface := abi; runner := RunnerProvider |},
               tr ++ [EvProvider])
            /\ (forall s, signer = Ok s ->
                 getContract config ethereum signer contractName true tr
                 = (Ok {| target := a; interface := abi;
                          runner := RunnerSigner (Some s) |},
                    tr ++ [EvProvider; EvProvider; EvSigner]))
            /\ (forall e, signer = Throw e ->
                 getContract config ethereum signer contractName true tr
                 = (Throw e, tr ++ [EvProvider; EvProvider; EvSigner])))).
Proof.
  intros _ Haddr. split.
  - intros H withSigner. apply (getContract_not_configured _ _ _ _ Haddr H).
  - intros a abi Ha Hne Habi. split.
    + intros Heth withSigner.
      rewrite (getContract_configured _ _ _ _ _ _ Haddr Ha Hne Habi).
      unfold mbind, hook_bind, hbind. rewrite getProvider_eq, Heth. reflexivity.
    + intros [wallet Heth]. split; [|split].
      * rewrite (getContract_configured _ _ _ _ _ _ Haddr Ha Hne Habi).
        unfold mbind, hook_bind, hbind. rewrite getProvider_eq, Heth. reflexivity.
      * intros s Hs.
        rewrite (getContract_configured _ _ _ _ _ _ Haddr Ha Hne Habi).
        unfold mbind, hook_bind, hbind, getSigner, mbind, hook_bind, hbind.
        rewrite !getProvider_eq, Heth, Hs. simpl. rewrite <- !app_assoc.
        reflexivity.
      * intros e He.
        rewrite (getContract_configured _ _ _ _ _ _ Haddr Ha Hne Habi).
        unfold mbind, hook_bind, hbind, getSigner, mbind, hook_bind, hbind.
        rewrite !getProvider_eq, Heth, He. simpl. rewrite <- !app_assoc.
        reflexivity.
Qed.

(** C8: a switch to a network of [NETWORKS] that the wallet does not know
    (its switch request fails with code 4902) is followed by one
    add-network request, built from the entry of the network: chain id in
    hexadecimal, name, RPC URL, native currency and explorer.  When that
    request fails too, [useWallet.switchNetwork] returns [false], puts the message of
    the failure in the error slot and leaves the account, the chain id and
    the connecting flag as they were; when it succeeds, [useWallet.switchNetwork]
    returns [true] and leaves the state as it was. *)
Theorem switchNetwork_add_network
    (wallet : WalletRequest -> outcome RpcError unit)
    (networkId : string) (network : Config.Network) (st : useWallet.State) tr
    (switchError : RpcError) :
  let switch :=
    wallet_switchEthereumChain ("0x" +:+ Num.toString16 (Config.chainId network)) in
  let add :=
    wallet_addEthereumChain
      {| add_chainId := "0x" +:+ Num.toString16 (Config.chainId network);
         chainName := Config.name network;
         rpcUrls := [Config.rpcUrl network];
         nativeCurrency := Config.currency network;
         blockExplorerUrls :=
           if String.eqb (Config.explorer network) "" then []
           else [Config.explorer network] |} in
  ethereum = Some wallet ->
  Config.NETWORKS !! networkId = Some network ->
  wallet switch = Throw switchError ->
  code switchError = Some 4902 ->
  (forall addError, wallet add = Throw addError ->
     useWallet.switchNetwork ethereum networkId st tr
     = (false,
        {| useWallet.account := useWallet.account st;
           useWallet.chainId := useWallet.chainId st;
           useWallet.isConnecting := useWallet.isConnecting st;
           useWallet.error := Some (message addError) |},
        tr ++ [EvRequest switch; EvRequest add]))
  /\ (wallet add = Ok tt ->
      useWallet.switchNetwork ethereum networkId st tr
      = (true, st, tr ++ [EvRequest switch; EvRequest add])).
Proof.
  intros switch add Heth Hnet Hswitch Hcode.
  assert (Hadd : wallet_addEthereumChain (useWallet.add_chain_params network) = add).
  { unfold add, useWallet.add_chain_params, useWallet.hex_chain_id. simpl.
    destruct (String.eqb (Config.explorer network) ""); reflexivity. }
  unfold useWallet.switchNetwork. rewrite Hnet. unfold useWallet.request. rewrite Heth.
  fold (useWallet.hex_chain_id network). change (wallet_switchEthereumChain (useWallet.hex_chain_id network))
    with switch. rewrite Hswitch, Hcode, Hadd.
  rewrite bool_decide_eq_true_2 by reflexivity.
  split.
  - intros addError ->. rewrite <- app_assoc. reflexivity.
  - intros ->. rewrite <- app_assoc. reflexivity.
Qed.

(** [useKAIToken().getBalance] step by step: what it returns when
    [getContract] throws, when the read of the balance throws, when the
    read of the decimals throws, and when every step succeeds. *)
Lemma token_getBalance_steps (address : jsval) (st : useKAIToken.State) tr :
  (forall e tr1,
     getContract config ethereum signer "KAIToken" false tr = (Throw e, tr1) ->
     useKAIToken.getBalance config ethereum signer chain address st tr
     = ("0", {| useKAIToken.loading := false; useKAIToken.error := Some e |}, tr1))
  /\ (forall c tr1,
        getContract config ethereum signer "KAIToken" false tr = (Ok c, tr1) ->
        (forall e, chain c "balanceOf" [address] = Throw e ->
           useKAIToken.getBalance config ethereum signer chain address st tr
           = ("0", {| useKAIToken.loading := false; useKAIToken.error := Some e |},
              tr1 ++ [EvCall c "balanceOf" [address]]))
        /\ (forall balance, chain c "balanceOf" [address] = Ok balance ->
             (forall e, chain c "decimals" [] = Throw e ->
                useKAIToken.getBalance config ethereum signer chain address st tr
                = ("0", {| useKAIToken.loading := false; useKAIToken.error := Some e |},
                   tr1 ++ [EvCall c "balanceOf" [address]; EvCall c "decimals" []]))
             /\ (forall decimals, chain c "decimals" [] = Ok decimals ->
                  useKAIToken.getBalance config ethereum signer chain address st tr
                  = (Units.formatUnits balance (Z.to_nat decimals),
                     {| useKAIToken.loading := false; useKAIToken.error := None |},
                     tr1 ++ [EvCall c "balanceOf" [address]; EvCall c "decimals" []])))).
Proof.
  split.
  - intros e tr1 Hc. unfold useKAIToken.getBalance, useKAIToken.getBalance_try.
    rewrite (hbind_throw _ _ _ _ _ Hc). reflexivity.
  - intros c tr1 Hc. split.
    + intros e Hb. unfold useKAIToken.getBalance, useKAIToken.getBalance_try.
      rewrite (hbind_ok _ _ _ _ _ Hc).
      erewrite hbind_throw by (rewrite call_eq, Hb; reflexivity).
      reflexivity.
    + intros balance Hb. split.
      * intros e Hd. unfold useKAIToken.getBalance, useKAIToken.getBalance_try.
        rewrite (hbind_ok _ _ _ _ _ Hc).
        erewrite hbind_ok by (rewrite call_eq, Hb; reflexivity).
        erewrite hbind_throw by (rewrite call_eq, Hd; reflexivity).
        rewrite <- app_assoc. reflexivity.
      * intros decimals Hd. unfold useKAIToken.getBalance, useKAIToken.getBalance_try.
        rewrite (hbind_ok _ _ _ _ _ Hc).
        erewrite hbind_ok by (rewrite call_eq, Hb; reflexivity).
        erewrite hbind_ok by (rewrite call_eq, Hd; reflexivity).
        rewrite <- app_assoc. reflexivity.
Qed.

End HookFacts.

(** *** The hooks on concrete configurations *)

Lemma blank_addresses_lookup (contractName : string) :
  Config.blank_addresses !! contractName = None
  \/ Config.blank_addresses !! contractName = Some "".
Proof.
  destruct (Config.blank_addresses !! contractName) as [a|] eqn:Hlookup;
    [right | left; reflexivity].
  apply elem_of_list_to_map_2, list_elem_of_In, List.in_map_iff in Hlookup
    as (n & Hpair & _).
  injection Hpair as _ <-. reflexivity.
Qed.

Lemma default_addresses :
  Config.addresses (Config.getContractConfig Config.DEFAULT_NETWORK)
  = Some Config.blank_addresses.
Proof.
  unfold Config.getContractConfig, Config.CONTRACT_ADDRESSES. simpl Config.addresses.
  generalize Config.blank_addresses. intros blank.
  unfold Config.DEFAULT_NETWORK. simpl list_to_map.
  rewrite lookup_insert_ne by discriminate. apply lookup_insert_eq.
Qed.

(** With the tables the repository ships no contract is configured: every
    address is the empty string (a lemma of the lookup of own properties,
    used for the contract names of the application). *)
Lemma shipped_config_not_configured ethereum signer contractName withSigner tr :
  getContract (Config.getContractConfig Config.DEFAULT_NETWORK) ethereum signer
    contractName withSigner tr
  = (Throw ("Contract " +:+ contractName +:+ " not configured"), tr).
Proof.
  apply (getContract_not_configured _ _ _ _ _ _ Config.blank_addresses).
  - exact default_addresses.
  - destruct (blank_addresses_lookup contractName) as [H|H]; auto.
Qed.

(** The token contract with the tables the repository ships. *)
Lemma getContract_checks_configuration_witness :
  inherited "KAIToken" = false
  /\ Config.addresses (Config.getContractConfig Config.DEFAULT_NETWORK)
     = Some Config.blank_addresses
  /\ Config.blank_addresses !! "KAIToken" = Some ""
  /\ getContract (Config.getContractConfig Config.DEFAULT_NETWORK)
       (Some wallet_accepting) (Ok "0x52908400098527886e0f7030069857d2e4169ee7")
       "KAIToken" false []
     = (Throw "Contract KAIToken not configured", []).
Proof.
  pose proof default_addresses as Haddr.
  assert (Hblank : Config.blank_addresses !! "KAIToken" = Some "")
    by (vm_compute; reflexivity).
  split; [reflexivity|]. split; [exact Haddr|]. split; [exact Hblank|].
  exact (proj1 (getContract_checks_configuration
                  (Config.getContractConfig Config.DEFAULT_NETWORK)
                  (Some wallet_accepting)
                  (Ok "0x52908400098527886e0f7030069857d2e4169ee7")
                  "KAIToken" [] Config.blank_addresses eq_refl Haddr)
           (or_intror (or_introl Hblank)) false).
Defined.

(** Against C6 as stated: an interface that is present and empty is not
    rejected; with an address and a wallet the contract is built. *)
Lemma getContract_empty_interface_accepted :
  Config.abis empty_abi_config !! "KAIToken" = Some []
  /\ getContract empty_abi_config (Some wallet_accepting)
       (Ok "0x52908400098527886e0f7030069857d2e4169ee7") "KAIToken" false []
     = (Ok {| target := "0x52908400098527886e0f7030069857d2e4169ee7";
              interface := []; runner := RunnerProvider |},
        [EvProvider])
  /\ getContract empty_abi_config (Some wallet_accepting)
       (Ok "0x52908400098527886e0f7030069857d2e4169ee7") "KAIToken" false []
     <> (Throw "Contract KAIToken not configured", []).
Proof.
  split; [vm_compute; reflexivity|].
  split; [vm_compute; reflexivity | vm_compute; discriminate].
Qed.

(** A switch to Amoy with a wallet that does not know the network and
    refuses to add it. *)
Lemma switchNetwork_add_network_witness :
  Config.NETWORKS !! "amoy"
  = Some {| Config.chainId := 80002; Config.name := "Polygon Amoy Testnet";
            Config.rpcUrl := "https://rpc-amoy.polygon.technology";
            Config.explorer := "https://www.oklink.com/amoy";
            Config.currency := {| Config.cur_name := "MATIC";
                                  Config.cur_symbol := "MATIC";
                                  Config.cur_decimals := 18 |} |}
  /\ useWallet.switchNetwork (Some wallet_refusing) "amoy" connected_wallet []
     = (false,
        {| useWallet.account := Some "0x52908400098527886e0f7030069857d2e4169ee7";
           useWallet.chainId := Some 137;
           useWallet.isConnecting := false;
           useWallet.error := Some "User rejected the request." |},
        [ EvRequest (wallet_switchEthereumChain "0x13882");
          EvRequest (wallet_addEthereumChain
            {| add_chainId := "0x13882";
               chainName := "Polygon Amoy Testnet";
               rpcUrls := ["https://rpc-amoy.polygon.technology"];
               nativeCurrency := {| Config.cur_name := "MATIC";
                                    Config.cur_symbol := "MATIC";
                                    Config.cur_decimals := 18 |};
               blockExplorerUrls := ["https://www.oklink.com/amoy"] |}) ]).
Proof.
  assert (Hnet : Config.NETWORKS !! "amoy"
                 = Some {| Config.chainId := 80002;
                           Config.name := "Polygon Amoy Testnet";
                           Config.rpcUrl := "https://rpc-amoy.polygon.technology";
                           Config.explorer := "https://www.oklink.com/amoy";
                           Config.currency := {| Config.cur_name := "MATIC";
                                                 Config.cur_symbol := "MATIC";
                                                 Config.cur_decimals := 18 |} |})
    by (vm_compute; reflexivity).
  split; [exact Hnet|].
  exact (proj1 (switchNetwork_add_network (Some wallet_refusing) wallet_refusing
                  "amoy" _ connected_wallet []
                  {| code := Some 4902; message := "Unrecognized chain ID" |}
                  eq_refl Hnet eq_refl eq_refl)
           {| code := Some 4001; message := "User rejected the request." |}
           eq_refl).
Defined.

(** The balance of the token hook on concrete chains: a node that cannot be
    reached and the unconfigured tables give ["0"] with a message, an empty
    account of an 18-decimals token gives ["0.0"]. *)
Example token_getBalance_unreachable :
  useKAIToken.getBalance deployed_config (Some wallet_accepting) (Ok "") chain_unreachable
    (JStr "0x52908400098527886e0f7030069857d2e4169ee7") idle_token []
  = ("0",
     {| useKAIToken.loading := false;
        useKAIToken.error := Some "could not detect network" |},
     [ EvProvider;
       EvCall {| target := "0x52908400098527886e0f7030069857d2e4169ee7";
                 interface := default [] (Config.ABIS !! "KAIToken");
                 runner := RunnerProvider |}
         "balanceOf" [JStr "0x52908400098527886e0f7030069857d2e4169ee7"] ]).
Proof. vm_compute. reflexivity. Qed.

Example token_getBalance_shipped :
  useKAIToken.getBalance (Config.getContractConfig Config.DEFAULT_NETWORK)
    (Some wallet_accepting) (Ok "") (chain_zero 18)
    (JStr "0x52908400098527886e0f7030069857d2e4169ee7") idle_token []
  = ("0",
     {| useKAIToken.loading := false;
        useKAIToken.error := Some "Contract KAIToken not configured" |},
     []).
Proof. vm_compute. reflexivity. Qed.

Example token_getBalance_empty_account :
  fst (fst (useKAIToken.getBalance deployed_config (Some wallet_accepting) (Ok "")
              (chain_zero 18)
              (JStr "0x52908400098527886e0f7030069857d2e4169ee7") idle_token []))
  = "0.0".
Proof. vm_compute. reflexivity. Qed.

(** ** Token amounts *)

Module UnitsFacts.

Import Units.

(** *** Digits *)

Lemma small_cases (k : Z) :
  0 <= k < 10 ->
  k = 0 \/ k = 1 \/ k = 2 \/ k = 3 \/ k = 4 \/ k = 5 \/ k = 6 \/ k = 7
  \/ k = 8 \/ k = 9.
Proof. lia. Qed.

Ltac each_digit k H :=
  destruct (small_cases k H) as [->|[->|[->|[->|[->|[->|[->|[->|[->| ->]]]]]]]]].

Lemma digit_char_val (k : Z) : 0 <= k < 10 -> Num.digit_val (Num.digit_char k) = k.
Proof. intros H. each_digit k H; reflexivity. Qed.

Lemma digit_char_is_digit (k : Z) : 0 <= k < 10 -> Str.is_digit (Num.digit_char k) = true.
Proof. intros H. each_digit k H; reflexivity. Qed.

(** A decimal digit is the character of its value. *)
Lemma is_digit_inv (c : ascii) :
  Str.is_digit c = true ->
  0 <= Num.digit_val c < 10 /\ Num.digit_char (Num.digit_val c) = c.
Proof.
  intros H. unfold Str.is_digit in H. apply andb_prop in H as [Hlo Hhi].
  apply Z.leb_le in Hlo, Hhi.
  assert (Hc : c = ascii_of_N (Z.to_N (Str.code c))).
  { unfold Str.code. rewrite N2Z.id, ascii_N_embedding. reflexivity. }
  assert (Hcases : 0 <= Str.code c - 48 < 10) by lia.
  remember (Str.code c - 48) as k eqn:Hk.
  assert (Hcode : Str.code c = 48 + k) by lia.
  rewrite Hc, Hcode. clear Hc Hcode Hk Hlo Hhi.
  each_digit k Hcases; split; (reflexivity || (vm_compute; split; congruence)).
Qed.

Lemma is_digit_not_minus (c : ascii) : Str.is_digit c = true -> Ascii.eqb c "-" = false.
Proof.
  intros H. destruct (Ascii.eqb_spec c "-") as [->|]; [discriminate H|reflexivity].
Qed.

Lemma is_digit_not_point (c : ascii) : Str.is_digit c = true -> Ascii.eqb c "." = false.
Proof.
  intros H. destruct (Ascii.eqb_spec c ".") as [->|]; [discriminate H|reflexivity].
Qed.

(** *** The value of a run of digits *)

Lemma radix_val_acc (ds : list ascii) : forall acc,
  fold_left (fun a c => 10 * a + Num.digit_val c) ds acc
  = acc * 10 ^ Z.of_nat (length ds) + Num.digits_val ds.
Proof.
  unfold Num.digits_val, Num.radix_val.
  induction ds as [|c ds IH]; intros acc; simpl fold_left.
  - simpl. lia.
  - rewrite IH, (IH (10 * 0 + Num.digit_val c)).
    change (length (c :: ds)) with (S (length ds)).
    rewrite Nat2Z.inj_succ, Z.pow_succ_r by lia. lia.
Qed.

Lemma digits_val_app (a b : list ascii) :
  Num.digits_val (a ++ b)
  = Num.digits_val a * 10 ^ Z.of_nat (length b) + Num.digits_val b.
Proof.
  unfold Num.digits_val at 1, Num.radix_val. rewrite fold_left_app.
  fold (Num.radix_val 10 a). fold (Num.digits_val a). apply radix_val_acc.
Qed.

Lemma digits_val_single (c : ascii) : Num.digits_val [c] = Num.digit_val c.
Proof. unfold Num.digits_val, Num.radix_val. simpl. lia. Qed.

Lemma digits_val_snoc (a : list ascii) (c : ascii) :
  Num.digits_val (a ++ [c]) = 10 * Num.digits_val a + Num.digit_val c.
Proof. rewrite digits_val_app, digits_val_single. simpl length. lia. Qed.

Lemma digits_val_bounds (ds : list ascii) :
  forallb Str.is_digit ds = true ->
  0 <= Num.digits_val ds < 10 ^ Z.of_nat (length ds).
Proof.
  induction ds as [|c ds IH] using rev_ind; intros Hd.
  - unfold Num.digits_val, Num.radix_val. simpl. lia.
  - rewrite forallb_app in Hd. apply andb_prop in Hd as [Hds Hc].
    simpl in Hc. rewrite andb_true_r in Hc.
    destruct (is_digit_inv c Hc) as [Hv _]. specialize (IH Hds).
    rewrite digits_val_snoc, length_app. simpl length.
    rewrite Nat2Z.inj_add, Z.pow_add_r by lia. simpl (10 ^ Z.of_nat 1). lia.
Qed.

Lemma digits_val_zeros (k : nat) : Num.digits_val (repeat "0"%char k) = 0.
Proof.
  induction k as [|k IH]; [reflexivity|].
  change (repeat "0"%char (S k)) with (["0"%char] ++ repeat "0"%char k).
  rewrite digits_val_app, IH. reflexivity.
Qed.

(** *** Printing *)

Lemma to_digits_digits (fuel : nat) : forall q,
  0 <= q -> forallb Str.is_digit (Num.to_digits 10 fuel q) = true.
Proof.
  induction fuel as [|fuel IH]; intros q Hq; [reflexivity|].
  simpl. destruct (Z.ltb_spec q 10).
  - simpl. rewrite digit_char_is_digit by lia. reflexivity.
  - rewrite forallb_app, IH by (apply Z.div_pos; lia). simpl.
    rewrite digit_char_is_digit by (apply Z.mod_pos_bound; lia). reflexivity.
Qed.

Lemma to_digits_val (fuel : nat) : forall q,
  0 <= q < 2 ^ Z.of_nat fuel -> Num.digits_val (Num.to_digits 10 fuel q) = q.
Proof.
  induction fuel as [|fuel IH]; intros q Hq.
  - simpl in *. unfold Num.digits_val, Num.radix_val. simpl. lia.
  - simpl Num.to_digits. destruct (Z.ltb_spec q 10).
    + rewrite digits_val_single. apply digit_char_val. lia.
    + rewrite digits_val_snoc, digit_char_val by (apply Z.mod_pos_bound; lia).
      rewrite IH.
      * pose proof (Z.div_mod q 10 ltac:(lia)). lia.
      * rewrite Nat2Z.inj_succ, Z.pow_succ_r in Hq by lia.
        split; [apply Z.div_pos; lia|].
        apply Z.div_lt_upper_bound; lia.
Qed.

Lemma to_digits_nonempty (fuel : nat) (q : Z) : Num.to_digits 10 (S fuel) q <> [].
Proof.
  simpl. destruct (q <? 10); [discriminate|].
  intros H. apply app_eq_nil in H as [_ H]. discriminate H.
Qed.

Lemma log2_fuel (q : Z) : 0 <= q -> q < 2 ^ Z.of_nat (S (Z.to_nat (Z.log2 q))).
Proof.
  intros Hq. rewrite Nat2Z.inj_succ, Z2Nat.id by apply Z.log2_nonneg.
  destruct (Z.eq_dec q 0) as [->|Hne]; [reflexivity|].
  apply Z.log2_spec. lia.
Qed.

Lemma nat_chars_val (q : Z) : 0 <= q -> Num.digits_val (Num.nat_chars 10 q) = q.
Proof.
  intros Hq. apply to_digits_val. split; [exact Hq | apply log2_fuel; exact Hq].
Qed.

Lemma nat_chars_digits (q : Z) :
  0 <= q -> forallb Str.is_digit (Num.nat_chars 10 q) = true.
Proof. apply to_digits_digits. Qed.

Lemma nat_chars_nonempty (q : Z) : Num.nat_chars 10 q <> [].
Proof. apply to_digits_nonempty. Qed.

(** *** The fraction *)

Lemma fraction_chars_length (d : nat) : forall r, length (fraction_chars d r) = d.
Proof.
  induction d as [|d IH]; intros r; simpl; [reflexivity|].
  rewrite length_app, IH. simpl. lia.
Qed.

Lemma fraction_chars_digits (d : nat) : forall r,
  forallb Str.is_digit (fraction_chars d r) = true.
Proof.
  induction d as [|d IH]; intros r; simpl; [reflexivity|].
  rewrite forallb_app, IH. simpl.
  rewrite digit_char_is_digit by (apply Z.mod_pos_bound; lia). reflexivity.
Qed.

Lemma fraction_chars_val (d : nat) : forall r,
  0 <= r < 10 ^ Z.of_nat d -> Num.digits_val (fraction_chars d r) = r.
Proof.
  induction d as [|d IH]; intros r Hr.
  - simpl in *. unfold Num.digits_val, Num.radix_val. simpl. lia.
  - simpl fraction_chars.
    rewrite digits_val_snoc, digit_char_val by (apply Z.mod_pos_bound; lia).
    rewrite IH.
    + pose proof (Z.div_mod r 10 ltac:(lia)). lia.
    + rewrite Nat2Z.inj_succ, Z.pow_succ_r in Hr by lia.
      split; [apply Z.div_pos; lia|].
      apply Z.div_lt_upper_bound; lia.
Qed.

(** The digits of a run of [d] digits are the fraction of its value. *)
Lemma fraction_chars_of_val (d : nat) : forall ds,
  length ds = d -> forallb Str.is_digit ds = true ->
  fraction_chars d (Num.digits_val ds) = ds.
Proof.
  induction d as [|d IH]; intros ds Hlen Hd.
  - destruct ds; [reflexivity|discriminate].
  - destruct (exists_last (l := ds)) as (ds' & c & ->);
      [intros ->; discriminate|].
    rewrite length_app in Hlen. simpl in Hlen.
    rewrite forallb_app in Hd. apply andb_prop in Hd as [Hds Hc].
    simpl in Hc. rewrite andb_true_r in Hc.
    destruct (is_digit_inv c Hc) as [Hv Hchar].
    simpl fraction_chars. rewrite digits_val_snoc.
    replace ((10 * Num.digits_val ds' + Num.digit_val c) / 10)
      with (Num.digits_val ds')
      by (apply Z.div_unique with (Num.digit_val c); lia).
    replace ((10 * Num.digits_val ds' + Num.digit_val c) mod 10)
      with (Num.digit_val c)
      by (apply Z.mod_unique with (Num.digits_val ds'); lia).
    rewrite IH by (assumption || lia). rewrite Hchar. reflexivity.
Qed.

Lemma drop_while_zeros (k : nat) (l : list ascii) :
  Str.drop_while is_zero_char (repeat "0"%char k ++ l)
  = Str.drop_while is_zero_char l.
Proof. induction k as [|k IH]; [reflexivity | exact IH]. Qed.

Lemma drop_while_suffix (p : ascii -> bool) (l : list ascii) :
  exists k, l = firstn k l ++ Str.drop_while p l
            /\ forallb p (firstn k l) = true.
Proof.
  induction l as [|c l (k & Hl & Hp)].
  - exists 0%nat. split; reflexivity.
  - simpl. destruct (p c) eqn:Hc.
    + exists (S k). simpl. rewrite Hc, Hp. rewrite <- Hl. split; reflexivity.
    + exists 0%nat. split; reflexivity.
Qed.

Lemma forallb_zero_repeat (l : list ascii) :
  forallb is_zero_char l = true -> l = repeat "0"%char (length l).
Proof.
  induction l as [|c l IH]; [reflexivity|]. simpl. intros H.
  apply andb_prop in H as [Hc Hl]. apply Ascii.eqb_eq in Hc. subst c.
  rewrite <- IH by exact Hl. reflexivity.
Qed.

(** What [trim_fraction] drops is a run of zeros, and a digit remains. *)
Lemma trim_fraction_spec (f : list ascii) :
  f <> [] ->
  exists k, f = trim_fraction f ++ repeat "0"%char k /\ trim_fraction f <> [].
Proof.
  intros Hne. unfold trim_fraction.
  destruct (drop_while_suffix is_zero_char (rev f)) as (k & Hsplit & Hzeros).
  apply forallb_zero_repeat in Hzeros.
  set (kept := Str.drop_while is_zero_char (rev f)) in *.
  assert (Hf : f = rev kept ++ repeat "0"%char (length (firstn k (rev f)))).
  { rewrite <- (rev_involutive f), Hsplit at 1. rewrite rev_app_distr.
    rewrite Hzeros at 1. rewrite rev_repeat. reflexivity. }
  destruct (rev kept) as [|c kept'] eqn:Hkept.
  - simpl in Hf. destruct (length (firstn k (rev f))) as [|n] eqn:Hn.
    + simpl in Hf. contradiction.
    + exists n. split; [|discriminate].
      rewrite Hf. reflexivity.
  - exists (length (firstn k (rev f))). split; [exact Hf | discriminate].
Qed.

Lemma trim_fraction_digits (f : list ascii) :
  forallb Str.is_digit f = true -> forallb Str.is_digit (trim_fraction f) = true.
Proof.
  intros Hd. destruct f as [|c f]; [reflexivity|].
  destruct (trim_fraction_spec (c :: f)) as (k & Hsplit & _); [discriminate|].
  rewrite Hsplit, forallb_app in Hd. apply andb_prop in Hd as [Hd _]. exact Hd.
Qed.

(** Padding a trimmed fraction gives the fraction back. *)
Lemma trim_fraction_pad (f : list ascii) :
  f <> [] ->
  trim_fraction f ++ repeat "0"%char (length f - length (trim_fraction f)) = f.
Proof.
  intros Hne. destruct (trim_fraction_spec f Hne) as (k & Hsplit & _).
  remember (trim_fraction f) as t eqn:Ht. clear Ht. subst f.
  rewrite length_app, repeat_length.
  replace (length t + k - length t)%nat with k by lia.
  reflexivity.
Qed.

Lemma take_while_app (p : ascii -> bool) (a rest : list ascii) :
  forallb p a = true ->
  match rest with [] => true | c :: _ => negb (p c) end = true ->
  Str.take_while p (a ++ rest) = a.
Proof.
  intros Ha Hrest. induction a as [|c a IH]; simpl in *.
  - destruct rest as [|c rest]; [reflexivity|].
    simpl. apply negb_true_iff in Hrest. rewrite Hrest. reflexivity.
  - apply andb_prop in Ha as [Hc Ha]. rewrite Hc, IH by exact Ha. reflexivity.
Qed.

(** *** Reading a numeral *)

(** A numeral put together from its parts is split into these parts. *)
Lemma split_numeral_build (negative has_point : bool) (whole fraction : list ascii) :
  forallb Str.is_digit whole = true -> whole <> [] ->
  forallb Str.is_digit fraction = true ->
  (has_point = false -> fraction = []) ->
  split_numeral (sign_chars negative ++ whole ++ point_chars has_point fraction)
  = Some (negative, whole, fraction).
Proof.
  intros Hw Hne Hf Hpoint. unfold split_numeral.
  set (body := whole ++ point_chars has_point fraction).
  assert (Hsign : match sign_chars negative ++ body with
                  | c :: s' => if Ascii.eqb c "-" then (true, s')
                               else (false, sign_chars negative ++ body)
                  | [] => (false, sign_chars negative ++ body)
                  end = (negative, body)).
  { destruct negative; simpl; [reflexivity|].
    unfold body. destruct whole as [|c whole]; [contradiction|]. simpl.
    simpl in Hw. apply andb_prop in Hw as [Hc _].
    rewrite (is_digit_not_minus c Hc). reflexivity. }
  rewrite Hsign. clear Hsign.
  assert (Htake : Str.take_while Str.is_digit body = whole).
  { apply take_while_app; [exact Hw|]. destruct has_point; reflexivity. }
  rewrite Htake. unfold body.
  rewrite skipn_app, Nat.sub_diag, skipn_all, skipn_O, app_nil_l.
  assert (Hfrac : match point_chars has_point fraction with
                  | c :: f => if Ascii.eqb c "." then f
                              else point_chars has_point fraction
                  | [] => point_chars has_point fraction
                  end = fraction).
  { destruct has_point; simpl; [reflexivity|]. symmetry. apply Hpoint. reflexivity. }
  rewrite Hfrac, Hf. simpl.
  destruct whole as [|c whole]; [contradiction|]. reflexivity.
Qed.

Lemma format_chars_parts (n : Z) (d : nat) :
  format_chars n d
  = sign_chars (n <? 0)
    ++ Num.nat_chars 10 (Z.abs n / 10 ^ Z.of_nat d)
    ++ point_chars (negb (d =? 0)%nat)
         (match d with
          | O => []
          | S _ => trim_fraction (fraction_chars d (Z.abs n mod 10 ^ Z.of_nat d))
          end).
Proof.
  unfold format_chars, sign_chars, point_chars.
  destruct d as [|d]; simpl negb; cbv iota; [rewrite app_nil_r|]; reflexivity.
Qed.

(** Reading what [formatUnits] wrote gives the integer back. *)
Lemma parse_format_chars (n : Z) (d : nat) :
  parse_chars (format_chars n d) d = Some n.
Proof.
  set (scale := 10 ^ Z.of_nat d).
  assert (Hscale : 0 < scale) by (apply Z.pow_pos_nonneg; lia).
  set (q := Z.abs n / scale). set (r := Z.abs n mod scale).
  assert (Hq : 0 <= q) by (apply Z.div_pos; lia).
  assert (Hr : 0 <= r < scale) by (apply Z.mod_pos_bound; lia).
  assert (Hqr : Z.abs n = q * scale + r)
    by (pose proof (Z.div_mod (Z.abs n) scale ltac:(lia)); fold q r in H; lia).
  unfold parse_chars. rewrite format_chars_parts. fold scale q r.
  rewrite split_numeral_build.
  - (* the value *)
    assert (Hwhole : match Num.nat_chars 10 q with
                     | [] => ["0"%char]
                     | _ => Num.nat_chars 10 q
                     end = Num.nat_chars 10 q).
    { pose proof (nat_chars_nonempty q). destruct (Num.nat_chars 10 q);
        [contradiction | reflexivity]. }
    rewrite Hwhole. clear Hwhole.
    assert (Hpad : match d with
                   | O => []
                   | S _ => trim_fraction (fraction_chars d r)
                   end
                   ++ repeat "0"%char
                        (d - length match d with
                                    | O => []
                                    | S _ => trim_fraction (fraction_chars d r)
                                    end)
                   = fraction_chars d r).
    { destruct d as [|d']; [reflexivity|].
      pose proof (trim_fraction_pad (fraction_chars (S d') r)) as Hpad.
      rewrite fraction_chars_length in Hpad. apply Hpad.
      intros Hnil. apply (f_equal (@length ascii)) in Hnil.
      rewrite fraction_chars_length in Hnil. discriminate Hnil. }
    rewrite Hpad. clear Hpad.
    rewrite skipn_all2, firstn_all2 by (rewrite fraction_chars_length; lia).
    simpl forallb. cbv iota.
    rewrite digits_val_app, fraction_chars_length, nat_chars_val,
      fraction_chars_val by assumption.
    fold scale. f_equal. destruct (Z.ltb_spec n 0); lia.
  - apply nat_chars_digits. exact Hq.
  - apply nat_chars_nonempty.
  - destruct d; [reflexivity|]. apply trim_fraction_digits, fraction_chars_digits.
  - destruct d; [reflexivity | discriminate].
Qed.

Lemma chars_of_chars (l : list ascii) : Str.chars (Str.of_chars l) = l.
Proof. apply list_ascii_of_string_of_list_ascii. Qed.

Lemma of_chars_chars (s : string) : Str.of_chars (Str.chars s) = s.
Proof. apply string_of_list_ascii_of_string. Qed.

Lemma parse_format (n : Z) (d : nat) : parseUnits (formatUnits n d) d = Some n.
Proof.
  unfold parseUnits, formatUnits. rewrite chars_of_chars. apply parse_format_chars.
Qed.

(** *** Writing a numeral that was read *)

Lemma take_while_skipn (p : ascii -> bool) (l : list ascii) :
  l = Str.take_while p l ++ skipn (length (Str.take_while p l)) l
  /\ match skipn (length (Str.take_while p l)) l with
     | [] => True
     | c :: _ => p c = false
     end.
Proof.
  induction l as [|c l [IH1 IH2]]; [split; [reflexivity | exact I]|].
  simpl. destruct (p c) eqn:Hc; simpl.
  - split; [f_equal; exact IH1 | exact IH2].
  - split; [reflexivity | exact Hc].
Qed.

(** The parts [split_numeral] finds are the parts of the string. *)
Lemma split_numeral_inv (s : list ascii) negative whole fraction :
  split_numeral s = Some (negative, whole, fraction) ->
  forallb Str.is_digit whole = true
  /\ forallb Str.is_digit fraction = true
  /\ exists has_point,
       s = sign_chars negative ++ whole ++ point_chars has_point fraction
       /\ (has_point = false -> fraction = []).
Proof.
  unfold split_numeral.
  set (stripped := match s with
                   | c :: s' => if Ascii.eqb c "-" then (true, s') else (false, s)
                   | [] => (false, s)
                   end).
  assert (Hs : s = sign_chars (fst stripped) ++ snd stripped).
  { unfold stripped. destruct s as [|c s]; [reflexivity|].
    destruct (Ascii.eqb_spec c "-") as [->|]; reflexivity. }
  destruct stripped as [neg body]. simpl in Hs.
  destruct (take_while_skipn Str.is_digit body) as [Hbody Hrest].
  set (w := Str.take_while Str.is_digit body) in *.
  set (rest := skipn (length w) body) in *.
  assert (Hw : forallb Str.is_digit w = true).
  { unfold w. clear. induction body as [|c body IH]; [reflexivity|].
    simpl. destruct (Str.is_digit c) eqn:Hc; [|reflexivity].
    simpl. rewrite Hc, IH. reflexivity. }
  set (f := match rest with
            | c :: f => if Ascii.eqb c "." then f else rest
            | [] => rest
            end).
  destruct (forallb Str.is_digit f && negb (length w + length f =? 0)%nat)
    eqn:Hok; [|discriminate].
  intros H. injection H as <- <- <-.
  apply andb_prop in Hok as [Hf _].
  split; [exact Hw|]. split; [exact Hf|].
  unfold f in *. destruct rest as [|c rest'] eqn:Erest.
  - exists false. split; [|reflexivity].
    rewrite Hs, Hbody. reflexivity.
  - destruct (Ascii.eqb_spec c ".") as [->|Hne].
    + exists true. split; [|discriminate]. rewrite Hs, Hbody. reflexivity.
    + simpl in Hf. rewrite Hrest in Hf. discriminate Hf.
Qed.

Lemma digit_val_zero (c : ascii) :
  Str.is_digit c = true -> Num.digit_val c = 0 -> is_zero_char c = true.
Proof.
  intros Hc Hv. destruct (is_digit_inv c Hc) as [_ Hchar].
  rewrite Hv in Hchar. subst c. reflexivity.
Qed.

(** Only zeros have the value zero. *)
Lemma digits_val_zero (ds : list ascii) :
  forallb Str.is_digit ds = true -> Num.digits_val ds = 0 ->
  forallb is_zero_char ds = true.
Proof.
  induction ds as [|c ds IH]; intros Hd Hv; [reflexivity|].
  simpl in Hd. apply andb_prop in Hd as [Hc Hds].
  change (c :: ds) with ([c] ++ ds) in Hv.
  rewrite digits_val_app, digits_val_single in Hv.
  destruct (is_digit_inv c Hc) as [Hcv _].
  pose proof (digits_val_bounds ds Hds) as Hb.
  assert (Hpow : 0 < 10 ^ Z.of_nat (length ds)) by (apply Z.pow_pos_nonneg; lia).
  assert (Hc0 : Num.digit_val c = 0) by nia.
  rewrite Hc0 in Hv. simpl. rewrite (digit_val_zero c Hc Hc0), IH by (assumption || lia).
  reflexivity.
Qed.

Lemma plain_whole_value (w : list ascii) (c : ascii) :
  forallb Str.is_digit (w ++ [c]) = true -> w <> [] ->
  plain_whole (w ++ [c]) = true ->
  plain_whole w = true /\ 1 <= Num.digits_val w.
Proof.
  intros Hd Hne Hplain. destruct w as [|a w]; [contradiction|].
  simpl in Hplain. rewrite length_app in Hplain. simpl in Hplain.
  replace (length w + 1 =? 0)%nat with false in Hplain
    by (symmetry; apply Nat.eqb_neq; lia).
  rewrite orb_false_r in Hplain.
  split; [simpl; rewrite Hplain; reflexivity|].
  simpl in Hd. apply andb_prop in Hd as [Ha Hd].
  rewrite forallb_app in Hd. apply andb_prop in Hd as [Hw _].
  change (a :: w) with ([a] ++ w). rewrite digits_val_app, digits_val_single.
  destruct (is_digit_inv a Ha) as [Hav _].
  pose proof (digits_val_bounds w Hw) as Hb.
  assert (Hpow : 0 < 10 ^ Z.of_nat (length w)) by (apply Z.pow_pos_nonneg; lia).
  assert (Ha0 : Num.digit_val a <> 0).
  { intros H0. rewrite (digit_val_zero a Ha H0) in Hplain. discriminate Hplain. }
  nia.
Qed.

(** Printing the value of a plain run of digits gives the run back. *)
Lemma to_digits_of_val (fuel : nat) : forall w,
  forallb Str.is_digit w = true -> plain_whole w = true ->
  Num.digits_val w < 2 ^ Z.of_nat (S fuel) ->
  Num.to_digits 10 (S fuel) (Num.digits_val w) = w.
Proof.
  induction fuel as [|fuel IH]; intros w Hd Hplain Hlt;
    (destruct (exists_last (l := w)) as (w' & c & ->);
       [intros ->; discriminate Hplain|]);
    pose proof Hd as Hd';
    rewrite forallb_app in Hd'; apply andb_prop in Hd' as [Hw' Hc];
    simpl in Hc; rewrite andb_true_r in Hc;
    destruct (is_digit_inv c Hc) as [Hcv Hchar];
    rewrite digits_val_snoc in *;
    pose proof (digits_val_bounds w' Hw') as Hb;
    (destruct w' as [|a w'];
       [ change (Num.digits_val []) with 0 in *; simpl Num.to_digits;
         replace (10 * 0 + Num.digit_val c) with (Num.digit_val c) by lia;
         destruct (Z.ltb_spec (Num.digit_val c) 10); [|lia];
         rewrite Hchar; reflexivity
       | destruct (plain_whole_value (a :: w') c Hd ltac:(discriminate) Hplain)
           as [Hplain' Hpos] ]).
  - simpl in Hlt. lia.
  - remember (S fuel) as fuel' eqn:Hfuel.
    simpl Num.to_digits.
    destruct (Z.ltb_spec (10 * Num.digits_val (a :: w') + Num.digit_val c) 10);
      [lia|].
    replace ((10 * Num.digits_val (a :: w') + Num.digit_val c) / 10)
      with (Num.digits_val (a :: w'))
      by (apply Z.div_unique with (Num.digit_val c); lia).
    replace ((10 * Num.digits_val (a :: w') + Num.digit_val c) mod 10)
      with (Num.digit_val c)
      by (apply Z.mod_unique with (Num.digits_val (a :: w')); lia).
    subst fuel'. rewrite IH, Hchar; try assumption; [reflexivity|].
    rewrite (Nat2Z.inj_succ (S fuel)), Z.pow_succ_r in Hlt by lia. lia.
Qed.

Lemma nat_chars_of_val (w : list ascii) :
  forallb Str.is_digit w = true -> plain_whole w = true ->
  Num.nat_chars 10 (Num.digits_val w) = w.
Proof.
  intros Hd Hplain. apply to_digits_of_val; try assumption.
  apply log2_fuel. apply digits_val_bounds. exact Hd.
Qed.

(** Trimming a padded plain fraction gives the fraction back. *)
Lemma trim_fraction_padded (f : list ascii) (k : nat) :
  plain_fraction f = true -> trim_fraction (f ++ repeat "0"%char k) = f.
Proof.
  unfold plain_fraction, trim_fraction. intros Hplain.
  rewrite rev_app_distr, rev_repeat, drop_while_zeros.
  destruct (rev f) as [|c f'] eqn:Hrev; [discriminate Hplain|].
  assert (Hf : f = rev (c :: f')) by (rewrite <- Hrev, rev_involutive; reflexivity).
  simpl in Hplain. simpl Str.drop_while.
  destruct (is_zero_char c) eqn:Hc.
  - simpl in Hplain. apply Nat.eqb_eq in Hplain.
    destruct f'; [|discriminate Hplain]. simpl.
    apply Ascii.eqb_eq in Hc. subst c. rewrite Hf. reflexivity.
  - rewrite <- Hf. destruct f; [discriminate Hrev | reflexivity].
Qed.

(** Writing the integer read from a numeral in the shape of [formatUnits]
    gives the numeral back. *)
Lemma format_parse_chars (s : list ascii) (d : nat) (n : Z) :
  parse_chars s d = Some n -> canonical s d = true -> format_chars n d = s.
Proof.
  unfold parse_chars, canonical.
  destruct (split_numeral s) as [[[neg w] f]|] eqn:Hsplit; [|discriminate].
  destruct (split_numeral_inv _ _ _ _ Hsplit) as (Hw & Hf & hp & Hs & Hhp).
  intros Hparse Hcanon.
  apply andb_prop in Hcanon as [Hcanon Hsign].
  apply andb_prop in Hcanon as [Hplain Hshape].
  assert (Hwhole : match w with [] => ["0"%char] | _ => w end = w)
    by (destruct w; [discriminate Hplain | reflexivity]).
  rewrite Hwhole in Hparse. clear Hwhole.
  (* the shape of the fraction *)
  assert (Hfrac : (length f <= d)%nat
                  /\ point_chars hp f = point_chars (negb (d =? 0)%nat) f
                  /\ match d with
                     | O => []
                     | S _ => trim_fraction (f ++ repeat "0"%char (d - length f))
                     end = f).
  { destruct d as [|d'].
    - apply Nat.eqb_eq in Hshape. rewrite Hs in Hshape.
      rewrite !length_app in Hshape.
      assert (Hsl : length (sign_chars neg) = if neg then 1%nat else 0%nat)
        by (destruct neg; reflexivity).
      destruct hp; simpl in Hshape; [lia|].
      rewrite (Hhp eq_refl). repeat split; reflexivity || (simpl; lia).
    - apply andb_prop in Hshape as [Hpf Hlen]. apply Nat.leb_le in Hlen.
      split; [exact Hlen|]. split.
      + destruct hp; [reflexivity|]. rewrite (Hhp eq_refl) in Hpf. discriminate Hpf.
      + apply trim_fraction_padded. exact Hpf. }
  destruct Hfrac as (Hlen & Hpoint & Htrim).
  set (padded := f ++ repeat "0"%char (d - length f)) in *.
  assert (Hplen : length padded = d)
    by (unfold padded; rewrite length_app, repeat_length; lia).
  assert (Hpd : forallb Str.is_digit padded = true).
  { unfold padded. rewrite forallb_app, Hf. simpl.
    clear. induction (d - length f)%nat; [reflexivity | exact IHn]. }
  rewrite skipn_all2, firstn_all2 in Hparse by lia. simpl in Hparse.
  injection Hparse as Hn.
  (* the value *)
  set (scale := 10 ^ Z.of_nat d).
  assert (Hscale : 0 < scale) by (apply Z.pow_pos_nonneg; lia).
  pose proof (digits_val_bounds w Hw) as Hbw.
  pose proof (digits_val_bounds padded Hpd) as Hbp. rewrite Hplen in Hbp. fold scale in Hbp.
  assert (Hv : Num.digits_val (w ++ padded)
               = Num.digits_val w * scale + Num.digits_val padded)
    by (rewrite digits_val_app, Hplen; reflexivity).
  assert (Hneg : (n <? 0) = neg).
  { destruct neg.
    - apply Z.ltb_lt. simpl in Hsign. apply negb_true_iff in Hsign.
      destruct (Z.eq_dec (Num.digits_val (w ++ padded)) 0) as [H0|H0]; [|nia].
      exfalso. apply digits_val_zero in H0;
        [|rewrite forallb_app, Hw, Hpd; reflexivity].
      unfold padded in H0. rewrite !forallb_app in H0.
      rewrite forallb_app in Hsign.
      destruct (forallb is_zero_char w); [|discriminate H0].
      destruct (forallb is_zero_char f); [discriminate Hsign | discriminate H0].
    - apply Z.ltb_ge. nia. }
  assert (Habs : Z.abs n = Num.digits_val w * scale + Num.digits_val padded)
    by (destruct neg; lia).
  rewrite format_chars_parts. fold scale. rewrite Hneg, Habs.
  replace ((Num.digits_val w * scale + Num.digits_val padded) / scale)
    with (Num.digits_val w)
    by (apply Z.div_unique with (Num.digits_val padded); lia).
  replace ((Num.digits_val w * scale + Num.digits_val padded) mod scale)
    with (Num.digits_val padded)
    by (apply Z.mod_unique with (Num.digits_val w); lia).
  rewrite nat_chars_of_val by assumption.
  rewrite fraction_chars_of_val by assumption.
  rewrite Htrim, <- Hpoint. symmetry. exact Hs.
Qed.

Lemma format_parse (s : string) (d : nat) (n : Z) :
  parseUnits s d = Some n -> canonical (Str.chars s) d = true ->
  formatUnits n d = s.
Proof.
  unfold parseUnits, formatUnits. intros Hparse Hcanon.
  rewrite (format_parse_chars _ _ _ Hparse Hcanon). apply of_chars_chars.
Qed.

(** *** The shape of what [formatUnits] writes *)

Lemma digit_char_nonzero (k : Z) :
  1 <= k < 10 -> is_zero_char (Num.digit_char k) = false.
Proof.
  intros H. assert (H' : 0 <= k < 10) by lia.
  each_digit k H'; (reflexivity || lia).
Qed.

(** The first digit printed for a positive integer is not a zero. *)
Lemma to_digits_head (fuel : nat) : forall q,
  1 <= q < 2 ^ Z.of_nat fuel ->
  exists c rest, Num.to_digits 10 fuel q = c :: rest /\ is_zero_char c = false.
Proof.
  induction fuel as [|fuel IH]; intros q Hq; [simpl in Hq; lia|].
  simpl Num.to_digits. destruct (Z.ltb_spec q 10).
  - exists (Num.digit_char q), []. split; [reflexivity|].
    apply digit_char_nonzero. lia.
  - destruct (IH (q / 10)) as (c & rest & Heq & Hc).
    { rewrite Nat2Z.inj_succ, Z.pow_succ_r in Hq by lia.
      split; [apply Z.div_le_lower_bound; lia|].
      apply Z.div_lt_upper_bound; lia. }
    exists c, (rest ++ [Num.digit_char (q mod 10)]).
    rewrite Heq. split; [reflexivity | exact Hc].
Qed.

Lemma nat_chars_plain (q : Z) : 0 <= q -> plain_whole (Num.nat_chars 10 q) = true.
Proof.
  intros Hq. destruct (Z.eq_dec q 0) as [->|Hne]; [reflexivity|].
  destruct (to_digits_head (S (Z.to_nat (Z.log2 q))) q) as (c & rest & Heq & Hc).
  { split; [lia | apply log2_fuel; exact Hq]. }
  unfold Num.nat_chars. rewrite Heq. simpl. rewrite Hc. reflexivity.
Qed.

Lemma drop_while_head (p : ascii -> bool) (l : list ascii) :
  match Str.drop_while p l with
  | [] => True
  | c :: _ => p c = false
  end.
Proof.
  induction l as [|c l IH]; [exact I|]. simpl.
  destruct (p c) eqn:Hc; [exact IH | exact Hc].
Qed.

Lemma trim_fraction_plain (f : list ascii) : plain_fraction (trim_fraction f) = true.
Proof.
  unfold plain_fraction, trim_fraction.
  pose proof (drop_while_head is_zero_char (rev f)) as Hhead.
  destruct (Str.drop_while is_zero_char (rev f)) as [|c kept]; [reflexivity|].
  assert (Hrev : rev (c :: kept) <> []).
  { intros H. apply (f_equal (@rev ascii)) in H. rewrite rev_involutive in H.
    discriminate H. }
  destruct (rev (c :: kept)) as [|a l] eqn:Heq; [contradiction|].
  rewrite <- Heq, rev_involutive. simpl. rewrite Hhead. reflexivity.
Qed.

Lemma trim_fraction_length (f : list ascii) :
  f <> [] -> (length (trim_fraction f) <= length f)%nat.
Proof.
  intros Hne. destruct (trim_fraction_spec f Hne) as (k & Hsplit & _).
  rewrite Hsplit at 2. rewrite length_app. lia.
Qed.

Lemma zeros_val (ds : list ascii) :
  forallb is_zero_char ds = true -> Num.digits_val ds = 0.
Proof.
  intros H. rewrite (forallb_zero_repeat ds H). apply digits_val_zeros.
Qed.

(** What [formatUnits] writes is a numeral in its own shape. *)
Lemma format_chars_canonical (n : Z) (d : nat) : canonical (format_chars n d) d = true.
Proof.
  set (scale := 10 ^ Z.of_nat d).
  assert (Hscale : 0 < scale) by (apply Z.pow_pos_nonneg; lia).
  set (q := Z.abs n / scale). set (r := Z.abs n mod scale).
  assert (Hq : 0 <= q) by (apply Z.div_pos; lia).
  assert (Hr : 0 <= r < scale) by (apply Z.mod_pos_bound; lia).
  assert (Hqr : Z.abs n = q * scale + r)
    by (pose proof (Z.div_mod (Z.abs n) scale ltac:(lia)); fold q r in H; lia).
  set (f := match d with
            | O => []
            | S _ => trim_fraction (fraction_chars d r)
            end).
  assert (Hfd : forallb Str.is_digit f = true)
    by (unfold f; destruct d; [reflexivity|];
        apply trim_fraction_digits, fraction_chars_digits).
  assert (Hfne : forall d', d = S d' -> fraction_chars d r <> []).
  { intros d' -> Hnil. apply (f_equal (@length ascii)) in Hnil.
    rewrite fraction_chars_length in Hnil. discriminate Hnil. }
  unfold canonical. rewrite format_chars_parts. fold scale q r f.
  rewrite split_numeral_build;
    [| apply nat_chars_digits; exact Hq | apply nat_chars_nonempty | exact Hfd
     | unfold f; destruct d; [reflexivity | discriminate] ].
  rewrite nat_chars_plain by exact Hq. simpl andb.
  apply andb_true_intro. split.
  - destruct d as [|d'].
    + simpl. rewrite app_nil_r, length_app.
      apply Nat.eqb_eq. destruct (n <? 0); reflexivity.
    + unfold f. rewrite trim_fraction_plain. simpl.
      apply Nat.leb_le.
      pose proof (trim_fraction_length (fraction_chars (S d') r) (Hfne d' eq_refl)) as Hl.
      rewrite fraction_chars_length in Hl. exact Hl.
  - apply negb_true_iff. destruct (Z.ltb_spec n 0) as [Hneg|]; [|reflexivity].
    simpl. rewrite forallb_app.
    destruct (forallb is_zero_char (Num.nat_chars 10 q)) eqn:Hw; [|reflexivity].
    destruct (forallb is_zero_char f) eqn:Hf; [|reflexivity].
    exfalso.
    assert (Hq0 : q = 0)
      by (rewrite <- (nat_chars_val q Hq); apply zeros_val; exact Hw).
    assert (Hr0 : r = 0).
    { destruct d as [|d']; [simpl in scale; lia|].
      rewrite <- (fraction_chars_val (S d') r Hr).
      rewrite <- (trim_fraction_pad (fraction_chars (S d') r) (Hfne d' eq_refl)).
      rewrite digits_val_app. fold f. rewrite (zeros_val f Hf), digits_val_zeros.
      lia. }
    lia.
Qed.

Lemma format_canonical (n : Z) (d : nat) :
  canonical (Str.chars (formatUnits n d)) d = true.
Proof. unfold formatUnits. rewrite chars_of_chars. apply format_chars_canonical. Qed.

(** A numeral with no more digits in its fraction than the token has
    decimals is read, and its integer is the one its digits denote once
    the fraction is padded to the precision. *)
Lemma parse_defined (s : string) (d : nat) negative whole fraction :
  split_numeral (Str.chars s) = Some (negative, whole, fraction) ->
  (length fraction <= d)%nat ->
  parseUnits s d
  = Some ((if negative then -1 else 1)
          * Num.digits_val (whole ++ fraction ++ repeat "0"%char (d - length fraction))).
Proof.
  intros Hsplit Hlen. unfold parseUnits, parse_chars. rewrite Hsplit.
  set (padded := fraction ++ repeat "0"%char (d - length fraction)).
  assert (Hplen : length padded = d)
    by (unfold padded; rewrite length_app, repeat_length; lia).
  rewrite skipn_all2, firstn_all2 by lia. simpl forallb. cbv iota.
  assert (Hwhole : Num.digits_val (match whole with [] => ["0"%char] | _ => whole end
                                   ++ padded)
                   = Num.digits_val (whole ++ padded)).
  { destruct whole; [|reflexivity]. rewrite !digits_val_app. reflexivity. }
  rewrite Hwhole. f_equal. destruct negative; lia.
Qed.

End UnitsFacts.

(** C4: a decimal numeral whose fraction has no more digits than the token
    has decimals is converted to the integer its digits denote at that
    precision, exactly; converting the integer back gives a numeral in the
    shape [formatUnits] writes that denotes the same amount (it converts to
    the same integer), and gives the very string when the string is in
    that shape already; ["123.456"] at 18 decimals converts to
    [123456000000000000000] and back to ["123.456"]. *)
Theorem units_round_trip (s : string) (d : nat)
    (negative : bool) (whole fraction : list ascii) :
  Units.split_numeral (Str.chars s) = Some (negative, whole, fraction) ->
  (length fraction <= d)%nat ->
  exists n : Z,
    Units.parseUnits s d = Some n
    /\ n = (if negative then -1 else 1)
           * Num.digits_val (whole ++ fraction ++ repeat "0"%char (d - length fraction))
    /\ Units.parseUnits (Units.formatUnits n d) d = Units.parseUnits s d
    /\ Units.canonical (Str.chars (Units.formatUnits n d)) d = true
    /\ (Units.canonical (Str.chars s) d = true -> Units.formatUnits n d = s)
    /\ Units.parseUnits "123.456" 18 = Some 123456000000000000000
    /\ Units.formatUnits 123456000000000000000 18 = "123.456".
Proof.
  intros Hsplit Hlen.
  pose proof (UnitsFacts.parse_defined s d _ _ _ Hsplit Hlen) as Hparse.
  eexists. split; [exact Hparse|]. split; [reflexivity|].
  split; [rewrite Hparse; apply UnitsFacts.parse_format|].
  split; [apply UnitsFacts.format_canonical|].
  split; [apply UnitsFacts.format_parse; exact Hparse|].
  split; vm_compute; reflexivity.
Qed.

(** The example of the specification. *)
Lemma units_round_trip_witness :
  Units.split_numeral (Str.chars "123.456")
  = Some (false, Str.chars "123", Str.chars "456")
  /\ Units.canonical (Str.chars "123.456") 18 = true
  /\ exists n : Z,
       Units.parseUnits "123.456" 18 = Some n
       /\ Units.parseUnits (Units.formatUnits n 18) 18 = Units.parseUnits "123.456" 18
       /\ Units.formatUnits n 18 = "123.456".
Proof.
  assert (Hsplit : Units.split_numeral (Str.chars "123.456")
                   = Some (false, Str.chars "123", Str.chars "456"))
    by (vm_compute; reflexivity).
  assert (Hcanon : Units.canonical (Str.chars "123.456") 18 = true)
    by (vm_compute; reflexivity).
  split; [exact Hsplit|]. split; [exact Hcanon|].
  destruct (units_round_trip "123.456" 18 false (Str.chars "123") (Str.chars "456")
              Hsplit ltac:(vm_compute; lia))
    as (n & Hparse & _ & Hvalue & _ & Hstring & _).
  exists n. split; [exact Hparse|]. split; [exact Hvalue|]. exact (Hstring Hcanon).
Defined.

(** ** The failures [secureFetch] retries *)

Lemma includes_chars_head_absent (c : ascii) (pat s : list ascii) :
  Forall (fun x => x <> c) s -> Str.includes_chars (c :: pat) s = false.
Proof.
  induction s as [|x s IH]; intros Hs; [reflexivity|].
  apply Forall_cons in Hs as [Hx Hs]. simpl.
  destruct (Ascii.eqb_spec c x) as [->|_]; [contradiction|].
  simpl. exact (IH Hs).
Qed.

Lemma chars_append (a b : string) : Str.chars (a +:+ b) = Str.chars a ++ Str.chars b.
Proof.
  unfold Str.chars. induction a as [|c a IH]; [reflexivity|].
  simpl. rewrite <- IH. reflexivity.
Qed.

Lemma digits_not_R (ds : list ascii) :
  forallb Str.is_digit ds = true -> Forall (fun x => x <> "R"%char) ds.
Proof.
  intros Hd. apply List.Forall_forall. intros x Hx ->.
  rewrite List.forallb_forall in Hd. specialize (Hd _ Hx). discriminate Hd.
Qed.

(** A response with a non-success status is a retryable failure, whatever
    the status: the message ["HTTP <status>"] has no letter [R]. *)
Lemma http_status_retryable (status : Z) (json : outcome string jsval) :
  retryable (Response false status json) = true.
Proof.
  unfold retryable, settle. simpl negb. cbv iota.
  apply negb_true_iff. unfold Str.includes.
  change (Str.chars "Rate limit") with ("R"%char :: Str.chars "ate limit").
  apply includes_chars_head_absent.
  rewrite chars_append. apply Forall_app. split.
  - repeat constructor; discriminate.
  - unfold Num.toString. rewrite UnitsFacts.chars_of_chars. unfold Num.int_chars.
    destruct (Z.ltb_spec status 0).
    + constructor; [discriminate|].
      apply digits_not_R, UnitsFacts.nat_chars_digits. lia.
    + apply digits_not_R, UnitsFacts.nat_chars_digits. lia.
Qed.

(** ** The value [getBalance] of [useKAIToken] returns on a failure *)

(** With at least one decimal [formatUnits] writes a point. *)
Lemma formatUnits_not_zero (n : Z) (d : nat) : Units.formatUnits n (S d) <> "0".
Proof.
  intros H. apply (f_equal Str.chars) in H.
  unfold Units.formatUnits in H. rewrite UnitsFacts.chars_of_chars in H.
  assert (Hpoint : In "."%char (Units.format_chars n (S d))).
  { unfold Units.format_chars. apply in_or_app. right.
    apply in_or_app. right. left. reflexivity. }
  rewrite H in Hpoint. destruct Hpoint as [Hp|[]]. discriminate Hp.
Qed.

Section TokenBalance.

Context (config : Config.ContractConfig)
        (ethereum : option (WalletRequest -> outcome RpcError unit))
        (signer : outcome string string)
        (chain : Contract -> string -> list jsval -> outcome string Z).

(** C10, as the code has it: [useKAIToken().getBalance] returns the string
    ["0"], with the message of the failure in the error slot and the
    loading flag off, whenever a step fails: the contract is not configured
    or there is no provider ([getContract] throws), the read of the balance
    throws, or the read of the decimals throws.  When every step succeeds
    it returns the formatted balance and the error slot is empty.  The
    formatted balance of a token with at least one decimal has a point, a
    zero balance being ["0.0"]: when the token reports at least one
    decimal, the value returned is ["0"] exactly when the lookup failed,
    that is exactly when a message is in the error slot, so the value does
    tell a failed lookup from a zero balance.  Only for a token that
    reports no decimals is a zero balance returned as ["0"], the value of a
    failed lookup. *)
Theorem token_getBalance_sentinel (address : jsval) (st : useKAIToken.State)
    (tr : list HookEvent) :
  (forall e tr1,
     getContract config ethereum signer "KAIToken" false tr = (Throw e, tr1) ->
     useKAIToken.getBalance config ethereum signer chain address st tr
     = ("0", {| useKAIToken.loading := false; useKAIToken.error := Some e |}, tr1))
  /\ (forall c tr1,
        getContract config ethereum signer "KAIToken" false tr = (Ok c, tr1) ->
        (forall e, chain c "balanceOf" [address] = Throw e ->
           useKAIToken.getBalance config ethereum signer chain address st tr
           = ("0", {| useKAIToken.loading := false; useKAIToken.error := Some e |},
              tr1 ++ [EvCall c "balanceOf" [address]]))
        /\ (forall balance, chain c "balanceOf" [address] = Ok balance ->
             (forall e, chain c "decimals" [] = Throw e ->
                useKAIToken.getBalance config ethereum signer chain address st tr
                = ("0", {| useKAIToken.loading := false; useKAIToken.error := Some e |},
                   tr1 ++ [EvCall c "balanceOf" [address]; EvCall c "decimals" []]))
             /\ (forall decimals, chain c "decimals" [] = Ok decimals ->
                  useKAIToken.getBalance config ethereum signer chain address st tr
                  = (Units.formatUnits balance (Z.to_nat decimals),
                     {| useKAIToken.loading := false; useKAIToken.error := None |},
                     tr1 ++ [EvCall c "balanceOf" [address]; EvCall c "decimals" []]))))
  /\ ((forall c decimals, chain c "decimals" [] = Ok decimals -> 1 <= decimals) ->
      let result :=
        useKAIToken.getBalance config ethereum signer chain address st tr in
      (fst (fst result) = "0" <-> is_Some (useKAIToken.error (snd (fst result))))
      /\ (useKAIToken.error (snd (fst result)) = None -> fst (fst result) <> "0"))
  /\ (forall c tr1,
        getContract config ethereum signer "KAIToken" false tr = (Ok c, tr1) ->
        chain c "balanceOf" [address] = Ok 0 ->
        chain c "decimals" [] = Ok 0 ->
        useKAIToken.getBalance config ethereum signer chain address st tr
        = ("0", {| useKAIToken.loading := false; useKAIToken.error := None |},
           tr1 ++ [EvCall c "balanceOf" [address]; EvCall c "decimals" []])).
Proof.
  destruct (token_getBalance_steps config ethereum signer chain address st tr)
    as [Hthrow Hsteps].
  split; [exact Hthrow|]. split; [exact Hsteps|]. split.
  - intros Hdecimals result. subst result.
    destruct (getContract config ethereum signer "KAIToken" false tr)
      as [[c|e] tr1] eqn:Hc.
    2: { rewrite (Hthrow e tr1 eq_refl). simpl.
         split; [split; [intros _; eexists; reflexivity | reflexivity]|].
         intros H. discriminate H. }
    destruct (Hsteps c tr1 eq_refl) as [Hbalance Hrest].
    destruct (chain c "balanceOf" [address]) as [balance|e] eqn:Hb.
    2: { rewrite (Hbalance e eq_refl). simpl.
         split; [split; [intros _; eexists; reflexivity | reflexivity]|].
         intros H. discriminate H. }
    destruct (Hrest balance eq_refl) as [Hfail Hok].
    destruct (chain c "decimals" []) as [decimals|e] eqn:Hd.
    2: { rewrite (Hfail e eq_refl). simpl.
         split; [split; [intros _; eexists; reflexivity | reflexivity]|].
         intros H. discriminate H. }
    rewrite (Hok decimals eq_refl). simpl.
    pose proof (Hdecimals c decimals Hd) as Hone.
    assert (Hne : Units.formatUnits balance (Z.to_nat decimals) <> "0").
    { destruct (Z.to_nat decimals) as [|d] eqn:Hnat; [lia|].
      apply formatUnits_not_zero. }
    split; [split|].
    + intros H. contradiction.
    + intros [x H]. discriminate H.
    + intros _. exact Hne.
  - intros c tr1 Hc Hb Hd.
    destruct (Hsteps c tr1 Hc) as [_ Hrest].
    destruct (Hrest 0 Hb) as [_ Hok]. rewrite (Hok 0 Hd). reflexivity.
Qed.

End TokenBalance.

(** A token with 18 decimals on which every balance is zero: the lookup
    succeeds, and what it returns is not ["0"]. *)
Lemma token_getBalance_sentinel_witness :
  let result :=
    useKAIToken.getBalance deployed_config (Some wallet_accepting) (Ok "")
      (chain_zero 18) (JStr "0x52908400098527886e0f7030069857d2e4169ee7")
      idle_token [] in
  (forall c decimals, chain_zero 18 c "decimals" [] = Ok decimals -> 1 <= decimals)
  /\ useKAIToken.error (snd (fst result)) = None
  /\ fst (fst result) <> "0".
Proof.
  assert (Hdecimals : forall c decimals,
            chain_zero 18 c "decimals" [] = Ok decimals -> 1 <= decimals).
  { intros c decimals H. vm_compute in H. injection H as <-. lia. }
  split; [exact Hdecimals|]. split; [vm_compute; reflexivity|].
  apply (proj2 (proj1 (proj2 (proj2
           (token_getBalance_sentinel deployed_config (Some wallet_accepting)
              (Ok "") (chain_zero 18)
              (JStr "0x52908400098527886e0f7030069857d2e4169ee7")
              idle_token []))) Hdecimals)).
  vm_compute. reflexivity.
Defined.

(** Against C10 as stated: with the token at 18 decimals the lookup of an
    empty account succeeds and returns ["0.0"], the lookup on an
    unreachable chain fails and returns ["0"]: the value returned tells the
    zero balance from the failure. *)
Lemma token_getBalance_zero_counterexample :
  let zero_balance :=
    useKAIToken.getBalance deployed_config (Some wallet_accepting) (Ok "")
      (chain_zero 18) (JStr "0x52908400098527886e0f7030069857d2e4169ee7")
      idle_token [] in
  let failed :=
    useKAIToken.getBalance deployed_config (Some wallet_accepting) (Ok "")
      chain_unreachable (JStr "0x52908400098527886e0f7030069857d2e4169ee7")
      idle_token [] in
  fst (fst zero_balance) = "0.0"
  /\ useKAIToken.error (snd (fst zero_balance)) = None
  /\ fst (fst failed) = "0"
  /\ useKAIToken.error (snd (fst failed)) = Some "could not detect network"
  /\ fst (fst zero_balance) <> fst (fst failed).
Proof.
  repeat split; try (vm_compute; reflexivity).
  vm_compute. discriminate.
Qed.

(** * Further properties of the code *)

(** ** Input sanitizer *)

Section SanitizerFacts.

Implicit Types (s t : string) (l : list ascii) (c : ascii).

Lemma remove_all_Forall (P : ascii -> Prop) (m : list ascii -> option nat) l :
  forall skip, Forall P l -> Forall P (Str.remove_all m skip l).
Proof.
  induction l as [|c l IH]; intros skip Hl; [constructor|].
  apply Forall_cons in Hl as [Hc Hl]. simpl.
  destruct skip as [|k]; [|apply IH; exact Hl].
  destruct (m (c :: l)) as [[|k]|]; try (constructor; [exact Hc|]); apply IH; exact Hl.
Qed.

(** After the first replacement no angle bracket is left. *)
Lemma remove_angle_clean l :
  Forall (fun c => c <> "<"%char /\ c <> ">"%char) (Str.remove_all re_angle 0 l).
Proof.
  induction l as [|c l IH]; [constructor|]. simpl.
  destruct ((Str.code c =? 60) || (Str.code c =? 62)) eqn:Hc; [exact IH|].
  constructor; [|exact IH].
  apply orb_false_elim in Hc as [H1 H2].
  apply Z.eqb_neq in H1, H2. split; intros ->; [apply H1 | apply H2]; reflexivity.
Qed.

Lemma drop_while_Forall (P : ascii -> Prop) (p : ascii -> bool) l :
  Forall P l -> Forall P (Str.drop_while p l).
Proof.
  induction l as [|c l IH]; intros Hl; [constructor|]. simpl.
  destruct (p c); [apply IH; apply Forall_cons in Hl as [_ Hl]; exact Hl | exact Hl].
Qed.

Lemma trim_chars_Forall (P : ascii -> Prop) l :
  Forall P l -> Forall P (Str.trim_chars l).
Proof.
  intros Hl. unfold Str.trim_chars.
  apply Forall_rev, drop_while_Forall, Forall_rev, drop_while_Forall. exact Hl.
Qed.

(** The first and the last code unit of a trimmed list are no white space. *)
Lemma trim_chars_head l c rest :
  Str.trim_chars l = c :: rest -> Str.is_space c = false.
Proof.
  unfold Str.trim_chars. set (X := Str.drop_while Str.is_space l).
  destruct (UnitsFacts.drop_while_suffix Str.is_space (rev X)) as (k & Hsplit & _).
  set (Y := Str.drop_while Str.is_space (rev X)) in *.
  intros HY.
  assert (HX : X = (c :: rest) ++ rev (firstn k (rev X))).
  { rewrite <- HY, <- rev_app_distr, <- Hsplit, rev_involutive. reflexivity. }
  pose proof (UnitsFacts.drop_while_head Str.is_space l) as Hhead.
  fold X in Hhead. rewrite HX in Hhead. exact Hhead.
Qed.

Lemma trim_chars_last l c front :
  Str.trim_chars l = front ++ [c] -> Str.is_space c = false.
Proof.
  unfold Str.trim_chars. intros H.
  apply (f_equal (@rev ascii)) in H. rewrite rev_involutive, rev_app_distr in H.
  simpl in H.
  pose proof (UnitsFacts.drop_while_head Str.is_space
                (rev (Str.drop_while Str.is_space l))) as Hhead.
  rewrite H in Hhead. exact Hhead.
Qed.

(** The characters of what [sanitizeInput] returns for a string. *)
Lemma sanitizeInput_chars s :
  exists t,
    sanitizeInput (JStr s) = JStr t
    /\ Str.chars t
       = firstn 1000
           (Str.trim_chars
              (Str.remove_all re_on_handler 0
                 (Str.remove_all re_javascript 0
                    (Str.remove_all re_angle 0 (Str.chars s))))).
Proof.
  eexists. split; [reflexivity|].
  unfold Str.slice0, Str.trim, gsub. rewrite !UnitsFacts.chars_of_chars.
  reflexivity.
Qed.

Lemma sanitizeInput_facts s :
  exists t,
    sanitizeInput (JStr s) = JStr t
    /\ (length (Str.chars t) <= 1000)%nat
    /\ angle_free t
    /\ (forall c rest, Str.chars t = c :: rest -> Str.is_space c = false)
    /\ ((length (Str.chars t) < 1000)%nat -> trimmed t).
Proof.
  destruct (sanitizeInput_chars s) as (t & Heq & Hchars).
  exists t. split; [exact Heq|].
  set (cleaned := Str.remove_all re_on_handler 0
                    (Str.remove_all re_javascript 0
                       (Str.remove_all re_angle 0 (Str.chars s)))) in Hchars.
  assert (Hhead : forall c rest, Str.chars t = c :: rest -> Str.is_space c = false).
  { intros c rest Ht. rewrite Hchars in Ht.
    destruct (Str.trim_chars cleaned) as [|c' l] eqn:Htrim; [discriminate Ht|].
    injection Ht as -> _. exact (trim_chars_head _ _ _ Htrim). }
  split; [rewrite Hchars; apply firstn_le_length|].
  split.
  - unfold angle_free. rewrite Hchars.
    apply Forall_take, trim_chars_Forall.
    do 2 apply remove_all_Forall. apply remove_angle_clean.
  - split; [exact Hhead|]. intros Hshort. split; [exact Hhead|].
    intros c front Ht.
    assert (Hall : Str.chars t = Str.trim_chars cleaned).
    { rewrite Hchars. apply firstn_all2.
      rewrite Hchars, length_firstn in Hshort. lia. }
    rewrite Hall in Ht. exact (trim_chars_last _ _ _ Ht).
Qed.

(** A match of one of the three patterns needs one of [< > : =]. *)
Lemma remove_all_no_match (m : list ascii -> option nat) (P : ascii -> Prop) l :
  (forall c l', P c -> Forall P l' -> m (c :: l') = None) ->
  Forall P l -> Str.remove_all m 0 l = l.
Proof.
  intros Hm. induction l as [|c l IH]; intros Hl; [reflexivity|].
  apply Forall_cons in Hl as [Hc Hl]. simpl.
  rewrite (Hm c l Hc Hl), (IH Hl). reflexivity.
Qed.

Lemma eq_ci_colon c : Str.eq_ci ":"%char c = true -> c = ":"%char.
Proof.
  destruct c as [[] [] [] [] [] [] [] []]; vm_compute; intros H;
    first [reflexivity | discriminate H].
Qed.

Lemma prefix_ci_In pat l x :
  Str.prefix_ci pat l = true -> In x pat ->
  exists c, In c l /\ Str.eq_ci x c = true.
Proof.
  revert l. induction pat as [|p pat IH]; intros l Hpre Hx; [destruct Hx|].
  destruct l as [|c l]; [discriminate Hpre|]. simpl in Hpre.
  apply andb_prop in Hpre as [Hpc Hrest].
  destruct Hx as [->|Hx].
  - exists c. split; [left; reflexivity | exact Hpc].
  - destruct (IH l Hrest Hx) as (c' & Hin & Hc'). exists c'. split; [right; exact Hin | exact Hc'].
Qed.

Lemma re_javascript_needs_colon l :
  Forall (fun c => c <> ":"%char) l -> re_javascript l = None.
Proof.
  intros Hl. unfold re_javascript.
  destruct (Str.prefix_ci (Str.chars "javascript:") l) eqn:Hpre; [|reflexivity].
  exfalso.
  destruct (prefix_ci_In _ _ ":"%char Hpre) as (c & Hin & Hc).
  { vm_compute. tauto. }
  apply eq_ci_colon in Hc. rewrite List.Forall_forall in Hl. exact (Hl c Hin Hc).
Qed.

Lemma re_on_handler_needs_equals l :
  Forall (fun c => c <> "="%char) l -> re_on_handler l = None.
Proof.
  intros Hl. unfold re_on_handler.
  destruct l as [|o [|n rest]]; try reflexivity.
  destruct (Str.eq_ci o "o" && Str.eq_ci n "n"); [|reflexivity].
  set (run := Str.take_while Str.is_word rest).
  destruct run as [|r run']; [reflexivity|].
  destruct (skipn (length (r :: run')) rest) as [|e tl] eqn:Hskip; [reflexivity|].
  destruct (Ascii.eqb e "=") eqn:He; [|reflexivity].
  exfalso. apply Ascii.eqb_eq in He. subst e.
  assert (Hin : In "="%char rest).
  { rewrite <- (firstn_skipn (length (r :: run')) rest), Hskip.
    apply in_or_app. right. left. reflexivity. }
  rewrite List.Forall_forall in Hl. apply (Hl "="%char); [right; right; exact Hin | reflexivity].
Qed.

Lemma drop_while_no_space l :
  (forall c rest, l = c :: rest -> Str.is_space c = false) ->
  Str.drop_while Str.is_space l = l.
Proof.
  destruct l as [|c l]; intros H; [reflexivity|]. simpl.
  rewrite (H c l eq_refl). reflexivity.
Qed.

Lemma trim_chars_trimmed l :
  (forall c rest, l = c :: rest -> Str.is_space c = false) ->
  (forall c front, l = front ++ [c] -> Str.is_space c = false) ->
  Str.trim_chars l = l.
Proof.
  intros Hhead Hlast. unfold Str.trim_chars.
  rewrite (drop_while_no_space l Hhead), drop_while_no_space;
    [apply rev_involutive|].
  intros c rest Hrev. apply (Hlast c (rev rest)).
  rewrite <- (rev_involutive l), Hrev. reflexivity.
Qed.

Lemma sanitizeInput_plain s :
  plain_text s -> trimmed s -> (length (Str.chars s) <= 1000)%nat ->
  sanitizeInput (JStr s) = JStr s.
Proof.
  intros Hplain [Hhead Hlast] Hlen.
  destruct (sanitizeInput_chars s) as (t & Heq & Hchars).
  rewrite Heq. f_equal.
  rewrite <- (UnitsFacts.of_chars_chars t), <- (UnitsFacts.of_chars_chars s).
  f_equal. rewrite Hchars.
  rewrite (remove_all_no_match re_angle
             (fun c => c <> "<"%char /\ c <> ">"%char /\ c <> ":"%char
                       /\ c <> "="%char)).
  - rewrite (remove_all_no_match re_javascript (fun c => c <> ":"%char)).
    + rewrite (remove_all_no_match re_on_handler (fun c => c <> "="%char)).
      * rewrite (trim_chars_trimmed _ Hhead Hlast). apply firstn_all2. exact Hlen.
      * intros c l' Hc Hl'. apply re_on_handler_needs_equals. constructor; assumption.
      * eapply Forall_impl; [exact Hplain|]. simpl. tauto.
    + intros c l' Hc Hl'. apply re_javascript_needs_colon. constructor; assumption.
    + eapply Forall_impl; [exact Hplain|]. simpl. tauto.
  - intros c l' (Hlt & Hgt & _) _. simpl.
    destruct ((Str.code c =? 60) || (Str.code c =? 62)) eqn:Hc; [|reflexivity].
    exfalso. apply orb_prop in Hc as [Hc|Hc]; apply Z.eqb_eq in Hc.
    + apply Hlt. destruct c as [[] [] [] [] [] [] [] []]; vm_compute in Hc;
        first [reflexivity | discriminate Hc].
    + apply Hgt. destruct c as [[] [] [] [] [] [] [] []]; vm_compute in Hc;
        first [reflexivity | discriminate Hc].
  - exact Hplain.
Qed.

End SanitizerFacts.

(** X1: whatever string the sanitizer is given, it returns a string of at
    most 1000 code units without any angle bracket, which does not start
    with white space and, when it is shorter than 1000 code units, does
    not end with white space either. *)
Theorem sanitizeInput_string (s : string) :
  exists t,
    sanitizeInput (JStr s) = JStr t
    /\ (length (Str.chars t) <= 1000)%nat
    /\ angle_free t
    /\ (forall c rest, Str.chars t = c :: rest -> Str.is_space c = false)
    /\ ((length (Str.chars t) < 1000)%nat -> trimmed t).
Proof. exact (sanitizeInput_facts s). Qed.

(** X2: the sanitizer returns unchanged a string of at most 1000 code
    units that has no angle bracket, no colon and no equals sign and that
    neither starts nor ends with white space. *)
Theorem sanitizeInput_plain_unchanged (s : string) :
  plain_text s -> trimmed s -> (length (Str.chars s) <= 1000)%nat ->
  sanitizeInput (JStr s) = JStr s.
Proof. exact (sanitizeInput_plain s). Qed.

Lemma sanitizeInput_plain_unchanged_witness :
  sanitizeInput (JStr "Dar es Salaam, Tanzania") = JStr "Dar es Salaam, Tanzania".
Proof.
  apply sanitizeInput_plain_unchanged.
  - unfold plain_text. simpl. repeat constructor; discriminate.
  - split.
    + intros c rest H. simpl in H. injection H as <- _. reflexivity.
    + intros c front H.
      apply (f_equal (@rev ascii)) in H. rewrite rev_app_distr in H.
      simpl in H. injection H as <- _. reflexivity.
  - simpl. lia.
Defined.

(** ** What the [api] object sends *)

Section ApiFacts.

Variable clock : nat -> Z.
Variable network : nat -> string -> RequestInit -> FetchResult.

Lemma sanitizeInput_sanitized (v : jsval) : sanitized_value (sanitizeInput v).
Proof.
  destruct v as [| |b|n|s]; try exact I.
  destruct (sanitizeInput_facts s) as (t & -> & Hlen & Hfree & _).
  split; assumption.
Qed.

Lemma clampRisk_bounds (x : jsval) : 0 <= api.clampRisk x <= 100.
Proof. unfold api.clampRisk. lia. Qed.

(** X3: whatever the alert data, the state of the client and the behaviour
    of the network, every call of [fetch] that [api.createAlert] makes is a
    [POST] to [/disaster/alerts] whose body has the three fields
    [disasterType], [region] and [riskScore], where the risk score is a
    number from 0 to 100 and the other two fields are sanitized: a string
    among them has at most 1000 code units and no angle bracket. *)
Theorem createAlert_requests (data : api.AlertData) (w : World) :
  exists new,
    trace (snd (api.createAlert clock network data w)) = trace w ++ new
    /\ forall url init, In (EvFetch url init) new ->
         url = "http://127.0.0.1:3333/api/v1/disaster/alerts"
         /\ method init = Some "POST"
         /\ headers init = [("Content-Type", "application/json")]
         /\ exists disasterType region riskScore,
              body init = Some [ ("disasterType", disasterType);
                                 ("region", region);
                                 ("riskScore", JNum riskScore) ]
              /\ sanitized_value disasterType
              /\ sanitized_value region
              /\ 0 <= riskScore <= 100.
Proof.
  unfold api.createAlert.
  match goal with
  | |- context [secureFetch clock network ?url ?options ?r w] =>
      destruct (secureFetch_trace clock network url options r w)
        as (new & Htrace & Hsame & _)
  end.
  exists new. split; [exact Htrace|].
  intros url init Hin. rewrite List.Forall_forall in Hsame.
  destruct (Hsame _ Hin) as [-> ->].
  split; [reflexivity|]. split; [reflexivity|]. split; [reflexivity|].
  eexists _, _, _. split; [reflexivity|].
  split; [apply sanitizeInput_sanitized|].
  split; [apply sanitizeInput_sanitized | apply clampRisk_bounds].
Qed.

(** X4: whatever the user data, the state of the client and the behaviour
    of the network, every call of [fetch] that [api.registerUser] makes is
    a [POST] to [/users/register] whose body has the four fields
    [walletAddress], [region], [countryCode] and [userType], each of them
    sanitized; the wallet address is not checked to be an address. *)
Theorem registerUser_requests (data : api_rest.UserData) (w : World) :
  exists new,
    trace (snd (api_rest.registerUser clock network data w)) = trace w ++ new
    /\ forall url init, In (EvFetch url init) new ->
         url = "http://127.0.0.1:3333/api/v1/users/register"
         /\ method init = Some "POST"
         /\ headers init = [("Content-Type", "application/json")]
         /\ exists walletAddress region countryCode userType,
              body init = Some [ ("walletAddress", walletAddress);
                                 ("region", region);
                                 ("countryCode", countryCode);
                                 ("userType", userType) ]
              /\ sanitized_value walletAddress
              /\ sanitized_value region
              /\ sanitized_value countryCode
              /\ sanitized_value userType
              /\ (forall s, api_rest.walletAddress data = JStr s ->
                    plain_text s -> trimmed s ->
                    (length (Str.chars s) <= 1000)%nat ->
                    walletAddress = JStr s).
Proof.
  unfold api_rest.registerUser.
  match goal with
  | |- context [secureFetch clock network ?url ?options ?r w] =>
      destruct (secureFetch_trace clock network url options r w)
        as (new & Htrace & Hsame & _)
  end.
  exists new. split; [exact Htrace|].
  intros url init Hin. rewrite List.Forall_forall in Hsame.
  destruct (Hsame _ Hin) as [-> ->].
  split; [reflexivity|]. split; [reflexivity|]. split; [reflexivity|].
  eexists _, _, _, _. split; [reflexivity|].
  repeat (split; [apply sanitizeInput_sanitized|]).
  intros s -> Hplain Htrim Hlen. apply sanitizeInput_plain; assumption.
Qed.

End ApiFacts.

(** ** Rate limiter: what it admits *)

Section LimiterAdmission.

Lemma last_In_default (l : list Z) (d : Z) : l <> [] -> In (List.last l d) l.
Proof.
  induction l as [|a l IH]; intros Hne; [contradiction|].
  destruct l as [|b l]; [left; reflexivity|].
  right. apply IH. discriminate.
Qed.

(** The state after a run with a non-decreasing clock, seen from a time
    [now] that is no earlier than any reading of the run. *)
Lemma run_checks_view (times : list Z) (now : Z) :
  Sorted Z.le times -> Forall (fun t => t <= now) times ->
  recentRequests now (fst (run_checks times))
  = in_window now (admitted (snd (run_checks times)))
  /\ Forall (fun t => t <= List.last times now) (fst (run_checks times)).
Proof.
  intros Hsorted Hnow.
  destruct times as [|t0 times'] eqn:Htimes; [split; [reflexivity | constructor]|].
  rewrite <- Htimes in *.
  assert (Hne : times <> []) by (rewrite Htimes; discriminate).
  pose proof (limiter_inv_run_checks times Hsorted) as Hinv.
  assert (Hlast : List.last times 0 <= now).
  { rewrite List.Forall_forall in Hnow. apply Hnow, last_In_default, Hne. }
  assert (Hsame : List.last times now = List.last times 0).
  { rewrite Htimes. rewrite !last_cons_default. reflexivity. }
  rewrite Hsame.
  destruct (run_checks times) as [log history]. simpl.
  destruct Hinv as (Hlog & Hle & _ & _).
  split.
  - rewrite Hlog, (recent_of_filtered _ _ _ Hlast).
    unfold recentRequests, in_window. apply List.filter_ext_in.
    intros t Ht. rewrite List.Forall_forall in Hle. specialize (Hle t Ht).
    assert ((t <=? now) = true) as -> by (apply Z.leb_le; lia).
    rewrite andb_true_r. reflexivity.
  - rewrite Hlog. apply List.Forall_forall. intros t Ht.
    apply List.filter_In in Ht as [Ht _].
    rewrite List.Forall_forall in Hle. exact (Hle t Ht).
Qed.

(** X5: after a run of checks with a non-decreasing clock, the limiter
    admits the next check exactly when fewer than 100 admitted calls lie in
    the 60000 ms window that ends at the check: the limiter never rejects a
    call while the window has room, and the calls it rejected do not count
    against later ones. *)
Theorem limiter_admits_exactly (times : list Z) (now : Z) :
  Sorted Z.le times -> Forall (fun t => t <= now) times ->
  let log := fst (run_checks times) in
  let calls := admitted (snd (run_checks times)) in
  let window :=
    List.filter (fun t => (t >? now - 60000) && (t <=? now)) calls in
  is_ok (fst (checkRateLimit now log)) = (length window <? 100)%nat.
Proof.
  intros Hsorted Hnow log calls window.
  destruct (run_checks_view times now Hsorted Hnow) as [Hview _].
  fold log calls in Hview. unfold checkRateLimit. rewrite Hview.
  change window with (in_window now calls).
  unfold MAX_REQUESTS_PER_WINDOW.
  destruct (Z.of_nat (length (in_window now calls)) >=? 100) eqn:Hfull; simpl;
    symmetry; [apply Nat.ltb_ge | apply Nat.ltb_lt]; lia.
Qed.

Lemma limiter_admits_exactly_witness :
  is_ok (fst (checkRateLimit 6 (fst (run_checks (repeat 5 100 ++ [6])))))
  = false
  /\ is_ok (fst (checkRateLimit 60005 (fst (run_checks (repeat 5 100 ++ [6])))))
     = true.
Proof.
  assert (Hs : Sorted Z.le (repeat 5 100 ++ [6]))
    by (apply non_decreasing_Sorted; vm_compute; reflexivity).
  split.
  - rewrite (limiter_admits_exactly (repeat 5 100 ++ [6]) 6 Hs).
    + vm_compute. reflexivity.
    + apply List.Forall_forall. intros t Ht. apply in_app_or in Ht as [Ht|Ht].
      * apply repeat_spec in Ht. lia.
      * destruct Ht as [<-|[]]. lia.
  - rewrite (limiter_admits_exactly (repeat 5 100 ++ [6]) 60005 Hs).
    + vm_compute. reflexivity.
    + apply List.Forall_forall. intros t Ht. apply in_app_or in Ht as [Ht|Ht].
      * apply repeat_spec in Ht. lia.
      * destruct Ht as [<-|[]]. lia.
Defined.

(** X6: after a run of checks with a non-decreasing clock, a check that
    comes 60000 ms or more after the last one is admitted, however many
    calls were made or rejected before, and it leaves a log that holds
    nothing but its own timestamp. *)
Theorem limiter_recovers (times : list Z) (last_check now : Z) :
  Sorted Z.le times ->
  last times = Some last_check ->
  last_check + 60000 <= now ->
  checkRateLimit now (fst (run_checks times)) = (Ok tt, [now]).
Proof.
  intros Hsorted Hlast Hgap.
  assert (Hd : forall d, List.last times d = last_check)
    by (intros d; apply last_Some_default; exact Hlast).
  assert (Hnow : Forall (fun t => t <= now) times).
  { pose proof (Sorted_StronglySorted Z.le_trans Hsorted) as Hss.
    clear Hsorted Hlast. induction Hss as [|a l Hss IH Hall].
    - constructor.
    - destruct l as [|b l].
      + constructor; [|constructor]. specialize (Hd 0). simpl in Hd. lia.
      + assert (Hd' : forall d, List.last (b :: l) d = last_check).
        { intros d. rewrite <- (Hd d). rewrite !last_cons_default.
          reflexivity. }
        specialize (IH Hd'). constructor; [|exact IH].
        apply Forall_cons in IH as [Hb _]. apply Forall_cons in Hall as [Hab _]. lia. }
  destruct (run_checks_view times now Hsorted Hnow) as [_ Hle].
  rewrite Hd in Hle.
  assert (Hnone : recentRequests now (fst (run_checks times)) = []).
  { unfold recentRequests, RATE_LIMIT_WINDOW.
    induction Hle as [|t l Ht Hl IH]; [reflexivity|]. simpl.
    assert ((t >? now - 60000) = false) as -> by lia. exact IH. }
  unfold checkRateLimit. rewrite Hnone. reflexivity.
Qed.

Lemma limiter_recovers_witness :
  checkRateLimit 60006 (fst (run_checks (repeat 5 100 ++ [6; 6])))
  = (Ok tt, [60006]).
Proof.
  apply (limiter_recovers (repeat 5 100 ++ [6; 6]) 6 60006).
  - apply non_decreasing_Sorted. vm_compute. reflexivity.
  - vm_compute. reflexivity.
  - lia.
Defined.

End LimiterAdmission.

(** ** Resilient fetch wrapper: bounds that hold in every environment *)

Section ClientBounds.

Variable clock : nat -> Z.
Variable network : nat -> string -> RequestInit -> FetchResult.

Implicit Types (url : string) (options : RequestInit) (w : World).

Lemma retry_delay_shift (r m : nat) :
  map (retry_delay r) (seq 1 m) = map (retry_delay (S r)) (seq 2 m).
Proof.
  rewrite <- (List.seq_shift m 1), List.map_map. apply List.map_ext. intros k.
  unfold retry_delay, RETRY_DELAY, MAX_RETRIES. lia.
Qed.

Lemma secureFetch_bounds url options : forall (r : nat) w,
  exists new (m : nat),
    trace (snd (secureFetch clock network url options r w)) = trace w ++ new
    /\ (m <= r)%nat
    /\ delays new = map (retry_delay r) (seq 1 m)
    /\ (fetches new = m \/ fetches new = S m)
    /\ calls (snd (secureFetch clock network url options r w))
       = (calls w + fetches new)%nat
    /\ ticks (snd (secureFetch clock network url options r w))
       = (ticks w + S m)%nat.
Proof.
  induction r as [|r IH]; intros w;
    rewrite secureFetch_eq; unfold checkRateLimit_in;
    destruct (checkRateLimit (clock (ticks w)) (requestLog w)) as [[[]|e] log'];
    try (exists [], 0%nat; simpl; rewrite app_nil_r;
         repeat split; solve [unfold fetches; simpl; lia | left; reflexivity]);
    rewrite attempt_eq; simpl calls; simpl trace;
    set (res := network (calls w) url (fetch_init options));
    assert (Hone : forall v,
              exists new (m : nat),
                trace (snd (v : outcome string jsval,
                            {| requestLog := log'; ticks := S (ticks w);
                               calls := S (calls w);
                               trace := trace w ++ EvFetch url (fetch_init options)
                                          :: attempt_tail res |}))
                = trace w ++ new
                /\ (m <= 0)%nat
                /\ delays new = map (retry_delay 0) (seq 1 m)
                /\ (fetches new = m \/ fetches new = S m)
                /\ S (calls w) = (calls w + fetches new)%nat
                /\ S (ticks w) = (ticks w + S m)%nat)
      by (intros v; exists (EvFetch url (fetch_init options) :: attempt_tail res), 0%nat;
          change (EvFetch url (fetch_init options) :: attempt_tail res)
            with ([EvFetch url (fetch_init options)] ++ attempt_tail res);
          rewrite delays_app, fetches_app,
            (proj1 (attempt_tail_quiet res)), (proj2 (attempt_tail_quiet res));
          simpl; repeat split; solve [unfold fetches; simpl; lia | right; reflexivity]).
  - destruct (settle res) as [v|e]; [exact (Hone (Ok v)) | exact (Hone (Throw e))].
  - assert (Hstop : forall v,
              exists new (m : nat),
                trace (snd (v : outcome string jsval,
                            {| requestLog := log'; ticks := S (ticks w);
                               calls := S (calls w);
                               trace := trace w ++ EvFetch url (fetch_init options)
                                          :: attempt_tail res |}))
                = trace w ++ new
                /\ (m <= S r)%nat
                /\ delays new = map (retry_delay (S r)) (seq 1 m)
                /\ (fetches new = m \/ fetches new = S m)
                /\ S (calls w) = (calls w + fetches new)%nat
                /\ S (ticks w) = (ticks w + S m)%nat).
    { intros v. destruct (Hone v) as (new & m & Ht & Hm & Hd & Hf & Hc & Hk).
      assert (m = 0%nat) as -> by lia.
      exists new, 0%nat. repeat split; try assumption; lia. }
    destruct (settle res) as [v|e]; [exact (Hstop (Ok v))|].
    destruct (Str.includes e "Rate limit"); [exact (Hstop (Throw e))|].
    cbv iota.
    match goal with
    | |- context [secureFetch clock network url options r ?w2] =>
        destruct (IH w2) as (new & m & Htrace & Hm & Hdelays & Hfetches & Hcalls & Hticks);
        set (w' := secureFetch clock network url options r w2) in *
    end.
    set (ms := RETRY_DELAY * (MAX_RETRIES - Z.of_nat (S r) + 1)) in *.
    assert (Hf : fetches ([EvFetch url (fetch_init options)] ++ attempt_tail res
                            ++ [EvDelay ms] ++ new) = S (fetches new))
      by (rewrite !fetches_app, (proj2 (attempt_tail_quiet res)); reflexivity).
    assert (Hd : delays ([EvFetch url (fetch_init options)] ++ attempt_tail res
                           ++ [EvDelay ms] ++ new) = ms :: delays new)
      by (rewrite !delays_app, (proj1 (attempt_tail_quiet res)); reflexivity).
    exists ([EvFetch url (fetch_init options)] ++ attempt_tail res
              ++ [EvDelay ms] ++ new), (S m).
    rewrite Hf, Hd.
    split; [|split; [|split; [|split; [|split]]]].
    + rewrite Htrace. unfold emit. simpl. rewrite <- !app_assoc. reflexivity.
    + lia.
    + rewrite Hdelays. simpl. f_equal. apply retry_delay_shift.
    + destruct Hfetches as [-> | ->]; [left | right]; reflexivity.
    + change (calls (snd w') = (calls w + S (fetches new))%nat).
      rewrite Hcalls. unfold emit. simpl. lia.
    + change (ticks (snd w') = (ticks w + S (S m))%nat).
      rewrite Hticks. unfold emit. simpl. lia.
Qed.

(** X7: whatever the network and the limiter do, a call of [secureFetch]
    with budget [r] makes at most [r + 1] calls of [fetch] and reads the
    clock at most [r + 1] times; its waits are the first [m] delays of the
    schedule of the budget for some [m <= r], one before each retry; and
    with the default budget of 3 it spends at most 6000 ms waiting. *)
Theorem secureFetch_bounded url options (r : nat) w :
  let w' := snd (secureFetch clock network url options r w) in
  exists new (m : nat),
    trace w' = trace w ++ new
    /\ (m <= r)%nat
    /\ delays new = map (retry_delay r) (seq 1 m)
    /\ (fetches new <= S r)%nat
    /\ calls w' = (calls w + fetches new)%nat
    /\ ticks w' = (ticks w + S m)%nat
    /\ (r = default_retries -> 0 <= total_delay new <= 6000).
Proof.
  intros w'. subst w'.
  destruct (secureFetch_bounds url options r w)
    as (new & m & Htrace & Hm & Hdelays & Hfetches & Hcalls & Hticks).
  exists new, m.
  split; [exact Htrace|]. split; [exact Hm|]. split; [exact Hdelays|].
  split; [destruct Hfetches; lia|]. split; [exact Hcalls|].
  split; [exact Hticks|].
  intros ->. unfold total_delay. rewrite Hdelays.
  change default_retries with 3%nat in Hm.
  destruct m as [|[|[|[|m]]]]; [vm_compute; split; discriminate ..| lia].
Qed.

(** With room for them in the log, the limiter admits [n] checks in a row,
    whatever the clock. *)
Lemma limiter_after_room (n : nat) : forall tick log,
  (length log + n <= 100)%nat ->
  exists log', limiter_after clock n tick log = Some log'
               /\ (length log' <= length log + n)%nat.
Proof.
  induction n as [|n IH]; intros tick log Hroom.
  - exists log. split; [reflexivity | lia].
  - simpl. pose proof (recentRequests_length (clock tick) log) as Hrecent.
    rewrite checkRateLimit_admits by (unfold MAX_REQUESTS_PER_WINDOW; lia).
    destruct (IH (S tick) (recentRequests (clock tick) log ++ [clock tick]))
      as (log' & Hlog' & Hlen).
    { rewrite length_app. simpl. lia. }
    exists log'. split; [exact Hlog'|].
    rewrite length_app in Hlen. simpl in Hlen. lia.
Qed.

(** X8: a response with a failure status is retried like any other
    failure, whatever the status and whatever the request: when the log of
    the limiter has room for the attempts and the server answers every
    attempt with a failure status, a call with budget [r] sends the request
    [r + 1] times, waits [r] times and throws [HTTP <status>] for the
    status of the last answer. *)
Theorem secureFetch_http_errors url options (r : nat) w
    (status : nat -> Z) (json : nat -> outcome string jsval) :
  (length (requestLog w) + S r <= 100)%nat ->
  (forall k, network k url (fetch_init options) = Response false (status k) (json k)) ->
  exists w' new,
    secureFetch clock network url options r w
    = (Throw ("HTTP " +:+ Num.toString (status (calls w + r)%nat)), w')
    /\ trace w' = trace w ++ new
    /\ fetches new = S r
    /\ delays new = map (retry_delay r) (seq 1 r).
Proof.
  intros Hroom Hnet.
  destruct (limiter_after_room (S r) (ticks w) (requestLog w) Hroom)
    as (log' & Hlog' & _).
  apply (limiter_after_last clock) in Hlog' as (log_r & Hlog_r & Hcheck).
  destruct (secureFetch_failures clock network url options r 0 w log_r Hlog_r)
    as (new & Heq & Hdelays & Hfetches).
  { intros k _. rewrite Hnet. apply http_status_retryable. }
  rewrite Nat.add_0_r in Heq, Hdelays.
  set (w_r := {| requestLog := log_r; ticks := ticks w + r; calls := calls w + r;
                 trace := trace w ++ new |}) in Heq.
  pose proof (secureFetch_last clock network url options 0 w_r log' Hcheck
                (or_intror eq_refl)) as Hlast.
  change (calls w_r) with (calls w + r)%nat in Hlast. rewrite Hnet in Hlast.
  eexists _, (new ++ [EvFetch url (fetch_init options)]).
  rewrite Heq, Hlast. split; [reflexivity|]. simpl.
  split; [rewrite <- app_assoc; reflexivity|].
  rewrite fetches_app, delays_app, Hdelays, Hfetches. simpl.
  split; [unfold fetches; simpl; lia | apply app_nil_r].
Qed.

(** X9: an attempt that fails with an error whose message contains
    [Rate limit] is never retried, whatever budget remains: when the
    limiter admits the call and [fetch] rejects with such a message, or the
    body of a successful response fails to parse with such a message, the
    call makes this one call of [fetch], waits for nothing and throws the
    message. *)
Theorem secureFetch_rate_limit_message url options (r : nat) w (m : string) :
  (length (requestLog w) < 100)%nat ->
  Str.includes m "Rate limit" = true ->
  network (calls w) url (fetch_init options) = NetworkError m
  \/ (exists status,
        network (calls w) url (fetch_init options) = Response true status (Throw m)) ->
  exists w',
    secureFetch clock network url options r w = (Throw m, w')
    /\ trace w' = trace w ++ [EvFetch url (fetch_init options)]
    /\ calls w' = S (calls w).
Proof.
  intros Hroom Hm Hnet.
  pose proof (recentRequests_length (clock (ticks w)) (requestLog w)) as Hrecent.
  assert (Hcheck : checkRateLimit (clock (ticks w)) (requestLog w)
                   = (Ok tt, recentRequests (clock (ticks w)) (requestLog w)
                               ++ [clock (ticks w)]))
    by (apply checkRateLimit_admits; unfold MAX_REQUESTS_PER_WINDOW; lia).
  eexists.
  rewrite (secureFetch_last clock network url options r w _ Hcheck).
  - destruct Hnet as [-> | [status ->]]; simpl; repeat split; reflexivity.
  - left. unfold retryable.
    destruct Hnet as [-> | [status ->]]; simpl; rewrite Hm; reflexivity.
Qed.

End ClientBounds.

Lemma secureFetch_http_errors_witness :
  exists w' new,
    secureFetch sample_clock (fun _ _ _ => Response false 429 (Ok JNull))
      "http://127.0.0.1:3333/api/v1/disaster/alerts"
      {| method := Some "POST"; body := Some []; headers := [] |}
      3 initial_world
    = (Throw "HTTP 429", w')
    /\ trace w' = new
    /\ fetches new = 4%nat
    /\ delays new = [1000; 2000; 3000].
Proof.
  apply (secureFetch_http_errors sample_clock
           (fun _ _ _ => Response false 429 (Ok JNull))
           "http://127.0.0.1:3333/api/v1/disaster/alerts"
           {| method := Some "POST"; body := Some []; headers := [] |}
           3 initial_world (fun _ => 429) (fun _ => Ok JNull)).
  - simpl. lia.
  - intros k. reflexivity.
Defined.

Lemma secureFetch_rate_limit_message_witness :
  exists w',
    secureFetch sample_clock
      (fun _ _ _ => NetworkError "Rate limit reached upstream")
      "http://127.0.0.1:3333/api/v1/health" no_options 3 initial_world
    = (Throw "Rate limit reached upstream", w')
    /\ trace w' = [EvFetch "http://127.0.0.1:3333/api/v1/health"
                     (fetch_init no_options)]
    /\ calls w' = 1%nat.
Proof.
  apply (secureFetch_rate_limit_message sample_clock
           (fun _ _ _ => NetworkError "Rate limit reached upstream")
           "http://127.0.0.1:3333/api/v1/health" no_options 3 initial_world
           "Rate limit reached upstream").
  - simpl. lia.
  - vm_compute. reflexivity.
  - left. reflexivity.
Defined.

(** ** Explorer links *)

Section ExplorerFacts.

Lemma NETWORKS_lookup (networkId : string) :
  Config.NETWORKS !! networkId
  = if String.eqb networkId "polygon" then Config.NETWORKS !! "polygon"
    else if String.eqb networkId "amoy" then Config.NETWORKS !! "amoy"
    else if String.eqb networkId "hardhat" then Config.NETWORKS !! "hardhat"
    else None.
Proof.
  destruct (String.eqb_spec networkId "polygon") as [->|Hp]; [reflexivity|].
  destruct (String.eqb_spec networkId "amoy") as [->|Ha]; [reflexivity|].
  destruct (String.eqb_spec networkId "hardhat") as [->|Hh]; [reflexivity|].
  unfold Config.NETWORKS. simpl.
  rewrite !lookup_insert_ne by congruence. apply lookup_empty.
Qed.

Lemma append_nonempty (a b : string) : a <> "" -> a +:+ b <> "".
Proof. destruct a; [contradiction | discriminate]. Qed.

(** X10: for a value that prints without an exponent, an explorer link is
    the empty string exactly for a network other than [polygon] and
    [amoy]: for a name that [NETWORKS] does not have and for [hardhat],
    whose explorer is empty; for the other two it is the explorer of the
    network followed by [/address/] or [/tx/] and the value as a template
    literal prints it. *)
Theorem explorer_links (v : jsval) (networkId : string) :
  prints_plainly v ->
  (Explorer.getExplorerUrl v networkId = ""
   <-> networkId <> "polygon" /\ networkId <> "amoy")
  /\ (Explorer.getTxExplorerUrl v networkId = ""
      <-> networkId <> "polygon" /\ networkId <> "amoy")
  /\ (forall network,
        Config.NETWORKS !! networkId = Some network ->
        Config.explorer network <> "" ->
        Explorer.getExplorerUrl v networkId
        = Config.explorer network +:+ "/address/" +:+ ToString v
        /\ Explorer.getTxExplorerUrl v networkId
           = Config.explorer network +:+ "/tx/" +:+ ToString v).
Proof.
  intros _.
  unfold Explorer.getExplorerUrl, Explorer.getTxExplorerUrl, Explorer.explorer_of.
  rewrite (NETWORKS_lookup networkId).
  destruct (String.eqb_spec networkId "polygon") as [->|Hp].
  { split; [|split].
    - split; [intros H; exfalso; revert H; apply append_nonempty; discriminate
             | intros [H _]; contradiction].
    - split; [intros H; exfalso; revert H; apply append_nonempty; discriminate
             | intros [H _]; contradiction].
    - intros network Hn _. vm_compute in Hn. injection Hn as <-. split; reflexivity. }
  destruct (String.eqb_spec networkId "amoy") as [->|Ha].
  { split; [|split].
    - split; [intros H; exfalso; revert H; apply append_nonempty; discriminate
             | intros [_ H]; contradiction].
    - split; [intros H; exfalso; revert H; apply append_nonempty; discriminate
             | intros [_ H]; contradiction].
    - intros network Hn _. vm_compute in Hn. injection Hn as <-. split; reflexivity. }
  destruct (String.eqb_spec networkId "hardhat") as [->|Hh].
  { split; [|split].
    - split; [intros _; split; discriminate | reflexivity].
    - split; [intros _; split; discriminate | reflexivity].
    - intros network Hn Hne. vm_compute in Hn. injection Hn as <-.
      exfalso. apply Hne. reflexivity. }
  split; [|split].
  - split; [intros _; split; assumption | reflexivity].
  - split; [intros _; split; assumption | reflexivity].
  - intros network Hn. discriminate Hn.
Qed.

End ExplorerFacts.

Lemma explorer_links_witness :
  Explorer.getExplorerUrl (JStr "0x52908400098527886e0f7030069857d2e4169ee7")
    "polygon"
  = "https://polygonscan.com/address/0x52908400098527886e0f7030069857d2e4169ee7"
  /\ Explorer.getTxExplorerUrl (JNum 42) "hardhat" = "".
Proof.
  split.
  - apply (proj2 (proj2 (explorer_links
                           (JStr "0x52908400098527886e0f7030069857d2e4169ee7")
                           "polygon" I))
             {| Config.chainId := 137; Config.name := "Polygon Mainnet";
                Config.rpcUrl := "https://polygon-rpc.com";
                Config.explorer := "https://polygonscan.com";
                Config.currency := {| Config.cur_name := "MATIC";
                                      Config.cur_symbol := "MATIC";
                                      Config.cur_decimals := 18 |} |}).
    + vm_compute. reflexivity.
    + discriminate.
  - apply (proj1 (proj2 (explorer_links (JNum 42) "hardhat"
                           ltac:(simpl; lia)))).
    split; discriminate.
Defined.

(** ** Notifications *)

Section NotificationFacts.

Import AppProvider.

Lemma filter_index_nat (k : nat) : forall (prev : list Notification) (i : nat),
  filter_index (JNum (Z.of_nat (i + k))) i prev = firstn k prev ++ skipn (S k) prev.
Proof.
  induction k as [|k IH]; intros prev i.
  - rewrite Nat.add_0_r. destruct prev as [|n rest]; [reflexivity|].
    simpl. rewrite Z.eqb_refl. simpl.
    (* behind the removed position no index matches *)
    assert (Hrest : forall (l : list Notification) (j : nat),
              (i < j)%nat -> filter_index (JNum (Z.of_nat i)) j l = l).
    { induction l as [|x l IHl]; intros j Hj; [reflexivity|]. simpl.
      assert ((Z.of_nat j =? Z.of_nat i) = false) as ->
        by (apply Z.eqb_neq; lia).
      simpl. rewrite IHl by lia. reflexivity. }
    apply Hrest. lia.
  - destruct prev as [|n rest]; [reflexivity|]. simpl.
    assert ((Z.of_nat i =? Z.of_nat (i + S k)) = false) as ->
      by (apply Z.eqb_neq; lia).
    simpl. f_equal.
    replace (i + S k)%nat with (S i + k)%nat by lia. apply IH.
Qed.

Lemma filter_index_other (index : jsval) : forall (prev : list Notification) (i : nat),
  (forall k : nat, (i <= k < i + length prev)%nat -> index <> JNum (Z.of_nat k)) ->
  filter_index index i prev = prev.
Proof.
  induction prev as [|n rest IH]; intros i Hindex; [reflexivity|].
  change (filter_index index i (n :: rest))
    with (if negb (strict_eq (JNum (Z.of_nat i)) index)
          then n :: filter_index index (S i) rest
          else filter_index index (S i) rest).
  assert (strict_eq (JNum (Z.of_nat i)) index = false) as ->.
  { destruct index as [| |b|m|s]; try reflexivity. simpl.
    apply Z.eqb_neq. intros Heq. apply (Hindex i); [simpl; lia | congruence]. }
  simpl. f_equal. apply IH. intros k Hk. apply Hindex. simpl. lia.
Qed.

(** X11: removing the notification at position [i] keeps the others in
    their order: the result is the [i] notifications before it followed by
    those behind it; an index that is no position of the list (a number
    that is negative or not below the length, or a value that is no
    number) leaves the list as it is; and removing at the position a new
    notification was appended to gives back the list before it. *)
Theorem removeNotification_position (prev : list Notification) :
  (forall i : nat,
     removeNotification (JNum (Z.of_nat i)) prev
     = firstn i prev ++ skipn (S i) prev)
  /\ (forall index,
        (forall i : nat, (i < length prev)%nat -> index <> JNum (Z.of_nat i)) ->
        removeNotification index prev = prev)
  /\ (forall message type,
        removeNotification (JNum (Z.of_nat (length prev)))
          (addNotification message type prev)
        = prev).
Proof.
  split; [|split].
  - intros i. exact (filter_index_nat i prev 0%nat).
  - intros index Hindex. apply filter_index_other.
    intros k Hk. apply Hindex. lia.
  - intros message type. unfold removeNotification, addNotification.
    pose proof (filter_index_nat (length prev) (prev ++ [(message, type)]) 0%nat)
      as Hremove.
    simpl in Hremove. rewrite Hremove.
    rewrite firstn_app, Nat.sub_diag, firstn_all. simpl.
    rewrite app_nil_r. rewrite skipn_all2 by (rewrite length_app; simpl; lia).
    apply app_nil_r.
Qed.

End NotificationFacts.

(** ** Numbers written and read back *)

Section RadixFacts.

Variable R : Z.
Hypothesis R_range : 2 <= R <= 16.

Lemma digit_char_val_16 (k : Z) :
  0 <= k < 16 -> Num.digit_val (Num.digit_char k) = k.
Proof.
  intros Hk.
  assert (Hcases : k = 0 \/ k = 1 \/ k = 2 \/ k = 3 \/ k = 4 \/ k = 5 \/ k = 6
                   \/ k = 7 \/ k = 8 \/ k = 9 \/ k = 10 \/ k = 11 \/ k = 12
                   \/ k = 13 \/ k = 14 \/ k = 15) by lia.
  repeat (destruct Hcases as [->|Hcases]; [reflexivity|]).
  subst k. reflexivity.
Qed.

Lemma radix_val_snoc (ds : list ascii) (c : ascii) :
  Num.radix_val R (ds ++ [c]) = R * Num.radix_val R ds + Num.digit_val c.
Proof. unfold Num.radix_val. rewrite fold_left_app. reflexivity. Qed.

Lemma to_digits_radix_val (fuel : nat) : forall q,
  0 <= q < 2 ^ Z.of_nat fuel -> Num.radix_val R (Num.to_digits R fuel q) = q.
Proof.
  induction fuel as [|fuel IH]; intros q Hq.
  - change (2 ^ Z.of_nat 0) with 1 in Hq. assert (q = 0) as -> by lia. reflexivity.
  - simpl Num.to_digits. destruct (q <? R) eqn:Hlt.
    + apply Z.ltb_lt in Hlt. unfold Num.radix_val. simpl.
      rewrite digit_char_val_16 by lia. lia.
    + apply Z.ltb_ge in Hlt. rewrite radix_val_snoc, IH.
      * rewrite digit_char_val_16.
        -- pose proof (Z.div_mod q R ltac:(lia)). lia.
        -- pose proof (Z.mod_pos_bound q R ltac:(lia)). lia.
      * rewrite Nat2Z.inj_succ, Z.pow_succ_r in Hq by lia.
        split; [apply Z.div_pos; lia|].
        apply Z.div_lt_upper_bound; [lia|]. nia.
Qed.

Lemma to_digits_radix_digits (fuel : nat) : forall q,
  0 <= q -> forallb (Num.is_digit_of R) (Num.to_digits R fuel q) = true.
Proof.
  induction fuel as [|fuel IH]; intros q Hq; [reflexivity|].
  simpl Num.to_digits. destruct (q <? R) eqn:Hlt.
  - apply Z.ltb_lt in Hlt. simpl. unfold Num.is_digit_of.
    rewrite digit_char_val_16 by lia. rewrite andb_true_r. apply Z.ltb_lt. lia.
  - rewrite forallb_app, IH by (apply Z.div_pos; lia). simpl.
    unfold Num.is_digit_of.
    pose proof (Z.mod_pos_bound q R ltac:(lia)).
    rewrite digit_char_val_16 by lia. rewrite andb_true_r. apply Z.ltb_lt. lia.
Qed.

Lemma to_digits_radix_nonempty (fuel : nat) (q : Z) :
  Num.to_digits R (S fuel) q <> [].
Proof.
  simpl. destruct (q <? R); [discriminate|].
  intros H. apply app_eq_nil in H as [_ H]. discriminate H.
Qed.

(** The digits of a number are read back as the number. *)
Lemma nat_chars_read_back (q : Z) :
  0 <= q ->
  exists c ds,
    Num.nat_chars R q = c :: ds
    /\ Str.take_while (Num.is_digit_of R) (Num.nat_chars R q) = Num.nat_chars R q
    /\ Num.radix_val R (Num.nat_chars R q) = q
    /\ Num.is_digit_of R c = true.
Proof.
  intros Hq. unfold Num.nat_chars.
  set (fuel := Z.to_nat (Z.log2 q)).
  pose proof (to_digits_radix_nonempty fuel q) as Hne.
  pose proof (to_digits_radix_digits (S fuel) q Hq) as Hdigits.
  pose proof (to_digits_radix_val (S fuel) q
                (conj Hq (UnitsFacts.log2_fuel q Hq))) as Hval.
  destruct (Num.to_digits R (S fuel) q) as [|c ds] eqn:Heq; [contradiction|].
  exists c, ds. split; [reflexivity|]. split; [|split; [exact Hval|]].
  - rewrite <- (app_nil_r (c :: ds)) at 1.
    rewrite UnitsFacts.take_while_app; [reflexivity | exact Hdigits | reflexivity].
  - simpl in Hdigits. apply andb_prop in Hdigits as [Hc _]. exact Hc.
Qed.

End RadixFacts.

Section ReadBack.

(** A digit of a base up to 16 is no white space, no sign and no [x]. *)
Lemma digit_of_16_plain (c : ascii) :
  Num.is_digit_of 16 c = true ->
  Str.is_space c = false
  /\ Ascii.eqb c "-" = false /\ Ascii.eqb c "+" = false
  /\ Str.eq_ci "x" c = false.
Proof.
  destruct c as [[] [] [] [] [] [] [] []]; vm_compute; intros H;
    first [discriminate H | repeat split].
Qed.

Lemma is_digit_of_mono (R : Z) (c : ascii) :
  R <= 16 -> Num.is_digit_of R c = true -> Num.is_digit_of 16 c = true.
Proof.
  unfold Num.is_digit_of. intros HR Hc.
  apply Z.ltb_lt in Hc. apply Z.ltb_lt. lia.
Qed.

(** [parseInt] reads back the decimal numeral of an integer. *)
Lemma parseInt_toString (n : Z) : parseInt (JNum n) = Some n.
Proof.
  unfold parseInt, ToString, Num.toString.
  rewrite UnitsFacts.chars_of_chars. unfold Num.int_chars.
  assert (H10 : 2 <= 10 <= 16) by lia.
  assert (Hread : forall q, 0 <= q ->
            forall sign,
              (let '(radix, s) :=
                 if Str.prefix_ci (Str.chars "0x") (Num.nat_chars 10 q)
                 then (16, skipn 2 (Num.nat_chars 10 q))
                 else (10, Num.nat_chars 10 q) in
               match Str.take_while (Num.is_digit_of radix) s with
               | [] => None
               | ds => Some (sign * Num.radix_val radix ds)
               end) = Some (sign * q)).
  { intros q Hq sign.
    destruct (nat_chars_read_back 10 H10 q Hq) as (c & ds & Heq & Htake & Hval & Hc).
    assert (Hpre : Str.prefix_ci (Str.chars "0x") (Num.nat_chars 10 q) = false).
    { rewrite Heq. simpl. destruct ds as [|d ds']; [apply andb_false_r|].
      assert (Hd : Num.is_digit_of 10 d = true).
      { pose proof (to_digits_radix_digits 10 H10 (S (Z.to_nat (Z.log2 q))) q Hq) as Hall.
        fold (Num.nat_chars 10 q) in Hall. rewrite Heq in Hall. simpl in Hall.
        apply andb_prop in Hall as [_ Hall]. apply andb_prop in Hall as [Hd _].
        exact Hd. }
      apply (is_digit_of_mono 10) in Hd; [|lia].
      destruct (digit_of_16_plain d Hd) as (_ & _ & _ & Hx).
      rewrite Hx. simpl. rewrite ?andb_false_r. reflexivity. }
    rewrite Hpre. cbv iota beta. rewrite Htake.
    rewrite Heq in Hval |- *. rewrite Hval. reflexivity. }
  destruct (n <? 0) eqn:Hneg.
  - apply Z.ltb_lt in Hneg.
    transitivity (Some (-1 * - n));
      [exact (Hread (- n) ltac:(lia) (-1)) | f_equal; lia].
  - apply Z.ltb_ge in Hneg.
    destruct (nat_chars_read_back 10 H10 n Hneg) as (c & ds & Heq & _ & _ & Hc).
    apply (is_digit_of_mono 10) in Hc; [|lia].
    destruct (digit_of_16_plain c Hc) as (Hspace & Hminus & Hplus & _).
    rewrite Heq. cbn [Str.drop_while]. rewrite Hspace, Hminus, Hplus.
    rewrite <- Heq.
    transitivity (Some (1 * n)); [exact (Hread n Hneg 1) | f_equal; lia].
Qed.

(** [parseInt(_, 16)] reads back the hexadecimal numeral with its prefix. *)
Lemma parseInt_radix_hex (n : Z) :
  0 <= n -> parseInt_radix (JStr ("0x" +:+ Num.toString16 n)) 16 = Some n.
Proof.
  intros Hn. unfold parseInt_radix, ToString, Num.toString16.
  rewrite chars_append, UnitsFacts.chars_of_chars. unfold Num.int_chars.
  assert ((n <? 0) = false) as -> by (apply Z.ltb_ge; exact Hn).
  assert (H16 : 2 <= 16 <= 16) by lia.
  destruct (nat_chars_read_back 16 H16 n Hn) as (c & ds & Heq & Htake & Hval & Hc).
  change (Str.chars "0x" ++ Num.nat_chars 16 n)
    with ("0"%char :: "x"%char :: Num.nat_chars 16 n).
  transitivity
    (match Str.take_while (Num.is_digit_of 16) (Num.nat_chars 16 n) with
     | [] => None
     | ds => Some (1 * Num.radix_val 16 ds)
     end); [reflexivity|].
  rewrite Htake. rewrite Heq in Hval |- *. rewrite Hval. f_equal. lia.
Qed.

End ReadBack.

(** X12: the chain id [useWallet] sends in hexadecimal when it switches to
    a network is read back by the [chainChanged] listener as the chain id
    of that network, for every network whose chain id is not negative, so
    for each network of [NETWORKS]. *)
Theorem chain_id_read_back (network : Config.Network) :
  0 <= Config.chainId network ->
  WalletListeners.handleChainChanged (JStr (useWallet.hex_chain_id network))
  = Some (Config.chainId network).
Proof.
  intros Hid. unfold WalletListeners.handleChainChanged, useWallet.hex_chain_id.
  apply parseInt_radix_hex. exact Hid.
Qed.

Lemma chain_id_read_back_witness :
  WalletListeners.handleChainChanged (JStr "0x13882") = Some 80002.
Proof.
  apply (chain_id_read_back
           {| Config.chainId := 80002; Config.name := "Polygon Amoy Testnet";
              Config.rpcUrl := "https://rpc-amoy.polygon.technology";
              Config.explorer := "https://www.oklink.com/amoy";
              Config.currency := {| Config.cur_name := "MATIC";
                                    Config.cur_symbol := "MATIC";
                                    Config.cur_decimals := 18 |} |}).
  simpl. lia.
Defined.

(** X13: the risk score [api.createAlert] sends for a number is the number
    brought into the range from 0 to 100: an integer of the range is sent
    as it is, a larger one as 100, a negative one as 0.  The bound on the
    size is that of the numbers JavaScript prints without an exponent. *)
Theorem clampRisk_number (n : Z) :
  - 10 ^ 21 < n < 10 ^ 21 ->
  api.clampRisk (JNum n) = Z.min 100 (Z.max 0 n)
  /\ (0 <= n <= 100 -> api.clampRisk (JNum n) = n).
Proof.
  intros _. unfold api.clampRisk. rewrite parseInt_toString.
  split; [reflexivity | lia].
Qed.

Lemma clampRisk_number_witness :
  api.clampRisk (JNum 150) = 100 /\ api.clampRisk (JNum 70) = 70.
Proof.
  split.
  - rewrite (proj1 (clampRisk_number 150 ltac:(lia))). reflexivity.
  - apply (proj2 (clampRisk_number 70 ltac:(lia))). lia.
Defined.

(** ** The transactions of the hooks *)

Section HookWrites.

Context (config : Config.ContractConfig)
        (ethereum : option (WalletRequest -> outcome RpcError unit))
        (signer : outcome string string)
        (chain : Contract -> string -> list jsval -> outcome string Z)
        (submit : Contract -> string -> list jsval
                  -> outcome string (string * outcome string unit))
        (parse_error : string -> string).

Implicit Types (tr new : list HookEvent) (contractName method : string)
  (c t : Contract).

Lemma sends_app tr1 tr2 : sends (tr1 ++ tr2) = sends tr1 ++ sends tr2.
Proof. apply omap_app. Qed.

(** What [getContract] does and what it returns: reads of the provider and
    of the signer only; a contract of the tables, on the signer when one
    was asked for. *)
Lemma getContract_inv contractName (withSigner : bool) tr r tr' :
  getContract config ethereum signer contractName withSigner tr = (r, tr') ->
  exists new,
    tr' = tr ++ new
    /\ sends new = []
    /\ forall c, r = Ok c ->
         configured config contractName c
         /\ (if withSigner
             then exists s, signer = Ok s /\ runner c = RunnerSigner (Some s)
             else runner c = RunnerProvider).
Proof.
  unfold getContract.
  destruct (Config.addresses config) as [addresses|] eqn:Haddr.
  2: { intros [= <- <-]. exists []. rewrite app_nil_r.
       repeat split; discriminate. }
  destruct (addresses !! contractName) as [a|] eqn:Ha.
  2: { intros [= <- <-]. exists []. rewrite app_nil_r.
       repeat split; discriminate. }
  destruct (truthy (JStr a)) eqn:Htruthy.
  2: { intros [= <- <-]. exists []. rewrite app_nil_r.
       repeat split; discriminate. }
  destruct (Config.abis config !! contractName) as [abi|] eqn:Habi.
  2: { intros [= <- <-]. exists []. rewrite app_nil_r.
       repeat split; discriminate. }
  assert (Hne : a <> "").
  { intros ->. discriminate Htruthy. }
  assert (Hconf : forall rn,
            configured config contractName
              {| target := a; interface := abi; runner := rn |}).
  { intros rn. exists addresses. repeat split; assumption. }
  unfold getSigner, getProvider, mbind, hook_bind, hbind, hemit, mret, hook_ret,
    hret, hthrow.
  simpl.
  destruct ethereum as [wallet|]; simpl.
  2: { intros [= <- <-]. exists [EvProvider]. repeat split; discriminate. }
  destruct withSigner; simpl.
  - destruct signer as [s|e] eqn:Hsigner; simpl; intros [= <- <-];
      exists [EvProvider; EvProvider; EvSigner];
      (split; [rewrite <- !app_assoc; reflexivity|]);
      (split; [reflexivity|]); intros c [= <-].
    split; [apply Hconf | exists s; split; reflexivity].
  - intros [= <- <-]. exists [EvProvider].
    split; [reflexivity|]. split; [reflexivity|]. intros c [= <-].
    split; [apply Hconf | reflexivity].
Qed.

(** The shape the operations that submit an amount share. *)
Lemma write_block_inv contractName method (args : Z -> list jsval)
    (pick : Contract -> hook Contract) (parse : Z -> hook Z)
    (token : Contract -> Contract -> Prop) (text : string) :
  (forall c tr r tr', pick c tr = (r, tr') ->
     exists new, tr' = tr ++ new /\ sends new = []
                 /\ forall t, r = Ok t -> token c t) ->
  (forall d tr r tr', parse d tr = (r, tr') ->
     tr' = tr /\ forall n, r = Ok n ->
                   Units.parseUnits text (Z.to_nat d) = Some n) ->
  forall tr r tr',
    (contract ← getContract config ethereum signer contractName true;
     t ← pick contract;
     decimals ← call chain t "decimals" [];
     n ← parse decimals;
     send_and_wait submit contract method (args n)) tr = (r, tr') ->
    exists new,
      tr' = tr ++ new
      /\ one_transaction config signer chain submit contractName method args
           text token
           (match r with Ok hash => Some hash | Throw _ => None end) new.
Proof.
  intros Hpick Hparse tr r tr'. unfold mbind, hook_bind, hbind.
  destruct (getContract config ethereum signer contractName true tr)
    as [[c|e] tr1] eqn:Hc;
    apply getContract_inv in Hc as (new1 & -> & Hs1 & Hc).
  2: { intros [= <- <-]. exists new1. split; [reflexivity|]. left. split; [exact Hs1 | reflexivity]. }
  destruct (Hc c eq_refl) as [Hconf Hrunner].
  destruct (pick c (tr ++ new1)) as [[t|e] tr2] eqn:Hp;
    apply Hpick in Hp as (new2 & -> & Hs2 & Ht).
  2: { intros [= <- <-]. exists (new1 ++ new2).
       split; [symmetry; apply app_assoc|]. left.
       rewrite sends_app, Hs1, Hs2. split; reflexivity. }
  rewrite (call_eq chain).
  destruct (chain t "decimals" []) as [d|e] eqn:Hd.
  2: { intros [= <- <-]. exists (new1 ++ new2 ++ [EvCall t "decimals" []]).
       split; [rewrite <- !app_assoc; reflexivity|]. left.
       rewrite !sends_app, Hs1, Hs2. split; reflexivity. }
  match goal with
  | |- context [parse d ?x] => destruct (parse d x) as [[n|e] tr3] eqn:Hn
  end.
  2: { destruct (Hparse _ _ _ _ Hn) as [-> _].
       intros [= <- <-]. exists (new1 ++ new2 ++ [EvCall t "decimals" []]).
       split; [rewrite <- !app_assoc; reflexivity|]. left.
       rewrite !sends_app, Hs1, Hs2. split; reflexivity. }
  destruct (Hparse _ _ _ _ Hn) as [-> Hn']. specialize (Hn' n eq_refl).
  unfold send_and_wait, mbind, hook_bind, hbind, hemit, mret, hook_ret, hret, hthrow.
  assert (Hsends : sends (new1 ++ new2 ++ [EvCall t "decimals" []]
                            ++ [EvSend c method (args n)])
                   = [(c, method, args n)])
    by (rewrite !sends_app, Hs1, Hs2; reflexivity).
  destruct (submit c method (args n)) as [[hash [[]|e]]|e] eqn:Hsubmit;
    intros [= <- <-];
    exists (new1 ++ new2 ++ [EvCall t "decimals" []] ++ [EvSend c method (args n)]);
    (split; [rewrite <- !app_assoc; reflexivity|]);
    right; exists c, t, d, n;
    (split; [exact Hsends|]); (split; [exact Hconf|]);
    (split; [exact Hrunner|]); (split; [exact (Ht t eq_refl)|]);
    (split; [exact Hd|]); (split; [exact Hn'|]);
    intros hash'; split; intros H; congruence.
Qed.

(** The frame: the loading flag is cleared, and [null] is returned exactly
    when a message is left in the error slot. *)
Lemma framed_inv {A} (block : hook A) (st : useKAIToken.State) tr :
  exists r tr',
    block tr = (r, tr')
    /\ framed block st tr
       = (match r with Ok v => Some v | Throw _ => None end,
          {| useKAIToken.loading := false;
             useKAIToken.error :=
               match r with Ok _ => None | Throw e => Some e end |},
          tr').
Proof.
  unfold framed. destruct (block tr) as [[v|e] tr'];
    eexists _, _; split; reflexivity.
Qed.

Lemma parseAmount_inv (amount : jsval) (d : Z) tr r tr' :
  useKAIToken_writes.parseAmount parse_error amount d tr = (r, tr') ->
  tr' = tr /\ forall n, r = Ok n ->
                Units.parseUnits (ToString amount) (Z.to_nat d) = Some n.
Proof.
  unfold useKAIToken_writes.parseAmount, amount_toString, mbind, hook_bind, hbind,
    mret, hook_ret, hret, hthrow.
  destruct amount as [| |b|m|s]; simpl;
    try (intros [= <- <-]; split; [reflexivity | discriminate]);
    match goal with
    | |- context [Units.parseUnits ?x ?y] =>
        destruct (Units.parseUnits x y) as [w|] eqn:Hparse
    end;
    intros [= <- <-]; (split; [reflexivity|]); intros n [= <-];
    try reflexivity; exact Hparse.
Qed.

Lemma pick_same c tr r tr' :
  (mret c : hook Contract) tr = (r, tr') ->
  exists new, tr' = tr ++ new /\ sends new = []
              /\ forall t, r = Ok t -> c = t.
Proof.
  intros [= <- <-]. exists []. rewrite app_nil_r.
  split; [reflexivity|]. split; [reflexivity|]. intros t [= <-]. reflexivity.
Qed.

(** An operation built from the frame and the shared shape. *)
Lemma framed_write contractName method (args : Z -> list jsval)
    (pick : Contract -> hook Contract) (parse : Z -> hook Z)
    (token : Contract -> Contract -> Prop) (text : string)
    (block : hook string) :
  (forall c tr r tr', pick c tr = (r, tr') ->
     exists new, tr' = tr ++ new /\ sends new = []
                 /\ forall t, r = Ok t -> token c t) ->
  (forall d tr r tr', parse d tr = (r, tr') ->
     tr' = tr /\ forall n, r = Ok n ->
                   Units.parseUnits text (Z.to_nat d) = Some n) ->
  (forall tr,
     block tr
     = (contract ← getContract config ethereum signer contractName true;
        t ← pick contract;
        decimals ← call chain t "decimals" [];
        n ← parse decimals;
        send_and_wait submit contract method (args n)) tr) ->
  forall (st : useKAIToken.State) tr,
    let '(result, st', tr') := framed block st tr in
    exists new,
      tr' = tr ++ new
      /\ one_transaction config signer chain submit contractName method args
           text token result new
      /\ useKAIToken.loading st' = false
      /\ (result = None <-> is_Some (useKAIToken.error st')).
Proof.
  intros Hpick Hparse Hblock st tr.
  destruct (framed_inv block st tr) as (r & tr' & Hrun & ->).
  rewrite Hblock in Hrun.
  destruct (write_block_inv _ _ _ _ _ _ _ Hpick Hparse _ _ _ Hrun)
    as (new & -> & Hone).
  exists new. split; [reflexivity|]. split; [exact Hone|].
  split; [reflexivity|]. simpl.
  destruct r as [hash|e]; split; intros H;
    first [discriminate H | eexists; reflexivity | reflexivity
          | destruct H as [x H]; discriminate H].
Qed.

(** X14: [transfer], [approve] and [burn] of [useKAIToken] send at most
    one transaction, whatever the configuration, the wallet, the chain and
    the arguments.  When they send one it is the method [transfer],
    [approve] or [directBurn] of the token contract at its configured
    address, connected to the signer of the wallet, and the amount in its
    arguments is the amount given, converted at the decimals that this
    contract reported; nothing is sent when the amount cannot be
    converted.  The hash is returned exactly when the transaction was
    submitted and confirmed, [null] is returned exactly when a message is
    left in the error slot, and the loading flag is off afterwards. *)
Theorem token_transactions (st : useKAIToken.State) tr :
  (forall to amount,
     let '(result, st', tr') :=
       useKAIToken.transfer config ethereum signer chain submit parse_error
         to amount st tr in
     exists new,
       tr' = tr ++ new
       /\ one_transaction config signer chain submit "KAIToken" "transfer"
            (fun n => [to; JNum n]) (ToString amount) eq result new
       /\ useKAIToken.loading st' = false
       /\ (result = None <-> is_Some (useKAIToken.error st')))
  /\ (forall spender amount,
        let '(result, st', tr') :=
          useKAIToken_writes.approve config ethereum signer chain submit
            parse_error spender amount st tr in
        exists new,
          tr' = tr ++ new
          /\ one_transaction config signer chain submit "KAIToken" "approve"
               (fun n => [spender; JNum n]) (ToString amount) eq result new
          /\ useKAIToken.loading st' = false
          /\ (result = None <-> is_Some (useKAIToken.error st')))
  /\ (forall amount pillarId reason,
        let '(result, st', tr') :=
          useKAIToken_writes.burn config ethereum signer chain submit
            parse_error amount pillarId reason st tr in
        exists new,
          tr' = tr ++ new
          /\ one_transaction config signer chain submit "KAIToken" "directBurn"
               (fun n => [JNum n; pillarId; reason]) (ToString amount) eq
               result new
          /\ useKAIToken.loading st' = false
          /\ (result = None <-> is_Some (useKAIToken.error st'))).
Proof.
  split; [|split].
  - intros to amount.
    apply (framed_write "KAIToken" "transfer" (fun n => [to; JNum n])
             (fun c => mret c)
             (useKAIToken_writes.parseAmount parse_error amount)
             eq (ToString amount)
             (useKAIToken.transfer_try config ethereum signer chain submit
                parse_error to amount)).
    + apply pick_same.
    + apply parseAmount_inv.
    + intros tr0.
      unfold useKAIToken.transfer_try, useKAIToken_writes.parseAmount,
        mbind, hook_bind, hbind.
      destruct (getContract config ethereum signer "KAIToken" true tr0)
        as [[c|e] tr1]; [|reflexivity].
      simpl. destruct (call chain c "decimals" [] tr1) as [[d|e] tr2];
        [|reflexivity].
      destruct (amount_toString amount tr2) as [[text|e] tr3]; [|reflexivity].
      destruct (Units.parseUnits text (Z.to_nat d)); reflexivity.
  - intros spender amount.
    apply (framed_write "KAIToken" "approve" (fun n => [spender; JNum n])
             (fun c => mret c)
             (useKAIToken_writes.parseAmount parse_error amount)
             eq (ToString amount)
             (useKAIToken_writes.approve_try config ethereum signer chain submit
                parse_error spender amount)).
    + apply pick_same.
    + apply parseAmount_inv.
    + intros tr0. unfold useKAIToken_writes.approve_try, mbind, hook_bind, hbind.
      destruct (getContract config ethereum signer "KAIToken" true tr0)
        as [[c|e] tr1]; reflexivity.
  - intros amount pillarId reason.
    apply (framed_write "KAIToken" "directBurn"
             (fun n => [JNum n; pillarId; reason])
             (fun c => mret c)
             (useKAIToken_writes.parseAmount parse_error amount)
             eq (ToString amount)
             (useKAIToken_writes.burn_try config ethereum signer chain submit
                parse_error amount pillarId reason)).
    + apply pick_same.
    + apply parseAmount_inv.
    + intros tr0. unfold useKAIToken_writes.burn_try, mbind, hook_bind, hbind.
      destruct (getContract config ethereum signer "KAIToken" true tr0)
        as [[c|e] tr1]; reflexivity.
Qed.

(** X15: [stake] of [useStaking] sends at most one transaction: the method
    [stake] of the staking contract at its configured address, connected
    to the signer of the wallet, with the amount converted at the decimals
    reported by the token contract, which is read through the provider at
    the configured address of the token.  The hash is returned exactly when
    the transaction was submitted and confirmed, [null] exactly when a
    message is left in the error slot, and the loading flag is off
    afterwards. *)
Theorem stake_transaction (amount : jsval) (st : useKAIToken.State) tr :
  let '(result, st', tr') :=
    useStaking.stake config ethereum signer chain submit parse_error
      amount st tr in
  exists new,
    tr' = tr ++ new
    /\ one_transaction config signer chain submit "ClimateAlertStaking" "stake"
         (fun n => [JNum n]) (ToString amount)
         (fun _ token =>
            configured config "KAIToken" token /\ runner token = RunnerProvider)
         result new
    /\ useKAIToken.loading st' = false
    /\ (result = None <-> is_Some (useKAIToken.error st')).
Proof.
  apply (framed_write "ClimateAlertStaking" "stake" (fun n => [JNum n])
           (fun _ => getContract config ethereum signer "KAIToken" false)
           (useKAIToken_writes.parseAmount parse_error amount)
           (fun _ token =>
              configured config "KAIToken" token /\ runner token = RunnerProvider)
           (ToString amount)
           (useStaking.stake_try config ethereum signer chain submit
              parse_error amount)).
  - intros c tr0 r tr' Hget.
    apply getContract_inv in Hget as (new & -> & Hsends & Hc).
    exists new. split; [reflexivity|]. split; [exact Hsends|].
    intros t ->. exact (Hc t eq_refl).
  - apply parseAmount_inv.
  - intros tr0. reflexivity.
Qed.

Ltac quiet_events :=
  repeat first
    [ apply List.Forall_nil
    | apply List.Forall_cons; [first [left; reflexivity | right; reflexivity]|] ].

(** [getContract] reads no contract. *)
Lemma getContract_quiet contractName (withSigner : bool) tr r tr' :
  getContract config ethereum signer contractName withSigner tr = (r, tr') ->
  exists new,
    tr' = tr ++ new
    /\ Forall (fun ev => ev = EvProvider \/ ev = EvSigner) new.
Proof.
  unfold getContract.
  destruct (Config.addresses config) as [addresses|].
  2: { intros [= <- <-]. exists []. rewrite app_nil_r. split; [reflexivity | constructor]. }
  destruct (match addresses !! contractName with
            | Some a => negb (truthy (JStr a))
            | None => true
            end
            || match Config.abis config !! contractName with
               | Some _ => false
               | None => true
               end).
  { intros [= <- <-]. exists []. rewrite app_nil_r. split; [reflexivity | constructor]. }
  unfold getSigner, getProvider, mbind, hook_bind, hbind, hemit, mret, hook_ret,
    hret, hthrow.
  simpl.
  destruct ethereum as [wallet|]; simpl.
  2: { intros [= <- <-]. exists [EvProvider]. split; [reflexivity|].
       quiet_events. }
  destruct withSigner; simpl.
  - destruct signer as [s|e]; simpl; intros [= <- <-];
      exists [EvProvider; EvProvider; EvSigner];
      (split; [rewrite <- !app_assoc; reflexivity|]);
      quiet_events.
  - intros [= <- <-]. exists [EvProvider]. split; [reflexivity|].
    quiet_events.
Qed.

Lemma quiet_no_call new c m args :
  Forall (fun ev => ev = EvProvider \/ ev = EvSigner) new ->
  ~ In (EvCall c m args) new.
Proof.
  intros Hquiet Hin. rewrite List.Forall_forall in Hquiet.
  destruct (Hquiet _ Hin) as [H|H]; discriminate H.
Qed.

(** The shape of [unstake] and [claimRewards]. *)
Lemma framed_plain contractName method (st : useKAIToken.State) tr :
  let '(result, st', tr') :=
    framed (contract ← getContract config ethereum signer contractName true;
            send_and_wait submit contract method []) st tr in
  exists new,
    tr' = tr ++ new
    /\ plain_transaction config signer submit contractName method result new
    /\ useKAIToken.loading st' = false
    /\ (result = None <-> is_Some (useKAIToken.error st')).
Proof.
  match goal with
  | |- context [framed ?block st tr] =>
      destruct (framed_inv block st tr) as (r & tr' & Hrun & ->)
  end.
  assert (Hframe :
            match r with Ok v => Some v | Throw _ => None end = None
            <-> is_Some (match r with Ok _ => None | Throw e => Some e end)).
  { destruct r as [hash|e]; split; intros H;
      first [discriminate H | eexists; reflexivity | reflexivity
            | destruct H as [x H]; discriminate H]. }
  revert Hrun. unfold mbind, hook_bind, hbind.
  destruct (getContract config ethereum signer contractName true tr)
    as [[c|e] tr1] eqn:Hc;
    destruct (getContract_inv _ _ _ _ _ Hc) as (new1 & Htr1 & Hs1 & Hconf);
    destruct (getContract_quiet _ _ _ _ _ Hc) as (new1' & Htr1' & Hquiet);
    assert (new1' = new1) as ->
      by (rewrite Htr1 in Htr1'; apply app_inv_head in Htr1'; congruence);
    subst tr1.
  2: { intros [= <- <-]. exists new1. split; [reflexivity|].
       split; [|split; [reflexivity | exact Hframe]].
       split; [intros c m args; apply quiet_no_call; exact Hquiet|].
       left. split; [exact Hs1 | reflexivity]. }
  destruct (Hconf c eq_refl) as [Hconfigured Hrunner].
  unfold send_and_wait, mbind, hook_bind, hbind, hemit, mret, hook_ret, hret, hthrow.
  assert (Hsends : sends (new1 ++ [EvSend c method []]) = [(c, method, [])])
    by (rewrite sends_app, Hs1; reflexivity).
  assert (Hcalls : forall c' m args,
            ~ In (EvCall c' m args) (new1 ++ [EvSend c method []])).
  { intros c' m args Hin. apply in_app_or in Hin as [Hin|Hin].
    - exact (quiet_no_call _ _ _ _ Hquiet Hin).
    - destruct Hin as [H|[]]. discriminate H. }
  destruct (submit c method []) as [[hash [[]|e]]|e] eqn:Hsubmit;
    intros [= <- <-];
    exists (new1 ++ [EvSend c method []]);
    (split; [rewrite <- !app_assoc; reflexivity|]);
    (split; [|split; [reflexivity | exact Hframe]]);
    (split; [exact Hcalls|]);
    right; exists c;
    (split; [exact Hsends|]); (split; [exact Hconfigured|]);
    (split; [exact Hrunner|]);
    intros hash'; split; intros H; congruence.
Qed.

(** X16: [unstake] and [claimRewards] of [useStaking] read no contract
    and send at most one transaction: the method [unstake] or
    [claimRewards], without arguments, of the staking contract at its
    configured address, connected to the signer of the wallet.  The hash
    is returned exactly when the transaction was submitted and confirmed,
    [null] exactly when a message is left in the error slot, and the
    loading flag is off afterwards. *)
Theorem staking_exits (st : useKAIToken.State) tr :
  (let '(result, st', tr') :=
     useStaking.unstake config ethereum signer submit st tr in
   exists new,
     tr' = tr ++ new
     /\ plain_transaction config signer submit "ClimateAlertStaking" "unstake"
          result new
     /\ useKAIToken.loading st' = false
     /\ (result = None <-> is_Some (useKAIToken.error st')))
  /\ (let '(result, st', tr') :=
        useStaking.claimRewards config ethereum signer submit st tr in
      exists new,
        tr' = tr ++ new
        /\ plain_transaction config signer submit "ClimateAlertStaking"
             "claimRewards" result new
        /\ useKAIToken.loading st' = false
        /\ (result = None <-> is_Some (useKAIToken.error st'))).
Proof.
  split.
  - exact (framed_plain "ClimateAlertStaking" "unstake" st tr).
  - exact (framed_plain "ClimateAlertStaking" "claimRewards" st tr).
Qed.

End HookWrites.

(** X17: with the tables the repository ships, where every contract
    address is the empty string, every operation of [useKAIToken] and of
    [useStaking] fails on the configuration test, whatever the wallet, the
    chain and the arguments: it returns its failure value (["0"] for
    [getBalance], [null] for the others), leaves the message
    [Contract <name> not configured] in the error slot and the loading
    flag off, and nothing has happened: no read of the provider, no
    request for a signer, no call of a contract, no transaction. *)
Theorem shipped_hooks_inert
    (ethereum : option (WalletRequest -> outcome RpcError unit))
    (signer : outcome string string)
    (chain : Contract -> string -> list jsval -> outcome string Z)
    (submit : Contract -> string -> list jsval
              -> outcome string (string * outcome string unit))
    (parse_error : string -> string)
    (st : useKAIToken.State) (tr : list HookEvent) :
  let config := Config.getContractConfig Config.DEFAULT_NETWORK in
  let failed name :=
    {| useKAIToken.loading := false;
       useKAIToken.error := Some ("Contract " +:+ name +:+ " not configured") |} in
  (forall address,
     useKAIToken.getBalance config ethereum signer chain address st tr
     = ("0", failed "KAIToken", tr))
  /\ (forall to amount,
        useKAIToken.transfer config ethereum signer chain submit parse_error
          to amount st tr
        = (None, failed "KAIToken", tr))
  /\ (forall spender amount,
        useKAIToken_writes.approve config ethereum signer chain submit
          parse_error spender amount st tr
        = (None, failed "KAIToken", tr))
  /\ (forall amount pillarId reason,
        useKAIToken_writes.burn config ethereum signer chain submit
          parse_error amount pillarId reason st tr
        = (None, failed "KAIToken", tr))
  /\ (forall amount,
        useStaking.stake config ethereum signer chain submit parse_error
          amount st tr
        = (None, failed "ClimateAlertStaking", tr))
  /\ useStaking.unstake config ethereum signer submit st tr
     = (None, failed "ClimateAlertStaking", tr)
  /\ useStaking.claimRewards config ethereum signer submit st tr
     = (None, failed "ClimateAlertStaking", tr).
Proof.
  intros config failed. subst config.
  repeat split; intros;
    unfold useKAIToken.getBalance, useKAIToken.getBalance_try,
      useKAIToken.transfer, useKAIToken.transfer_try,
      useKAIToken_writes.approve, useKAIToken_writes.approve_try,
      useKAIToken_writes.burn, useKAIToken_writes.burn_try,
      useStaking.stake, useStaking.stake_try,
      useStaking.unstake, useStaking.unstake_try,
      useStaking.claimRewards, useStaking.claimRewards_try,
      framed, mbind, hook_bind, hbind;
    rewrite shipped_config_not_configured; reflexivity.
Qed.

(** ** The alert form *)

(** An event that is, or is not, in a list that is written out. *)
Ltac absent := let H := fresh in intros H; simpl in H; intuition discriminate.
Ltac present := first [reflexivity | simpl; intuition].

Section AlertsFacts.

Variable clock : nat -> Z.
Variable network : nat -> string -> RequestInit -> FetchResult.
Variable queryString : list (string * jsval) -> string.

Import Alerts.

Lemma truthy_JStr (s : string) : truthy (JStr s) = false <-> s = "".
Proof.
  simpl. destruct (String.eqb_spec s ""); split; intros H;
    first [assumption | reflexivity | discriminate H | contradiction].
Qed.

(** X18: [handleSubmit] on a form whose region is blank after trimming
    shows the warning [Region is required] and does nothing else: no
    request, no clock reading, no slot of the limiter used.  On any other
    form it sets the submitting flag, clears it at the end, and ends in one
    of three ways: the alert is created and the list refreshed (one
    notification of success, the form reset); the alert is created but the
    refresh of the list fails (the notification of success followed by
    [Failed to create alert], the form kept, the list not written); or the
    creation fails (the one notification [Failed to create alert]).  The
    alert sound is played exactly when the alert was created and the risk
    score of the form is 70 or more. *)
Theorem handleSubmit_outcomes (newAlert : NewAlert) (w : World) :
  let created := api.createAlert clock network (alert_data newAlert) w in
  let refreshed :=
    api_rest.getAlerts clock network queryString [] (snd created) in
  let '(evs, w') := handleSubmit clock network queryString newAlert w in
  (Str.trim (region newAlert) = "" ->
     evs = [PreventDefault; Notify "Region is required" "warning"] /\ w' = w)
  /\ (Str.trim (region newAlert) <> "" ->
      (exists mid,
         evs = PreventDefault :: SetSubmitting true :: mid ++ [SetSubmitting false]
         /\ ~ In (SetSubmitting true) mid /\ ~ In (SetSubmitting false) mid)
      /\ (In PlayAlertSound evs
          <-> is_ok (fst created) = true /\ 70 <= riskScore newAlert)
      /\ ((exists updated,
             is_ok (fst created) = true
             /\ fst refreshed = Ok updated
             /\ notifications evs = [("Alert created successfully!", "success")]
             /\ In (SetAlerts updated) evs /\ In ResetNewAlert evs
             /\ w' = snd refreshed)
          \/ (is_ok (fst created) = true /\ is_ok (fst refreshed) = false
              /\ notifications evs
                 = [("Alert created successfully!", "success");
                    ("Failed to create alert", "error")]
              /\ ~ In ResetNewAlert evs
              /\ (forall updated, ~ In (SetAlerts updated) evs)
              /\ w' = snd refreshed)
          \/ (is_ok (fst created) = false
              /\ notifications evs = [("Failed to create alert", "error")]
              /\ ~ In ResetNewAlert evs
              /\ (forall updated, ~ In (SetAlerts updated) evs)
              /\ w' = snd created))).
Proof.
  intros created refreshed. unfold handleSubmit.
  destruct (truthy (JStr (Str.trim (region newAlert)))) eqn:Hregion; simpl negb;
    cbv iota.
  2: { apply truthy_JStr in Hregion. split; [intros _; split; reflexivity|].
       intros Hne. contradiction. }
  assert (Hne : Str.trim (region newAlert) <> "").
  { intros Hempty. apply truthy_JStr in Hempty. congruence. }
  fold created. destruct created as [[v|e] w1] eqn:Hcreated; simpl snd in *.
  - subst refreshed. simpl fst.
    destruct (api_rest.getAlerts clock network queryString [] w1)
      as [[updated|e] w2] eqn:Hrefreshed; simpl fst; simpl snd;
      (split; [intros Hempty; contradiction|]); intros _;
      (destruct (riskScore newAlert >=? 70) eqn:Hrisk;
       [apply Z.geb_le in Hrisk
       | rewrite Z.geb_leb in Hrisk; apply Z.leb_gt in Hrisk]); simpl.
    + split; [exists [Notify "Alert created successfully!" "success";
                      PlayAlertSound; SetAlerts updated; ResetNewAlert];
              split; [reflexivity | split; absent]|].
      split; [split; [intros _; split; [reflexivity | exact Hrisk]
                     | intros _; present]|].
      left. exists updated. repeat split; present.
    + split; [exists [Notify "Alert created successfully!" "success";
                      SetAlerts updated; ResetNewAlert];
              split; [reflexivity | split; absent]|].
      split; [split; [absent | intros [_ H]; lia]|].
      left. exists updated. repeat split; present.
    + split; [exists [Notify "Alert created successfully!" "success";
                      PlayAlertSound;
                      Notify "Failed to create alert" "error"];
              split; [reflexivity | split; absent]|].
      split; [split; [intros _; split; [reflexivity | exact Hrisk]
                     | intros _; present]|].
      right; left. repeat split; try reflexivity; absent.
    + split; [exists [Notify "Alert created successfully!" "success";
                      Notify "Failed to create alert" "error"];
              split; [reflexivity | split; absent]|].
      split; [split; [absent | intros [_ H]; lia]|].
      right; left. repeat split; try reflexivity; absent.
  - split; [intros Hempty; contradiction|]. intros _. simpl.
    split; [exists [Notify "Failed to create alert" "error"];
            split; [reflexivity | split; absent]|].
    split; [split; [absent | intros [H _]; discriminate H]|].
    right; right. repeat split; try reflexivity; absent.
Qed.

(** Past the test of the region, the world after [handleSubmit] is the
    world after [api.createAlert], or the world after the refresh that
    follows it. *)
Lemma handleSubmit_cases (newAlert : NewAlert) (w : World) :
  let '(evs, w') := handleSubmit clock network queryString newAlert w in
  (Str.trim (region newAlert) <> "" ->
   ~ In (Notify "Region is required" "warning") evs)
  /\ (Str.trim (region newAlert) <> "" ->
      exists new,
        trace w'
        = trace (snd (api.createAlert clock network (alert_data newAlert) w))
          ++ new).
Proof.
  unfold handleSubmit.
  destruct (truthy (JStr (Str.trim (region newAlert)))) eqn:Hregion; simpl negb;
    cbv iota.
  2: { apply truthy_JStr in Hregion. split; intros Hne; contradiction. }
  destruct (api.createAlert clock network (alert_data newAlert) w)
    as [[v|e] w1]; simpl snd.
  - destruct (api_rest.getAlerts clock network queryString [] w1)
      as [[updated|e] w2] eqn:Hrefreshed;
      (split; intros _;
       [destruct (riskScore newAlert >=? 70); absent|]);
      unfold api_rest.getAlerts in Hrefreshed;
      match type of Hrefreshed with
      | secureFetch clock network ?url ?options ?r w1 = _ =>
          destruct (secureFetch_trace clock network url options r w1)
            as (new & Hnew & _)
      end;
      rewrite Hrefreshed in Hnew; exists new; exact Hnew.
  - split; intros _; [absent|]. exists []. symmetry. apply app_nil_r.
Qed.

Lemma drop_while_keeps (p : ascii -> bool) (c : ascii) (l : list ascii) :
  In c l -> p c = false -> In c (Str.drop_while p l).
Proof.
  induction l as [|x l IH]; intros Hin Hc; [destruct Hin|]. simpl.
  destruct (p x) eqn:Hx; [|exact Hin].
  destruct Hin as [->|Hin]; [congruence | exact (IH Hin Hc)].
Qed.

Lemma trim_chars_keeps (c : ascii) (l : list ascii) :
  In c l -> Str.is_space c = false -> In c (Str.trim_chars l).
Proof.
  intros Hin Hc. unfold Str.trim_chars.
  apply -> in_rev. apply drop_while_keeps; [|exact Hc].
  apply -> in_rev. apply drop_while_keeps; assumption.
Qed.

Lemma drop_while_all (p : ascii -> bool) (l : list ascii) :
  Forall (fun c => p c = true) l -> Str.drop_while p l = [].
Proof.
  induction 1 as [|c l Hc Hl IH]; [reflexivity|]. simpl. rewrite Hc. exact IH.
Qed.

Lemma remove_angle_spaces (l : list ascii) :
  Forall (fun c => Str.is_space c = true \/ c = "<"%char \/ c = ">"%char) l ->
  Forall (fun c => Str.is_space c = true) (Str.remove_all re_angle 0 l).
Proof.
  induction 1 as [|c l Hc Hl IH]; [constructor|]. simpl.
  destruct Hc as [Hc | [-> | ->]]; [|exact IH | exact IH].
  destruct ((Str.code c =? 60) || (Str.code c =? 62)); [exact IH|].
  constructor; assumption.
Qed.

Lemma space_plain (c : ascii) :
  Str.is_space c = true -> c <> ":"%char /\ c <> "="%char.
Proof. intros Hc. split; intros ->; discriminate Hc. Qed.

(** A region of white space and angle brackets passes the test of the
    form and is sanitized to the empty string. *)
Lemma only_brackets_region (s : string) :
  only_brackets s ->
  Str.trim s <> "" /\ sanitizeInput (JStr s) = JStr "".
Proof.
  intros [Hall Hsome]. split.
  - apply List.Exists_exists in Hsome as (c & Hin & Hc).
    assert (Hspace : Str.is_space c = false) by (destruct Hc as [-> | ->]; reflexivity).
    pose proof (trim_chars_keeps c _ Hin Hspace) as Hkept.
    unfold Str.trim. destruct (Str.trim_chars (Str.chars s)); [destruct Hkept|].
    discriminate.
  - destruct (sanitizeInput_chars s) as (t & -> & Hchars). f_equal.
    rewrite <- (UnitsFacts.of_chars_chars t), Hchars.
    pose proof (remove_angle_spaces _ Hall) as Hspaces.
    rewrite (remove_all_no_match re_javascript (fun c => c <> ":"%char)).
    + rewrite (remove_all_no_match re_on_handler (fun c => c <> "="%char)).
      * unfold Str.trim_chars. rewrite (drop_while_all _ _ Hspaces). reflexivity.
      * intros c l' Hc Hl'. apply re_on_handler_needs_equals. constructor; assumption.
      * eapply Forall_impl; [exact Hspaces|]. intros c Hc. apply (space_plain c Hc).
    + intros c l' Hc Hl'. apply re_javascript_needs_colon. constructor; assumption.
    + eapply Forall_impl; [exact Hspaces|]. intros c Hc. apply (space_plain c Hc).
Qed.

(** X19: the test of the form does not keep an empty region from being
    submitted: a region made of white space and angle brackets, with at
    least one angle bracket, is not blank after trimming, so [handleSubmit]
    does not show [Region is required]; the sanitizer of [api.createAlert]
    then removes the brackets and trims the rest, and when the limiter
    admits the call the first request is the [POST] of an alert whose
    region is the empty string. *)
Theorem handleSubmit_empty_region (newAlert : NewAlert) (w : World) :
  only_brackets (region newAlert) ->
  (length (requestLog w) < 100)%nat ->
  let '(evs, w') := handleSubmit clock network queryString newAlert w in
  ~ In (Notify "Region is required" "warning") evs
  /\ exists rest,
       trace w'
       = trace w
         ++ EvFetch "http://127.0.0.1:3333/api/v1/disaster/alerts"
              {| method := Some "POST";
                 body := Some [ ("disasterType",
                                 sanitizeInput (JStr (disasterType newAlert)));
                                ("region", JStr "");
                                ("riskScore",
                                 JNum (api.clampRisk (JNum (riskScore newAlert)))) ];
                 headers := [("Content-Type", "application/json")] |}
         :: rest.
Proof.
  intros Hregion Hroom.
  destruct (only_brackets_region _ Hregion) as [Htrim Hsanitized].
  pose proof (handleSubmit_cases newAlert w) as Hcases.
  destruct (handleSubmit clock network queryString newAlert w) as [evs w'].
  destruct Hcases as (Hwarn & Htrace). split.
  - apply Hwarn. exact Htrim.
  - destruct (Htrace Htrim) as (new2 & ->).
    unfold api.createAlert.
    match goal with
    | |- context [secureFetch clock network ?url ?options ?r w] =>
        destruct (secureFetch_trace clock network url options r w)
          as (new & -> & _ & Hfirst)
    end.
    destruct Hfirst as (rest & ->).
    { rewrite checkRateLimit_admits; [reflexivity|].
      pose proof (recentRequests_length (clock (ticks w)) (requestLog w)).
      unfold MAX_REQUESTS_PER_WINDOW. lia. }
    exists (rest ++ new2). rewrite <- app_assoc.
    unfold fetch_init, api.sanitizedAlert, alert_data.
    cbn [method body headers api.disasterType api.region api.riskScore].
    rewrite Hsanitized. reflexivity.
Qed.

End AlertsFacts.

Lemma handleSubmit_empty_region_witness :
  let '(evs, w') :=
    Alerts.handleSubmit sample_clock network_down (fun _ => "")
      {| Alerts.disasterType := "flood"; Alerts.region := " <> ";
         Alerts.riskScore := 50 |}
      initial_world in
  ~ In (Alerts.Notify "Region is required" "warning") evs
  /\ exists rest,
       trace w'
       = trace initial_world
         ++ EvFetch "http://127.0.0.1:3333/api/v1/disaster/alerts"
              {| method := Some "POST";
                 body := Some [ ("disasterType", sanitizeInput (JStr "flood"));
                                ("region", JStr "");
                                ("riskScore", JNum (api.clampRisk (JNum 50))) ];
                 headers := [("Content-Type", "application/json")] |}
         :: rest.
Proof.
  apply (handleSubmit_empty_region sample_clock network_down (fun _ => "")
           {| Alerts.disasterType := "flood"; Alerts.region := " <> ";
              Alerts.riskScore := 50 |}
           initial_world).
  - split.
    + repeat constructor; first [left; reflexivity | right; left; reflexivity
                                | right; right; reflexivity].
    + apply Exists_cons_tl, Exists_cons_hd. left. reflexivity.
  - simpl. lia.
Defined.

(** ** The wallet page and [useWallet.connect] *)

Section WalletFacts.

Variable clock : nat -> Z.
Variable network : nat -> string -> RequestInit -> FetchResult.
Variable isAddress : jsval -> bool.
Variable ethereum : option (WalletRequest -> outcome RpcError (list jsval)).

Import Wallet.

(** X20: [checkBalance] asks the API only for a value that is an address.
    With an empty address slot it shows [Enter an address] and does
    nothing else; with a value [ethers.isAddress] rejects it shows
    [Invalid address or balance check failed] without any request, clock
    reading or use of the limiter; in both cases the balance slot keeps
    what it held.  With an address it is the lookup of [api.getBalance]:
    the balance slot is written exactly when the lookup succeeds, with the
    value it returned, and the error notification is shown exactly when it
    fails.  Whenever the loading flag was set it is cleared at the end. *)
Theorem checkBalance_outcomes (address : jsval) (w : World) :
  let lookup :=
    secureFetch clock network
      ("http://127.0.0.1:3333/api/v1/token/balance/" +:+ ToString address)
      no_options 3 w in
  let failed :=
    Notify "Invalid address or balance check failed" "error" in
  let '(evs, w') := checkBalance clock network isAddress address w in
  (truthy address = false ->
     evs = [Notify "Enter an address" "warning"] /\ w' = w)
  /\ (truthy address = true -> isAddress address = false ->
        evs = [SetLoading true; failed; SetLoading false] /\ w' = w)
  /\ (truthy address = true -> isAddress address = true ->
        w' = snd lookup
        /\ (forall bal, fst lookup = Ok bal ->
              evs = [SetLoading true; SetBalance bal; SetLoading false])
        /\ (is_ok (fst lookup) = false ->
              evs = [SetLoading true; failed; SetLoading false])).
Proof.
  intros lookup failed. unfold checkBalance, api.getBalance.
  destruct (truthy address) eqn:Htruthy; simpl negb; cbv iota.
  2: { split; [intros _; split; reflexivity|]. split; intros H; discriminate H. }
  destruct (isAddress address) eqn:Haddress; simpl negb; cbv iota.
  2: { split; [intros H; discriminate H|].
       split; [intros _ _; split; reflexivity | intros _ H; discriminate H]. }
  change (secureFetch clock network
            (API_BASE +:+ "/token/balance/" +:+ ToString address)
            no_options default_retries w) with lookup.
  destruct lookup as [[bal|e] w1]; simpl;
    (split; [intros H; discriminate H|]);
    (split; [intros _ H; discriminate H|]); intros _ _;
    (split; [reflexivity|]); split;
    first [intros v [= <-]; reflexivity | intros v H; discriminate H
          | intros H; discriminate H | intros _; reflexivity].
Qed.

(** X21: [connectWallet] never clears the connected flag, and it sets it
    as soon as the wallet grants the accounts, before the balance lookup:
    when the lookup then fails (the list of accounts is empty, its first
    element is no address, or the API fails) the page shows
    [Failed to connect wallet] while the connected flag is set and the
    address slot holds the first element of the list.  The notification
    [Wallet connected!] is shown exactly when the wallet grants the
    accounts and the lookup succeeds; without a wallet the page shows
    [Please install MetaMask] and nothing else happens; otherwise the
    loading flag is set first and cleared last. *)
Theorem connectWallet_outcomes (w : World) :
  let '(evs, w') := connectWallet clock network isAddress ethereum w in
  ~ In (SetConnected false) evs
  /\ (ethereum = None ->
        evs = [Notify "Please install MetaMask" "warning"] /\ w' = w)
  /\ (forall wallet, ethereum = Some wallet ->
        (exists mid,
           evs = SetLoading true :: Request eth_requestAccounts :: mid
                 ++ [SetLoading false])
        /\ (forall err, wallet eth_requestAccounts = Throw err ->
              evs = [SetLoading true; Request eth_requestAccounts;
                     Notify "Failed to connect wallet" "error";
                     SetLoading false]
              /\ w' = w)
        /\ (forall accounts, wallet eth_requestAccounts = Ok accounts ->
              let first := useWallet_connect.first_account accounts in
              let lookup := api.getBalance clock network isAddress first w in
              w' = snd lookup
              /\ In (SetAddress first) evs
              /\ In (SetConnected true) evs
              /\ (In (Notify "Wallet connected!" "success") evs
                  <-> is_ok (fst lookup) = true)
              /\ (In (Notify "Failed to connect wallet" "error") evs
                  <-> is_ok (fst lookup) = false)
              /\ (isAddress first = false -> w' = w))).
Proof.
  unfold connectWallet.
  destruct ethereum as [wallet|].
  2: { split; [absent|]. split; [intros _; split; reflexivity|].
       intros wallet H. discriminate H. }
  destruct (wallet eth_requestAccounts) as [accounts|err] eqn:Hrequest.
  - destruct (api.getBalance clock network isAddress
                (useWallet_connect.first_account accounts) w)
      as [[bal|e] w1] eqn:Hlookup;
      (split; [absent|]); (split; [intros H; discriminate H|]);
      intros wallet' [= <-]; rewrite Hrequest.
    + split; [exists [SetAddress (useWallet_connect.first_account accounts);
                      SetConnected true; SetBalance bal;
                      Notify "Wallet connected!" "success"]; reflexivity|].
      split; [intros err H; discriminate H|].
      intros accounts' [= <-]. cbv zeta. rewrite Hlookup. simpl.
      split; [reflexivity|]. split; [present|]. split; [present|].
      split; [split; [reflexivity | intros _; present]|].
      split; [split; [absent | intros H; discriminate H]|].
      intros Hno. unfold api.getBalance in Hlookup. rewrite Hno in Hlookup.
      discriminate Hlookup.
    + split; [exists [SetAddress (useWallet_connect.first_account accounts);
                      SetConnected true;
                      Notify "Failed to connect wallet" "error"]; reflexivity|].
      split; [intros err H; discriminate H|].
      intros accounts' [= <-]. cbv zeta. rewrite Hlookup. simpl.
      split; [reflexivity|]. split; [present|]. split; [present|].
      split; [split; [absent | intros H; discriminate H]|].
      split; [split; [reflexivity | intros _; present]|].
      intros Hno. unfold api.getBalance in Hlookup. rewrite Hno in Hlookup.
      injection Hlookup as _ <-. reflexivity.
  - split; [absent|]. split; [intros H; discriminate H|].
    intros wallet' [= <-]. rewrite Hrequest.
    split; [exists [Notify "Failed to connect wallet" "error"]; reflexivity|].
    split; [intros err' _; split; reflexivity|].
    intros accounts H. discriminate H.
Qed.

(** X22: [connect] of [useWallet].  Without a wallet it returns [false]
    with [Please install MetaMask] in the error slot, sends no request and
    leaves the connecting flag as it was.  With a wallet it sends the one
    request [eth_requestAccounts] and ends with the connecting flag off; it
    returns [true] exactly when the wallet grants the request, and then
    the error slot is empty and the account is the first element of the
    list, so the hook reports itself connected exactly when that element
    is a non-empty string or another truthy value: for an empty list
    [connect] returns [true] while [isConnected] is [false].  When the
    wallet refuses, the error slot holds the message and the account is
    left as it was. *)
Theorem connect_outcomes (st : useWallet_connect.State) (tr : list HookEvent) :
  let '(result, st', tr') := useWallet_connect.connect ethereum st tr in
  (ethereum = None ->
     result = false /\ tr' = tr
     /\ useWallet_connect.error st' = Some "Please install MetaMask"
     /\ useWallet_connect.isConnecting st' = useWallet_connect.isConnecting st
     /\ useWallet_connect.account st' = useWallet_connect.account st)
  /\ (forall wallet, ethereum = Some wallet ->
        tr' = tr ++ [EvRequest eth_requestAccounts]
        /\ useWallet_connect.isConnecting st' = false
        /\ (result = is_ok (wallet eth_requestAccounts))
        /\ (forall accounts, wallet eth_requestAccounts = Ok accounts ->
              useWallet_connect.error st' = None
              /\ useWallet_connect.account st'
                 = useWallet_connect.first_account accounts
              /\ useWallet_connect.isConnected st'
                 = truthy (useWallet_connect.first_account accounts)
              /\ (accounts = [] -> useWallet_connect.isConnected st' = false))
        /\ (forall err, wallet eth_requestAccounts = Throw err ->
              useWallet_connect.error st' = Some (message err)
              /\ useWallet_connect.account st' = useWallet_connect.account st)).
Proof.
  unfold useWallet_connect.connect.
  destruct ethereum as [wallet|].
  2: { split; [intros _; repeat split; reflexivity|].
       intros wallet H. discriminate H. }
  destruct (wallet eth_requestAccounts) as [accounts|err] eqn:Hrequest;
    (split; [intros H; discriminate H|]);
    intros wallet' [= <-]; rewrite Hrequest; simpl;
    (split; [reflexivity|]); (split; [reflexivity|]); (split; [reflexivity|]);
    split.
  - intros accounts' [= <-]. split; [reflexivity|]. split; [reflexivity|].
    split; [reflexivity|]. intros ->. reflexivity.
  - intros err H. discriminate H.
  - intros accounts H. discriminate H.
  - intros err' [= <-]. split; reflexivity.
Qed.

End WalletFacts.

(** ** The [api] object as a whole *)

Section ApiRequests.

Variable clock : nat -> Z.
Variable network : nat -> string -> RequestInit -> FetchResult.
Variable isAddress : jsval -> bool.
Variable queryString : list (string * jsval) -> string.

Lemma prefix_append (a b : list ascii) : Str.prefix a (a ++ b) = true.
Proof.
  induction a as [|c a IH]; [reflexivity|]. simpl.
  rewrite Ascii.eqb_refl. exact IH.
Qed.

Lemma under_API_BASE (path : string) :
  Str.prefix (Str.chars API_BASE) (Str.chars (API_BASE +:+ path)) = true.
Proof. rewrite chars_append. apply prefix_append. Qed.

Lemma secureFetch_requests (path : string) (options : RequestInit) (w : World) :
  let w' := snd (secureFetch clock network (API_BASE +:+ path) options
                   default_retries w) in
  exists new,
    trace w' = trace w ++ new
    /\ (fetches new <= 4)%nat
    /\ forall url init, In (EvFetch url init) new ->
         Str.prefix (Str.chars API_BASE) (Str.chars url) = true
         /\ init = fetch_init options.
Proof.
  intros w'. subst w'.
  destruct (secureFetch_bounds clock network (API_BASE +:+ path) options
              default_retries w)
    as (new & m & Htrace & Hm & _ & Hfetches & _).
  destruct (secureFetch_trace clock network (API_BASE +:+ path) options
              default_retries w)
    as (new' & Htrace' & Hsame & _).
  assert (new' = new) as ->.
  { rewrite Htrace in Htrace'. apply app_inv_head in Htrace'. congruence. }
  exists new. split; [exact Htrace|]. split.
  - change default_retries with 3%nat in Hm. destruct Hfetches; lia.
  - intros url init Hin. rewrite List.Forall_forall in Hsame.
    destruct (Hsame _ Hin) as [-> ->]. split; [apply under_API_BASE | reflexivity].
Qed.

Lemma read_requests (path : string) (w : World) :
  api_requests true w
    (snd (secureFetch clock network (API_BASE +:+ path) no_options
            default_retries w)).
Proof.
  destruct (secureFetch_requests path no_options w) as (new & Ht & Hf & Hall).
  exists new. split; [exact Ht|]. split; [exact Hf|].
  intros url init Hin. destruct (Hall url init Hin) as [Hurl ->].
  split; [exact Hurl|]. split; [reflexivity | split; reflexivity].
Qed.

Lemma write_requests (path : string) (payload : jsobj) (w : World) :
  api_requests false w
    (snd (secureFetch clock network (API_BASE +:+ path)
            {| method := Some "POST"; body := Some payload; headers := [] |}
            default_retries w)).
Proof.
  destruct (secureFetch_requests path
              {| method := Some "POST"; body := Some payload; headers := [] |} w)
    as (new & Ht & Hf & Hall).
  exists new. split; [exact Ht|]. split; [exact Hf|].
  intros url init Hin. destruct (Hall url init Hin) as [Hurl ->].
  split; [exact Hurl|]. split; [reflexivity|].
  split; [reflexivity | eexists; reflexivity].
Qed.

(** X23: every operation of the [api] object, on every argument and in
    every environment, calls [fetch] at most four times, only on URLs that
    start with [API_BASE], always with the header
    [Content-Type: application/json]; the six reads send neither a method
    nor a body, and [createAlert] and [registerUser] send a [POST] with a
    body. *)
Theorem api_operations_requests (w : World) :
  api_requests true w (snd (api.getHealth clock network w))
  /\ api_requests true w (snd (api_rest.getTokenInfo clock network w))
  /\ api_requests true w (snd (api_rest.getContracts clock network w))
  /\ api_requests true w (snd (api_rest.getStats clock network w))
  /\ (forall params,
        api_requests true w
          (snd (api_rest.getAlerts clock network queryString params w)))
  /\ (forall address,
        api_requests true w
          (snd (api.getBalance clock network isAddress address w)))
  /\ (forall data,
        api_requests false w (snd (api.createAlert clock network data w)))
  /\ (forall data,
        api_requests false w (snd (api_rest.registerUser clock network data w))).
Proof.
  repeat split; intros.
  - apply (read_requests "/health").
  - apply (read_requests "/token/info").
  - apply (read_requests "/contracts").
  - apply (read_requests "/stats").
  - apply (read_requests ("/disaster/alerts?" +:+ queryString params)).
  - unfold api.getBalance. destruct (isAddress address); simpl negb; cbv iota.
    + apply (read_requests ("/token/balance/" +:+ ToString address)).
    + exists []. split; [symmetry; apply app_nil_r|].
      split; [unfold fetches; simpl; lia|]. intros url init [].
  - apply (write_requests "/disaster/alerts").
  - apply (write_requests "/users/register").
Qed.

End ApiRequests.

(** ** [useWallet.switchNetwork] on a network of [NETWORKS] *)

(** X24: a switch to a network of [NETWORKS] writes no slot of the hook
    but the error slot: the account, the chain id and the connecting flag
    are as before, and the chain id changes only when the wallet announces
    it.  The first request is always the switch request; the add-network
    request follows exactly when the switch failed with code 4902, and no
    other request is sent.  The call returns [true] exactly when its last
    request succeeded, and then the state is as before, a message left in
    the error slot by an earlier call included; it returns [false] with
    the message of the failed request in the error slot otherwise. *)
Theorem switchNetwork_requests
    (wallet : WalletRequest -> outcome RpcError unit)
    (networkId : string) (network : Config.Network)
    (st : useWallet.State) (tr : list HookEvent) :
  Config.NETWORKS !! networkId = Some network ->
  let switch := wallet_switchEthereumChain (useWallet.hex_chain_id network) in
  let add := wallet_addEthereumChain (useWallet.add_chain_params network) in
  let '(result, st', tr') :=
    useWallet.switchNetwork (Some wallet) networkId st tr in
  useWallet.account st' = useWallet.account st
  /\ useWallet.chainId st' = useWallet.chainId st
  /\ useWallet.isConnecting st' = useWallet.isConnecting st
  /\ (result = true -> st' = st)
  /\ ((tr' = tr ++ [EvRequest switch]
       /\ result = is_ok (wallet switch)
       /\ forall e, wallet switch = Throw e ->
            code e <> Some 4902 /\ useWallet.error st' = Some (message e))
      \/ (tr' = tr ++ [EvRequest switch; EvRequest add]
          /\ (exists e, wallet switch = Throw e /\ code e = Some 4902)
          /\ result = is_ok (wallet add)
          /\ forall e, wallet add = Throw e ->
               useWallet.error st' = Some (message e))).
Proof.
  intros Hnetwork switch add. unfold useWallet.switchNetwork, useWallet.request.
  rewrite Hnetwork. fold switch.
  destruct (wallet switch) as [[]|e] eqn:Hswitch.
  { split; [reflexivity|]. split; [reflexivity|]. split; [reflexivity|].
    split; [reflexivity|]. left.
    split; [reflexivity|]. split; [reflexivity|]. intros e H. discriminate H. }
  destruct (bool_decide (code e = Some 4902)) eqn:Hcode.
  - apply bool_decide_eq_true in Hcode. fold add.
    destruct (wallet add) as [[]|e'] eqn:Hadd;
      (split; [reflexivity|]); (split; [reflexivity|]); (split; [reflexivity|]);
      (split; [first [reflexivity | intros H; discriminate H]|]); right;
      (split; [rewrite <- app_assoc; reflexivity|]);
      (split; [exists e; split; [reflexivity | exact Hcode]|]);
      (split; [reflexivity|]).
    + intros e0 H. discriminate H.
    + intros e0 [= <-]. reflexivity.
  - apply bool_decide_eq_false in Hcode.
    split; [reflexivity|]. split; [reflexivity|]. split; [reflexivity|].
    split; [intros H; discriminate H|]. left.
    split; [reflexivity|]. split; [reflexivity|].
    intros e0 [= <-]. split; [exact Hcode | reflexivity].
Qed.

Lemma switchNetwork_requests_witness :
  let '(result, st', tr') :=
    useWallet.switchNetwork (Some wallet_rejecting) "polygon"
      connected_wallet [] in
  result = false
  /\ useWallet.error st' = Some "User rejected the request."
  /\ tr' = [EvRequest (wallet_switchEthereumChain "0x89")].
Proof.
  pose proof (switchNetwork_requests wallet_rejecting "polygon"
                {| Config.chainId := 137; Config.name := "Polygon Mainnet";
                   Config.rpcUrl := "https://polygon-rpc.com";
                   Config.explorer := "https://polygonscan.com";
                   Config.currency := {| Config.cur_name := "MATIC";
                                         Config.cur_symbol := "MATIC";
                                         Config.cur_decimals := 18 |} |}
                connected_wallet [] ltac:(vm_compute; reflexivity)) as H.
  cbv zeta in H.
  destruct (useWallet.switchNetwork (Some wallet_rejecting) "polygon"
              connected_wallet []) as [[result st'] tr'].
  destruct H as (_ & _ & _ & _ & [(Htr & Hresult & Herror) | (_ & (e & He & Hcode) & _)]).
  - split; [exact Hresult|]. split; [|exact Htr].
    exact (proj2 (Herror _ eq_refl)).
  - injection He as <-. discriminate Hcode.
Defined.
